(** * Pick-and-place robot arm: a shallow embedding of the Python sources

    The development follows the four source files:
    - [color_detection.py]   -> [Module ColorDetection]
    - [object_tracker.py]    -> [Module ObjectTracker]
    - [robot_arm_simulator.py] -> [Module RobotArm]
    - [main.py]              -> [Module Main]

    Python objects become records, attribute assignment becomes explicit
    state passing, and a raised exception becomes the [Raise] outcome of
    the [result] type.  A call of [time.time()] becomes an argument of the
    function that makes it: the reading, a double, as a rational. *)

From Stdlib Require Import ZArith QArith String Ascii List Lia.
From Stdlib Require Import Sorted Permutation Reals Lra.
From stdpp Require Import base option list gmap strings pretty.

Local Open Scope Z_scope.

(** ** Outcomes of fallible code *)

(** The exceptions the modelled code can raise. *)
Inductive exn : Type :=
  | KeyError (key : string)          (* a dict subscript on a missing key *)
  | TypeError (what : string)        (* subscripting [None] *)
  | IndexError (what : string)       (* [pop] from an empty list *)
  | ZeroDivisionError (what : string).

Inductive result (A : Type) : Type :=
  | Ok (a : A)
  | Raise (e : exn).
Arguments Ok {A} a.
Arguments Raise {A} e.

Definition bind {A B : Type} (r : result A) (k : A -> result B) : result B :=
  match r with
  | Ok a => k a
  | Raise e => Raise e
  end.

Notation "'let!' x ':=' r 'in' k" := (bind r (fun x => k))
  (at level 10, x name, r at level 100, k at level 200).

(** ** Data shared by the components *)

Definition Position : Type := Z * Z * Z.
Definition Pixel : Type := Z * Z.

(** The dict built by [process_contours] for every accepted contour. *)
Record DetectedObject : Type := mkObject {
  pixel_pos : Pixel;
  robot_pos : Position;
  size_wh   : Z * Z;             (* key 'size' *)
  area      : Q;
  color     : string;
  bbox      : Z * Z * Z * Z;
  ident     : string             (* key 'id' *)
}.

(** [sorted(l, key=...)] and [l.sort(key=...)]: Python's sort is stable,
    and a stable sort has one possible result, computed here by insertion.
    An element is inserted in front of the elements of the sorted tail
    whose key is not smaller: it came before them in the input. *)
Section StableSort.
Context {A : Type} (key : A -> Z).

Fixpoint insert_by (x : A) (l : list A) : list A :=
  match l with
  | [] => [x]
  | y :: l' => if key x <=? key y then x :: y :: l' else y :: insert_by x l'
  end.

Fixpoint sorted_by (l : list A) : list A :=
  match l with
  | [] => []
  | x :: l' => insert_by x (sorted_by l')
  end.
End StableSort.

(** [int(x)] of a float: truncation towards zero. *)
Definition int_of_Q (q : Q) : Z := Z.quot (Qnum q) (Z.pos (Qden q)).

(** [l[i]]: a negative index counts from the end, and an index outside
    [-len(l), len(l))] raises [IndexError]. *)
Definition py_index {A : Type} (l : list A) (i : Z) : result A :=
  let n := Z.of_nat (length l) in
  let j := if i <? 0 then i + n else i in
  if (0 <=? j) && (j <? n)
  then match nth_error l (Z.to_nat j) with
       | Some x => Ok x
       | None => Raise (IndexError "list index out of range")
       end
  else Raise (IndexError "list index out of range").

(** ** robot_arm_simulator.py *)

Module RobotArm.

Inductive Step : Type :=
  | Move (target : Position) (description : string)
  | Gripper (action : string) (description : string).

Definition description_of (st : Step) : string :=
  match st with
  | Move _ d => d
  | Gripper _ d => d
  end.

Record Mission : Type := mkMission {
  object_pos   : Position;
  object_color : string;
  start_time   : Q
}.

Record PickRecord : Type := mkPick {
  pick_color    : string;      (* key 'color' *)
  pick_position : Position;    (* key 'position' *)
  timestamp     : Q;
  drop_location : Position;
  success       : bool
}.

Record Metrics : Type := mkMetrics {
  total_picks       : Z;
  successful_picks  : Z;
  failed_picks      : Z;
  average_pick_time : Z;
  batch_completions : Z
}.

(** [self.drop_locations], assigned in [__init__] and never again. *)
Definition drop_locations : gmap string Position :=
  <["Red"%string := (100, 350, 50)]>
  (<["Green"%string := (300, 350, 50)]>
  (<["Blue"%string := (500, 350, 50)]> ∅)).

(** [self.drop_locations[c]] *)
Definition drop_of (c : string) : result Position :=
  match drop_locations !! c with
  | Some p => Ok p
  | None => Raise (KeyError c)
  end.

Record Sim : Type := mkSim {
  current_position : Position;
  gripper_state    : string;
  is_moving        : bool;
  current_mission  : option Mission;
  mission_progress : Z;
  mission_steps    : list Step;
  batch_mode       : bool;
  batch_queue      : list DetectedObject;
  pick_history     : list PickRecord;
  metrics          : Metrics
}.

(** [RobotArmSimulator.__init__] *)
Definition init : Sim := {|
  current_position := (300, 200, 100);
  gripper_state    := "open";
  is_moving        := false;
  current_mission  := None;
  mission_progress := 0;
  mission_steps    := [];
  batch_mode       := false;
  batch_queue      := [];
  pick_history     := [];
  metrics          := mkMetrics 0 0 0 0 0
|}.

(** [calculate_pick_mission]: the nine steps, after the drop-zone
    lookup, which raises [KeyError] for a colour without a drop zone. *)
Definition calculate_pick_mission (s : Sim) (object_pos : Position)
    (object_color : string) : result (list Step) :=
  let '(object_x, object_y, object_z) := object_pos in
  let! d := drop_of object_color in
  let '(drop_x, drop_y, drop_z) := d in
  Ok [ Move (object_x, object_y, object_z + 50) "Approach object";
       Move (object_x, object_y, object_z) "Lower to object";
       Gripper "close" "Pick up object";
       Move (object_x, object_y, object_z + 80) "Lift object";
       Move (drop_x, drop_y, object_z + 80) "Move above drop zone";
       Move (drop_x, drop_y, drop_z) "Lower to drop height";
       Gripper "open" "Release object";
       Move (drop_x, drop_y, drop_z + 80) "Lift from drop zone";
       Move (current_position s) "Return to home" ].

(** Attribute assignments. *)
Definition set_mission (m : option Mission) (s : Sim) : Sim :=
  mkSim (current_position s) (gripper_state s) (is_moving s) m
        (mission_progress s) (mission_steps s) (batch_mode s)
        (batch_queue s) (pick_history s) (metrics s).
Definition set_steps (l : list Step) (s : Sim) : Sim :=
  mkSim (current_position s) (gripper_state s) (is_moving s)
        (current_mission s) (mission_progress s) l (batch_mode s)
        (batch_queue s) (pick_history s) (metrics s).
Definition set_moving (b : bool) (s : Sim) : Sim :=
  mkSim (current_position s) (gripper_state s) b (current_mission s)
        (mission_progress s) (mission_steps s) (batch_mode s)
        (batch_queue s) (pick_history s) (metrics s).
Definition set_progress (p : Z) (s : Sim) : Sim :=
  mkSim (current_position s) (gripper_state s) (is_moving s)
        (current_mission s) p (mission_steps s) (batch_mode s)
        (batch_queue s) (pick_history s) (metrics s).
Definition set_batch_mode (b : bool) (s : Sim) : Sim :=
  mkSim (current_position s) (gripper_state s) (is_moving s)
        (current_mission s) (mission_progress s) (mission_steps s) b
        (batch_queue s) (pick_history s) (metrics s).
Definition set_queue (q : list DetectedObject) (s : Sim) : Sim :=
  mkSim (current_position s) (gripper_state s) (is_moving s)
        (current_mission s) (mission_progress s) (mission_steps s)
        (batch_mode s) q (pick_history s) (metrics s).
Definition set_history (h : list PickRecord) (s : Sim) : Sim :=
  mkSim (current_position s) (gripper_state s) (is_moving s)
        (current_mission s) (mission_progress s) (mission_steps s)
        (batch_mode s) (batch_queue s) h (metrics s).
Definition set_metrics (m : Metrics) (s : Sim) : Sim :=
  mkSim (current_position s) (gripper_state s) (is_moving s)
        (current_mission s) (mission_progress s) (mission_steps s)
        (batch_mode s) (batch_queue s) (pick_history s) m.

Definition incr_picks (m : Metrics) : Metrics :=
  mkMetrics (total_picks m + 1) (successful_picks m + 1) (failed_picks m)
            (average_pick_time m) (batch_completions m).
Definition incr_batch (m : Metrics) : Metrics :=
  mkMetrics (total_picks m) (successful_picks m) (failed_picks m)
            (average_pick_time m) (batch_completions m + 1).

(** [start_next_mission]; [now] is the reading of [time.time()]. *)
Definition start_next_mission (now : Q) (s : Sim) : result Sim :=
  match batch_queue s with
  | [] => Raise (IndexError "pop from empty list")
  | next_mission :: rest =>
      let s1 := set_queue rest s in
      let s2 := set_mission
                  (Some (mkMission (robot_pos next_mission)
                                   (color next_mission) now)) s1 in
      let! steps := calculate_pick_mission s2 (robot_pos next_mission)
                 (color next_mission) in
      Ok (set_steps steps s2)
  end.

(** [complete_mission]; [now] is the clock reading stored in the history
    entry and [now'] the later one taken by [start_next_mission]. *)
Definition complete_mission (now now' : Q) (s : Sim) : result Sim :=
  let s1 := set_progress 0 s in
  let s2 := set_metrics (incr_picks (metrics s1)) s1 in
  match current_mission s2 with
  | None => Raise (TypeError "'NoneType' object is not subscriptable")
  | Some m =>
      let! d := drop_of (object_color m) in
      let s3 := set_history
                  (pick_history s2 ++
                   [mkPick (object_color m) (object_pos m) now d true]) s2 in
      match batch_queue s3 with
      | _ :: _ => start_next_mission now' s3
      | [] =>
          let s4 := if batch_mode s3
                    then set_metrics (incr_batch (metrics s3)) s3
                    else s3 in
          Ok (set_batch_mode false (set_moving false (set_mission None s4)))
      end
  end.

(** [update_mission]: one tick. *)
Definition update_mission (now now' : Q) (s : Sim) : result Sim :=
  if is_moving s && bool_decide (is_Some (current_mission s)) then
    let s1 := set_progress (mission_progress s + 2) s in
    if 100 <=? mission_progress s1
    then complete_mission now now' s1
    else Ok s1
  else Ok s.

(** [start_mission] *)
Definition start_mission (now : Q) (object_pos : Position)
    (object_color : string) (s : Sim) : result Sim :=
  if negb (is_moving s) then
    let s1 := set_mission (Some (mkMission object_pos object_color now)) s in
    let! steps := calculate_pick_mission s1 object_pos object_color in
    Ok (set_progress 0 (set_moving true (set_steps steps s1)))
  else Ok s.

(** [start_batch_pick] *)
Definition start_batch_pick (now : Q) (objects_list : list DetectedObject)
    (s : Sim) : result Sim :=
  match objects_list with
  | first_object :: rest =>
      if negb (is_moving s) then
        let s1 := set_queue rest (set_batch_mode true s) in
        start_mission now (robot_pos first_object) (color first_object) s1
      else Ok s
  | [] => Ok s
  end.

(** [start_color_batch_pick] *)
Definition start_color_batch_pick (now : Q)
    (objects_by_color : list DetectedObject) (c : string) (s : Sim)
    : result Sim :=
  let color_objects :=
    List.filter (fun obj => String.eqb (color obj) c) objects_by_color in
  match color_objects with
  | [] => Ok s
  | _ :: _ => start_batch_pick now color_objects s
  end.

(** The dict [color_order] of [start_all_objects_batch]. *)
Definition color_order : gmap string Z :=
  <["Red"%string := 0]> (<["Green"%string := 1]> (<["Blue"%string := 2]> ∅)).

(** [color_order.get(c, 3)] *)
Definition color_priority (c : string) : Z :=
  default 3 (color_order !! c).

(** [start_all_objects_batch] *)
Definition start_all_objects_batch (now : Q)
    (all_objects : list DetectedObject) (s : Sim) : result Sim :=
  match all_objects with
  | [] => Ok s
  | _ :: _ =>
      let sorted_objects :=
        sorted_by (fun x => color_priority (color x)) all_objects in
      start_batch_pick now sorted_objects s
  end.

(** [n] successive calls of [update_mission], one per pair of clock
    readings; an exception ends them. *)
Fixpoint ticks (clock : list (Q * Q)) (s : Sim) : result Sim :=
  match clock with
  | [] => Ok s
  | (now, now') :: clock' =>
      let! s' := update_mission now now' s in
      ticks clock' s'
  end.

(** The calls a client of the controller can make. *)
Inductive Op : Type :=
  | OpStartMission (now : Q) (object_pos : Position) (object_color : string)
  | OpStartBatchPick (now : Q) (objects_list : list DetectedObject)
  | OpStartColorBatchPick (now : Q) (objects : list DetectedObject) (c : string)
  | OpStartAllObjectsBatch (now : Q) (all_objects : list DetectedObject)
  | OpUpdateMission (now now' : Q)
  | OpCompleteMission (now now' : Q)
  | OpStartNextMission (now : Q).

Definition exec (op : Op) (s : Sim) : result Sim :=
  match op with
  | OpStartMission now p c => start_mission now p c s
  | OpStartBatchPick now l => start_batch_pick now l s
  | OpStartColorBatchPick now l c => start_color_batch_pick now l c s
  | OpStartAllObjectsBatch now l => start_all_objects_batch now l s
  | OpUpdateMission now now' => update_mission now now' s
  | OpCompleteMission now now' => complete_mission now now' s
  | OpStartNextMission now => start_next_mission now s
  end.

(** The controller states reached from [init] by calls that return. *)
Inductive reachable : Sim -> Prop :=
  | reachable_init : reachable init
  | reachable_exec s op s' :
      reachable s -> exec op s = Ok s' -> reachable s'.

(** [get_current_step].  The two divisions are exact here; in double
    precision the truncated quotient is the same for the nine-step plans
    the controller builds and a progress between 0 and 100, where the
    quotient is a whole number only at 0 and at 100, which the [min]
    clamps. *)
Definition get_current_step (s : Sim) : result (option Step) :=
  match current_mission s, mission_steps s with
  | None, _ => Ok None
  | Some _, [] => Ok None
  | Some _, _ :: _ =>
      let n := Z.of_nat (length (mission_steps s)) in
      let progress_per_step := (inject_Z 100 / inject_Z n)%Q in
      let current_step_index :=
        Z.min (int_of_Q (inject_Z (mission_progress s) / progress_per_step)%Q)
              (n - 1) in
      let! step := py_index (mission_steps s) current_step_index in
      Ok (Some step)
  end.

(** [get_status] *)
Definition get_status (s : Sim) : result string :=
  match is_moving s, current_mission s with
  | true, Some m =>
      let! current_step := get_current_step s in
      let queue_info :=
        match batch_queue s with
        | [] => ""
        | _ :: _ => " (+" +:+ pretty (length (batch_queue s)) +:+ " in queue)"
        end in
      match current_step with
      | Some st =>
          Ok ("MISSION: " +:+ object_color m +:+ " - " +:+ description_of st
                +:+ queue_info)
      | None => Raise (TypeError "'NoneType' object is not subscriptable")
      end
  | _, _ => Ok "READY - Select object to pick"
  end.

(** The dict returned by [get_performance_metrics]: the metrics and
    three derived entries. *)
Record Performance : Type := mkPerformance {
  perf_metrics    : Metrics;
  recent_avg_time : Q;
  total_missions  : Z;
  success_rate    : Q
}.

(** [mission.get('duration', 0)]: a history entry has no such key. *)
Definition duration_or_0 (e : PickRecord) : Q := 0.

(** [l[-10:]] *)
Definition last_ten {A : Type} (l : list A) : list A :=
  drop (length l - 10)%nat l.

(** [get_performance_metrics] *)
Definition get_performance_metrics (s : Sim) : Performance :=
  let recent := last_ten (pick_history s) in
  let total_time := fold_right Qplus 0%Q (List.map duration_or_0 recent) in
  let avg_time :=
    (total_time / inject_Z (Z.max (Z.of_nat (length recent)) 1))%Q in
  mkPerformance (metrics s) avg_time (Z.of_nat (length (pick_history s)))
    (inject_Z (successful_picks (metrics s))
     / inject_Z (Z.max (total_picks (metrics s)) 1) * inject_Z 100)%Q.

End RobotArm.

(** ** object_tracker.py *)

Module ObjectTracker.

(** *** ObjectSelector *)

Record Selector : Type := mkSelector {
  tolerance_radius : Z;
  selected_object  : option DetectedObject;
  selection_id     : option string
}.

(** [ObjectSelector.__init__] *)
Definition new_selector (tolerance : Z) : Selector :=
  mkSelector tolerance None None.

(** The radicand of [distance]: [(cx - sx) ** 2 + (cy - sy) ** 2], an
    exact integer. *)
Definition dist2 (selected current : Pixel) : Z :=
  (fst current - fst selected) ^ 2 + (snd current - snd selected) ^ 2.

(** [distance = math.sqrt(...)], as a real number.  The source computes
    it in double precision; rounding the square root of an integer below
    2^50 (pixel coordinates stay far below) neither merges two different
    values nor moves one across an integer radius, so comparing and sorting
    the exact distances is the same.  The executable model below compares
    and sorts the radicands, which orders the distances
    ([sqrt_le_radius], [sqrt_lt_radicand]). *)
Definition distance (selected current : Pixel) : R :=
  sqrt (IZR (dist2 selected current)).

(** [distance <= self.tolerance_radius], on the radicand: a square root
    is never below a negative radius, and is at most a radius [r >= 0]
    exactly when the radicand is at most [r * r]. *)
Definition within_tolerance (tolerance d2 : Z) : bool :=
  (0 <=? tolerance) && (d2 <=? tolerance * tolerance).

(** The list [matching_objects] built by the [for] loop. *)
Definition matching_objects (tolerance : Z) (selected : Pixel)
    (current_objects : list DetectedObject) : list (DetectedObject * Z) :=
  List.filter (fun m => within_tolerance tolerance (snd m))
    (List.map (fun obj => (obj, dist2 selected (pixel_pos obj)))
       current_objects).

(** [update_selection]: the returned value and the selector afterwards. *)
Definition update_selection (current_objects : list DetectedObject)
    (sel : Selector) : option DetectedObject * Selector :=
  match selected_object sel with
  | None => (None, sel)
  | Some selected =>
      let matching :=
        matching_objects (tolerance_radius sel) (pixel_pos selected)
          current_objects in
      match sorted_by snd matching with
      | (closest_obj, _) :: _ =>
          (Some closest_obj,
           mkSelector (tolerance_radius sel) (Some closest_obj)
                      (Some (ident closest_obj)))
      | [] => (None, sel)
      end
  end.

(** [select_object] *)
Definition select_object (obj : DetectedObject) (sel : Selector) : Selector :=
  mkSelector (tolerance_radius sel) (Some obj) (Some (ident obj)).

(** [clear_selection] *)
Definition clear_selection (sel : Selector) : Selector :=
  mkSelector (tolerance_radius sel) None None.

(** [is_object_selected] *)
Definition is_object_selected (sel : Selector) : bool :=
  bool_decide (is_Some (selected_object sel)).

Definition set_tolerance (r : Z) (sel : Selector) : Selector :=
  mkSelector r (selected_object sel) (selection_id sel).

(** *** PositionStabilizer *)

(** [buffer_size] is the [maxlen] of every deque; it is positive
    ([deque] rejects a negative one, and with 0 the median would be
    taken of an empty buffer). *)
Record Stabilizer : Type := mkStabilizer {
  buffer_size      : positive;
  position_buffers : gmap string (list Pixel)
}.

(** [PositionStabilizer.__init__] *)
Definition new_stabilizer (size : positive) : Stabilizer :=
  mkStabilizer size ∅.

(** [deque(maxlen=n).append(x)]: once the deque is full the oldest
    entries are discarded from the left. *)
Definition deque_append (maxlen : nat) (q : list Pixel) (x : Pixel)
    : list Pixel :=
  let q' := q ++ [x] in
  drop (length q' - maxlen)%nat q'.

(** [np.median(values).astype(int)] of a non-empty list of integers: the
    middle element of the sorted values, or for an even count the mean of
    the two middle ones, which the cast truncates towards zero. *)
Definition median_int (values : list Z) : Z :=
  let s := sorted_by (fun v => v) values in
  let n := length s in
  if Nat.even n
  then Z.quot (nth (n / 2 - 1)%nat s 0 + nth (n / 2)%nat s 0) 2
  else nth (n / 2)%nat s 0.

(** [np.median(buffer, axis=0).astype(int)] *)
Definition median_position (buffer : list Pixel) : Pixel :=
  (median_int (List.map fst buffer), median_int (List.map snd buffer)).

(** [update]: the returned position and the stabilizer afterwards. *)
Definition update (obj_id : string) (position : Pixel) (st : Stabilizer)
    : Pixel * Stabilizer :=
  let old := default [] (position_buffers st !! obj_id) in
  let buffer := deque_append (Pos.to_nat (buffer_size st)) old position in
  let st' :=
    mkStabilizer (buffer_size st) (<[obj_id := buffer]> (position_buffers st)) in
  if (length buffer =? Pos.to_nat (buffer_size st))%nat
  then (median_position buffer, st')
  else (position, st').

(** [cleanup] *)
Definition cleanup (current_ids : list string) (st : Stabilizer) : Stabilizer :=
  mkStabilizer (buffer_size st)
    (filter (fun kv => fst kv ∈ current_ids) (position_buffers st)).

End ObjectTracker.

(** ** color_detection.py *)

Module ColorDetection.

Definition HSV : Type := Z * Z * Z.

(** A cell of the data frame read from the CSV file. *)
Inductive Cell : Type :=
  | CellStr (s : string)
  | CellNum (q : Q).

(** What [pd.read_csv] yields: the columns by header. *)
Definition DataFrame : Type := list (string * list Cell).

Fixpoint column (name : string) (df : DataFrame) : option (list Cell) :=
  match df with
  | [] => None
  | (h, cells) :: df' => if String.eqb h name then Some cells else column name df'
  end.

Record Detector : Type := mkDetector {
  color_names : list Cell;
  R : list Cell;
  G : list Cell;
  B : list Cell;
  hsv_ranges : list (string * list (HSV * HSV))
}.

(** [setup_default_colors] *)
Definition setup_default_colors (d : Detector) : Detector :=
  mkDetector [CellStr "Red"; CellStr "Green"; CellStr "Blue"]
             [CellNum 255; CellNum 0; CellNum 0]
             [CellNum 0; CellNum 255; CellNum 0]
             [CellNum 0; CellNum 0; CellNum 255]
             (hsv_ranges d).

(** [load_color_dataset]: [csv] is the outcome of [pd.read_csv], [None]
    when it raises.  Every exception of the [try] block, a missing column
    included, ends in [setup_default_colors], which assigns all four
    attributes again. *)
Definition load_color_dataset (csv : option DataFrame) (d : Detector) : Detector :=
  match csv with
  | None => setup_default_colors d
  | Some df =>
      match column "Air Force Blue (Raf)" df, column "93" df,
            column "138" df, column "168" df with
      | Some names, Some r, Some g, Some b =>
          mkDetector names r g b (hsv_ranges d)
      | _, _, _, _ => setup_default_colors d
      end
  end.

(** [setup_hsv_ranges]: the dict, in insertion order. *)
Definition setup_hsv_ranges (d : Detector) : Detector :=
  mkDetector (color_names d) (R d) (G d) (B d)
    [ ("Red"%string,   [ ((0, 100, 100), (10, 255, 255));
                         ((160, 100, 100), (180, 255, 255)) ]);
      ("Green"%string, [ ((35, 50, 50), (90, 255, 255)) ]);
      ("Blue"%string,  [ ((95, 50, 50), (135, 255, 255)) ]) ].

(** [ColorDetector.__init__]; no attribute exists before it runs. *)
Definition new_detector (csv : option DataFrame) : Detector :=
  setup_hsv_ranges (load_color_dataset csv (mkDetector [] [] [] [] [])).

(** *** The contour filter of [find_contours]

    Areas are the doubles returned by [cv2.contourArea]: multiples of 1/2,
    exact, so they are rationals here.  [solidity > 0.7] is a comparison
    of doubles; for areas below 2^31 the rounded quotient exceeds the
    double nearest to 0.7 exactly when the exact quotient exceeds 7/10. *)

Definition Qlt_bool (a b : Q) : bool := negb (Qle_bool b a).

(** [float(area) / hull_area if hull_area > 0 else 0] *)
Definition solidity (cnt_area hull_area : Q) : Q :=
  if Qlt_bool 0 hull_area then (cnt_area / hull_area)%Q else 0%Q.

(** The two nested [if]s guarding [filtered_contours.append(cnt)]. *)
Definition contour_accepted (cnt_area hull_area min_area : Q) : bool :=
  if Qlt_bool min_area cnt_area
  then Qlt_bool (7 # 10) (solidity cnt_area hull_area)
  else false.

Section Cv2.
(** The OpenCV and numpy primitives the detector calls. *)
Context {Frame HSVFrame Mask Contour : Type}.
Context (GaussianBlur : Frame -> Frame)
        (cvtColor_BGR2HSV : Frame -> HSVFrame)
        (frame_shape : Frame -> Z * Z)          (* height, width *)
        (zeros : HSVFrame -> Mask)
        (inRange : HSVFrame -> HSV -> HSV -> Mask)
        (bitwise_or : Mask -> Mask -> Mask)
        (morph_open morph_close dilate : Mask -> Mask)
        (findContours : Mask -> list Contour)
        (contourArea : Contour -> Q)
        (convexHull : Contour -> Contour)
        (boundingRect : Contour -> Z * Z * Z * Z).

(** [preprocess_frame] *)
Definition preprocess_frame (frame : Frame) : HSVFrame :=
  cvtColor_BGR2HSV (GaussianBlur frame).

(** [clean_mask] *)
Definition clean_mask (mask : Mask) : Mask :=
  dilate (morph_close (morph_open mask)).

Fixpoint ranges_of (color_name : string)
    (ranges : list (string * list (HSV * HSV))) : option (list (HSV * HSV)) :=
  match ranges with
  | [] => None
  | (c, r) :: rest => if String.eqb c color_name then Some r else ranges_of color_name rest
  end.

(** [create_color_mask] *)
Definition create_color_mask (d : Detector) (hsv_frame : HSVFrame)
    (color_name : string) : option Mask :=
  match ranges_of color_name (hsv_ranges d) with
  | None => None
  | Some ranges =>
      Some (clean_mask
              (fold_left
                 (fun mask lu => bitwise_or mask (inRange hsv_frame (fst lu) (snd lu)))
                 ranges (zeros hsv_frame)))
  end.

(** [find_contours] *)
Definition find_contours (mask : Mask) (min_area : Q) : list Contour :=
  List.filter
    (fun cnt => contour_accepted (contourArea cnt)
                  (contourArea (convexHull cnt)) min_area)
    (findContours mask).

(** One round of the loop of [process_contours].  [int(a / b)] truncates
    the quotient towards zero. *)
Definition contour_object (cnt : Contour) (color_name : string)
    (height width : Z) : result DetectedObject :=
  let '(x, y, w, h) := boundingRect cnt in
  let center_x := x + w / 2 in
  let center_y := y + h / 2 in
  if width =? 0 then Raise (ZeroDivisionError "division by zero")
  else if height =? 0 then Raise (ZeroDivisionError "division by zero")
  else
    Ok {| pixel_pos := (center_x, center_y);
          robot_pos := (Z.quot (center_x * 600) width,
                        Z.quot (center_y * 400) height, 20);
          size_wh := (w, h);
          area := contourArea cnt;
          color := color_name;
          bbox := (x, y, w, h);
          ident := color_name +:+ "_" +:+ pretty center_x
                     +:+ "_" +:+ pretty center_y |}.

(** [process_contours] *)
Fixpoint process_contours (contours : list Contour) (color_name : string)
    (shape : Z * Z) : result (list DetectedObject) :=
  match contours with
  | [] => Ok []
  | cnt :: rest =>
      let! obj := contour_object cnt color_name (fst shape) (snd shape) in
      let! objs := process_contours rest color_name shape in
      Ok (obj :: objs)
  end.

(** The [for color_name in self.hsv_ranges.keys()] loop of
    [detect_objects], over the keys still to visit. *)
Fixpoint detect_colors (d : Detector) (frame : Frame) (hsv_frame : HSVFrame)
    (min_area : Q) (keys : list string) (detected : list DetectedObject)
    : result (list DetectedObject) :=
  match keys with
  | [] => Ok detected
  | color_name :: keys' =>
      match create_color_mask d hsv_frame color_name with
      | Some mask =>
          let contours := find_contours mask min_area in
          let! objects := process_contours contours color_name (frame_shape frame) in
          detect_colors d frame hsv_frame min_area keys' (detected ++ objects)
      | None => detect_colors d frame hsv_frame min_area keys' detected
      end
  end.

(** [detect_objects] *)
Definition detect_objects (d : Detector) (frame : Frame) (min_area : Q)
    : result (list DetectedObject) :=
  let hsv_frame := preprocess_frame frame in
  detect_colors d frame hsv_frame min_area (List.map fst (hsv_ranges d)) [].
End Cv2.

End ColorDetection.

(** ** main.py *)

Module Main.
Import RobotArm ObjectTracker.

(** The component calls made by [run] and [process_frame], recorded in
    call order in the ghost field [call_log]. *)
Inductive Call : Type :=
  | CallDetectObjects
  | CallStabilizerUpdate (obj_id : string)
  | CallStabilizerCleanup
  | CallUpdateMission
  | CallClearSelection
  | CallUpdateSelection
  | CallHandleKeyboard (key : Z).

(** [RobotArmSortingSystem]: the three stateful components.  The camera,
    the window and the fps counter are input and output only. *)
Record System : Type := mkSystem {
  robot_sim           : Sim;
  object_selector     : Selector;
  position_stabilizer : Stabilizer;
  call_log            : list Call
}.

(** [RobotArmSortingSystem.__init__] *)
Definition init : System :=
  mkSystem RobotArm.init (new_selector 40) (new_stabilizer 5) [].

Definition set_sim (r : Sim) (st : System) : System :=
  mkSystem r (object_selector st) (position_stabilizer st) (call_log st).
Definition set_selector (o : Selector) (st : System) : System :=
  mkSystem (robot_sim st) o (position_stabilizer st) (call_log st).
Definition set_stabilizer (p : Stabilizer) (st : System) : System :=
  mkSystem (robot_sim st) (object_selector st) p (call_log st).
Definition log (c : Call) (st : System) : System :=
  mkSystem (robot_sim st) (object_selector st) (position_stabilizer st)
           (call_log st ++ [c]).

Definition set_pixel_pos (p : Pixel) (obj : DetectedObject) : DetectedObject :=
  mkObject p (robot_pos obj) (size_wh obj) (area obj) (color obj)
           (bbox obj) (ident obj).

(** The stabilizing loop of [process_frame]: the objects with their
    positions replaced, [current_ids], and the system afterwards. *)
Fixpoint stabilize (detected_objects : list DetectedObject) (st : System)
    : list DetectedObject * list string * System :=
  match detected_objects with
  | [] => ([], [], st)
  | obj :: rest =>
      let st1 := log (CallStabilizerUpdate (ident obj)) st in
      let '(stable_pos, stab) :=
        update (ident obj) (pixel_pos obj) (position_stabilizer st1) in
      let '(objs, ids, st2) := stabilize rest (set_stabilizer stab st1) in
      (set_pixel_pos stable_pos obj :: objs, ident obj :: ids, st2)
  end.

(** [process_frame]; [detected] is what
    [self.color_detector.detect_objects(frame)] returns. *)
Definition process_frame (detected : list DetectedObject) (st : System)
    : list DetectedObject * System :=
  let st0 := log CallDetectObjects st in
  let '(detected_objects, current_ids, st1) := stabilize detected st0 in
  let st2 := log CallStabilizerCleanup st1 in
  (detected_objects,
   set_stabilizer (cleanup current_ids (position_stabilizer st2)) st2).

(** [ord] *)
Definition ord (c : ascii) : Z := Z.of_nat (nat_of_ascii c).

(** [color_map[chr(key)]] for a key among r, g, b. *)
Definition color_map (key : Z) : string :=
  if key =? ord "r" then "Red"
  else if key =? ord "g" then "Green"
  else "Blue".

(** [handle_keyboard_input]: the returned flag and the system
    afterwards; [now] is the clock reading of a mission start. *)
Definition handle_keyboard_input (now : Q) (key : Z)
    (objects : list DetectedObject) (st : System) : result (bool * System) :=
  let sel := object_selector st in
  let moving := is_moving (robot_sim st) in
  if key =? ord "q" then Ok (false, st)
  else if key =? ord "c" then
    Ok (true, set_selector (clear_selection sel) st)
  else if key =? ord "+" then
    Ok (true, set_selector
                (set_tolerance (Z.min 100 (tolerance_radius sel + 5)) sel) st)
  else if key =? ord "-" then
    Ok (true, set_selector
                (set_tolerance (Z.max 10 (tolerance_radius sel - 5)) sel) st)
  else if (key =? ord " ") && negb moving then
    match selected_object sel with
    | Some obj =>
        let! sim := start_mission now (robot_pos obj) (color obj) (robot_sim st) in
        Ok (true, set_selector (clear_selection sel) (set_sim sim st))
    | None => Ok (true, st)
    end
  else if (key =? ord "f") && negb moving then
    let! sim := start_all_objects_batch now objects (robot_sim st) in
    Ok (true, set_selector (clear_selection sel) (set_sim sim st))
  else if ((key =? ord "r") || (key =? ord "g") || (key =? ord "b"))
          && negb moving then
    let! sim := start_color_batch_pick now objects (color_map key) (robot_sim st) in
    Ok (true, set_selector (clear_selection sel) (set_sim sim st))
  else if ((ord "1" <=? key) && (key <=? ord "6")) && negb moving then
    let obj_index := key - ord "0" - 1 in
    match nth_error objects (Z.to_nat obj_index) with
    | Some obj => Ok (true, set_selector (select_object obj sel) st)
    | None => Ok (true, st)
    end
  else Ok (true, st).

(** What one pass of the [while] loop reads from outside: the grabbed
    frame, given by its detections ([None] when [cap.read()] fails), the
    key, and the clock readings of the calls of [time.time()]. *)
Record Input : Type := mkInput {
  frame          : option (list DetectedObject);
  key_pressed    : Z;
  time_completed : Q;
  time_next      : Q;
  time_started   : Q
}.

(** The selection step of [run], after [update_mission]. *)
Definition selection_phase (objects : list DetectedObject) (st : System)
    : System :=
  if is_moving (robot_sim st)
  then set_selector (clear_selection (object_selector st))
         (log CallClearSelection st)
  else set_selector (snd (update_selection objects (object_selector st)))
         (log CallUpdateSelection st).

(** One pass of the [while True] loop of [run]; the flag tells whether
    the loop goes on.  Drawing reads the state and changes none of it. *)
Definition run_iteration (inp : Input) (st : System) : result (bool * System) :=
  match frame inp with
  | None => Ok (false, st)
  | Some detected =>
      let '(objects, st1) := process_frame detected st in
      let st2 := log CallUpdateMission st1 in
      let! sim := update_mission (time_completed inp) (time_next inp)
                    (robot_sim st2) in
      let st3 := selection_phase objects (set_sim sim st2) in
      handle_keyboard_input (time_started inp) (key_pressed inp) objects
        (log (CallHandleKeyboard (key_pressed inp)) st3)
  end.

(** [run], on the inputs of the successive passes. *)
Fixpoint run (inputs : list Input) (st : System) : result System :=
  match inputs with
  | [] => Ok st
  | inp :: rest =>
      let! r := run_iteration inp st in
      if fst r then run rest (snd r) else Ok (snd r)
  end.

(** The four core phases of a pass. *)
Inductive Phase : Type :=
  | Segmentation | Stabilization | SelectionUpdate | MissionAdvance.

Definition phase_of (c : Call) : option Phase :=
  match c with
  | CallDetectObjects => Some Segmentation
  | CallStabilizerUpdate _ => Some Stabilization
  | CallStabilizerCleanup => Some Stabilization
  | CallUpdateMission => Some MissionAdvance
  | CallClearSelection => Some SelectionUpdate
  | CallUpdateSelection => Some SelectionUpdate
  | CallHandleKeyboard _ => None
  end.

(** The phases of a call log, in call order. *)
Definition phases (calls : list Call) : list Phase :=
  omap phase_of calls.

(** A list of phases respects a ranking when the ranks never decrease. *)
Fixpoint in_order (rank : Phase -> nat) (l : list Phase) : bool :=
  match l with
  | [] => true
  | p :: l' =>
      forallb (fun p' => (rank p <=? rank p')%nat) l' && in_order rank l'
  end.

(** The order of the specification: segmentation, stabilization,
    selection update, mission advance. *)
Definition spec_rank (p : Phase) : nat :=
  match p with
  | Segmentation => 0 | Stabilization => 1
  | SelectionUpdate => 2 | MissionAdvance => 3
  end%nat.

(** The order of [run]: segmentation, stabilization, mission advance,
    selection update. *)
Definition run_rank (p : Phase) : nat :=
  match p with
  | Segmentation => 0 | Stabilization => 1
  | MissionAdvance => 2 | SelectionUpdate => 3
  end%nat.

(** The states at the end of a pass of the loop. *)
Inductive reachable : System -> Prop :=
  | reachable_init : reachable init
  | reachable_pass st inp continue st' :
      reachable st ->
      run_iteration inp st = Ok (continue, st') ->
      reachable st'.

End Main.

(** * Vocabulary of the statements *)

Section Vocabulary.
Import RobotArm.

(** The nine-step plan for an object at [(x, y, z)] dropped at
    [(dx, dy, dz)], with the arm's home at [home]. *)
Definition nine_steps (p d home : Position) : list Step :=
  let '(x, y, z) := p in
  let '(dx, dy, dz) := d in
  [ Move (x, y, z + 50) "Approach object";
    Move (x, y, z) "Lower to object";
    Gripper "close" "Pick up object";
    Move (x, y, z + 80) "Lift object";
    Move (dx, dy, z + 80) "Move above drop zone";
    Move (dx, dy, dz) "Lower to drop height";
    Gripper "open" "Release object";
    Move (dx, dy, dz + 80) "Lift from drop zone";
    Move home "Return to home" ].

(** The state [start_mission] builds from an idle controller. *)
Definition started (now : Q) (p d : Position) (c : string) (s : Sim) : Sim :=
  mkSim (current_position s) (gripper_state s) true
        (Some (mkMission p c now)) 0 (nine_steps p d (current_position s))
        (batch_mode s) (batch_queue s) (pick_history s) (metrics s).

(** The counters agree with the history, which records successes only. *)
Definition picks_consistent (s : Sim) : Prop :=
  total_picks (metrics s) = Z.of_nat (length (pick_history s)) /\
  successful_picks (metrics s) = Z.of_nat (length (pick_history s)) /\
  failed_picks (metrics s) = 0 /\
  Forall (fun e => success e = true) (pick_history s).

(** From [s] to [s'] no counter went down and the history only grew at
    its end: the entries of [s] are still there, unchanged. *)
Definition never_shrinks (s s' : Sim) : Prop :=
  total_picks (metrics s) <= total_picks (metrics s') /\
  successful_picks (metrics s) <= successful_picks (metrics s') /\
  failed_picks (metrics s) <= failed_picks (metrics s') /\
  average_pick_time (metrics s) <= average_pick_time (metrics s') /\
  batch_completions (metrics s) <= batch_completions (metrics s') /\
  exists added, pick_history s' = pick_history s ++ added.

(** What a call does to the history and the metrics: nothing, or one
    successful pick. *)
Definition picks_step (s s' : Sim) : Prop :=
  (pick_history s' = pick_history s /\ metrics s' = metrics s) \/
  (exists e, success e = true /\
     pick_history s' = pick_history s ++ [e] /\
     (metrics s' = incr_picks (metrics s) \/
      metrics s' = incr_batch (incr_picks (metrics s)))).

(** The sort key of [start_all_objects_batch]. *)
Definition by_priority (o : DetectedObject) : Z := color_priority (color o).

(** Colour and position: of a queued object, and of a history entry. *)
Definition object_key (o : DetectedObject) : string * Position :=
  (color o, robot_pos o).
Definition entry_key (e : PickRecord) : string * Position :=
  (pick_color e, pick_position e).

(** The picks still to be completed: the current mission, then the
    batch queue in order. *)
Definition pending (s : Sim) : list (string * Position) :=
  match current_mission s with
  | Some m => (object_color m, object_pos m) :: List.map object_key (batch_queue s)
  | None => []
  end.

(** A mission has just started: moving, progress 0, and the colour of the
    current mission and of every queued object has a drop zone. *)
Definition mission_fresh (s : Sim) : Prop :=
  is_moving s = true /\ mission_progress s = 0 /\
  (exists m, current_mission s = Some m /\
             is_Some (drop_locations !! object_color m)) /\
  Forall (fun o => is_Some (drop_locations !! color o)) (batch_queue s).

End Vocabulary.

Section TrackerVocabulary.
Import ObjectTracker.

(** Successive calls of [update] for one identity: the returned
    positions, in call order, and the stabilizer afterwards. *)
Fixpoint feed (obj_id : string) (positions : list Pixel) (st : Stabilizer)
    : list Pixel * Stabilizer :=
  match positions with
  | [] => ([], st)
  | p :: ps =>
      let '(r, st1) := update obj_id p st in
      let '(rs, st2) := feed obj_id ps st1 in
      (r :: rs, st2)
  end.

(** The last five of the positions fed so far. *)
Definition window (fed : list Pixel) : list Pixel :=
  drop (length fed - 5)%nat fed.

(** The buffer an identity has in a stabilizer, empty when it has none. *)
Definition buffer_of (obj_id : string) (st : Stabilizer) : list Pixel :=
  default [] (position_buffers st !! obj_id).

(** An object as [process_contours] builds it for a 40 by 40 box centred
    at pixel [(px, py)] of a 640 by 480 frame. *)
Definition sample_object (c : string) (px py : Z) : DetectedObject :=
  {| pixel_pos := (px, py);
     robot_pos := (Z.quot (px * 600) 640, Z.quot (py * 400) 480, 20);
     size_wh := (40, 40);
     area := 1600;
     color := c;
     bbox := (px - 20, py - 20, 40, 40);
     ident := c +:+ "_" +:+ pretty px +:+ "_" +:+ pretty py |}.

End TrackerVocabulary.

Section LoopVocabulary.
Import RobotArm ObjectTracker Main.

(** At the end of a pass, a moving robot means no selection. *)
Definition moving_unselected (st : System) : Prop :=
  is_moving (robot_sim st) = true ->
  selected_object (object_selector st) = None /\
  selection_id (object_selector st) = None.

(** The calls logged between the states [st] and [st']. *)
Definition pass_calls (st st' : System) : list Call :=
  drop (length (call_log st)) (call_log st').

(** The order of phases as the specification words it: in every pass
    that returns, the phases follow [spec_rank]. *)
Definition spec_phase_order : Prop :=
  forall (st : System) (inp : Input) (continue : bool) (st' : System),
    run_iteration inp st = Ok (continue, st') ->
    in_order spec_rank (phases (pass_calls st st')) = true.

(** A pass over a frame with one red detection and no key pressed
    ([waitKey] gives 255), and two passes that select the detection with
    the key 1 and start its mission with the space bar. *)
Definition quiet_pass : Input :=
  mkInput (Some [sample_object "Red" 100 300]) 255 1 2 3.
Definition select_pass : Input :=
  mkInput (Some [sample_object "Red" 100 300]) (ord "1") 1 2 3.
Definition pick_pass : Input :=
  mkInput (Some [sample_object "Red" 100 300]) (ord " ") 4 5 6.

(** Passes over an empty frame with the plus key and the minus key. *)
Definition plus_pass : Input := mkInput (Some []) (ord "+") 1 2 3.
Definition minus_pass : Input := mkInput (Some []) (ord "-") 1 2 3.

End LoopVocabulary.

Section ControllerShape.
Import RobotArm.

(** The arm's home, where [__init__] puts [current_position]. *)
Definition home : Position := (300, 200, 100).

(** The shape every reached controller has.  Moving: there is a current
    mission, its colour has a drop zone and the steps are its nine-step
    plan.  Idle: no mission, an empty queue, no batch.  Always: an even
    progress from 0 to 98, and a queue only in batch mode. *)
Definition controller_shape (s : Sim) : Prop :=
  current_position s = home /\
  0 <= mission_progress s < 100 /\
  Z.even (mission_progress s) = true /\
  (batch_queue s <> [] -> batch_mode s = true) /\
  if is_moving s
  then exists m d, current_mission s = Some m /\
         drop_locations !! object_color m = Some d /\
         mission_steps s = nine_steps (object_pos m) d home
  else current_mission s = None /\ batch_queue s = [] /\
       batch_mode s = false /\ mission_progress s = 0.

End ControllerShape.

Section DetectionVocabulary.
Import ObjectTracker Main.

(** The keys of [hsv_ranges], in order. *)
Definition detector_colors : list string := ["Red"; "Green"; "Blue"]%string.

(** The format of the key 'id': [f"{color_name}_{center_x}_{center_y}"]. *)
Definition object_id (c : string) (p : Pixel) : string :=
  c +:+ "_" +:+ pretty (fst p) +:+ "_" +:+ pretty (snd p).

(** What [process_contours] gives every object, whatever the contour: a
    colour of the detector, the identity spelled from the colour and the
    centre, the centre of the bounding box as pixel position, the size of
    the box, and the height 20. *)
Definition from_detector (obj : DetectedObject) : Prop :=
  color obj ∈ detector_colors /\
  ident obj = object_id (color obj) (pixel_pos obj) /\
  (let '(x, y, w, h) := bbox obj in
   pixel_pos obj = (x + w / 2, y + h / 2) /\ size_wh obj = (w, h)) /\
  snd (robot_pos obj) = 20.

(** A bounding box that lies inside a frame of the given shape. *)
Definition box_inside (box : Z * Z * Z * Z) (shape : Z * Z) : Prop :=
  let '(x, y, w, h) := box in
  let '(height, width) := shape in
  0 <= x /\ 0 <= y /\ 1 <= w /\ 1 <= h /\ x + w <= width /\ y + h <= height.

(** A position inside the robot workspace of 600 by 400. *)
Definition in_workspace (p : Position) : Prop :=
  let '(x, y, z) := p in 0 <= x < 600 /\ 0 <= y < 400 /\ z = 20.

(** A string without the separator of identities. *)
Fixpoint no_underscore (s : string) : Prop :=
  match s with
  | EmptyString => True
  | String c s' => c <> "_"%char /\ no_underscore s'
  end.

(** Every buffer kept under the identity of a colour and a position
    holds that position only. *)
Definition buffers_agree (st : Stabilizer) : Prop :=
  forall (c : string) (p : Pixel) (buffer : list Pixel),
    c ∈ detector_colors ->
    position_buffers st !! object_id c p = Some buffer ->
    Forall (fun q => q = p) buffer.

(** A buffer with at least one entry and at most [n]. *)
Definition buffer_filled (n : positive) (buffer : list Pixel) : Prop :=
  (1 <= length buffer <= Pos.to_nat n)%nat.

(** The objects [process_frame] returns for successive frames. *)
Fixpoint process_frames (frames : list (list DetectedObject)) (st : System)
    : list (list DetectedObject) :=
  match frames with
  | [] => []
  | detected :: rest =>
      let '(objects, st') := process_frame detected st in
      objects :: process_frames rest st'
  end.

(** A stand-in for the OpenCV primitives, to run the detector on: a
    frame is its shape, a mask the list of the boxes in it, a contour its
    box.  The red hue range from 0 finds one 40 by 40 box at (80, 280) and
    the blue range one at (480, 80); areas are those of the boxes. *)
Definition toy_inRange (hsv : unit) (lower upper : ColorDetection.HSV)
    : list (Z * Z * Z * Z) :=
  let '(h, _, _) := lower in
  if h =? 0 then [(80, 280, 40, 40)]
  else if h =? 95 then [(480, 80, 40, 40)]
  else [].

Definition toy_area (box : Z * Z * Z * Z) : Q :=
  let '(_, _, w, h) := box in inject_Z (w * h).

Definition toy_detect (csv : option ColorDetection.DataFrame)
    (shape : Z * Z) (min_area : Q) : result (list DetectedObject) :=
  ColorDetection.detect_objects
    (fun f : Z * Z => f) (fun _ : Z * Z => tt) (fun f : Z * Z => f)
    (fun _ : unit => []) toy_inRange (fun a b => a ++ b)
    (fun m => m) (fun m => m) (fun m => m) (fun m => m)
    toy_area (fun c => c) (fun c => c)
    (ColorDetection.new_detector csv) shape min_area.

End DetectionVocabulary.

Section BatchVocabulary.
Import RobotArm.

(** A mission has just begun: moving, progress 0, and the colour of the
    current mission has a drop zone.  Nothing is said of the queue. *)
Definition mission_begun (s : Sim) : Prop :=
  is_moving s = true /\ mission_progress s = 0 /\
  exists m, current_mission s = Some m /\
            is_Some (drop_locations !! object_color m).

End BatchVocabulary.

Section SafetyVocabulary.
Import RobotArm ObjectTracker Main.

(** Objects whose colours are all among those of the detector. *)
Definition known_colors (objs : list DetectedObject) : Prop :=
  Forall (fun o => color o ∈ detector_colors) objs.

(** A pass whose frame, when one is grabbed, shows such objects only. *)
Definition known_frame (inp : Input) : Prop :=
  match frame inp with
  | Some detected => known_colors detected
  | None => True
  end.

(** What the loop keeps from pass to pass on such frames: the shape of
    the controller, and a colour of the detector for every queued object
    and for the selected one. *)
Definition loop_safe (st : System) : Prop :=
  controller_shape (robot_sim st) /\
  known_colors (batch_queue (robot_sim st)) /\
  forall o, selected_object (object_selector st) = Some o ->
            color o ∈ detector_colors.

(** A pass that grabs a frame of such objects and whose key is not the
    quit key. *)
Definition working_pass (inp : Input) : Prop :=
  known_frame inp /\ is_Some (frame inp) /\ key_pressed inp <> ord "q".

(** A detection within the tolerance radius of the selected object. *)
Definition near_selected (sel : Selector) (selected o : DetectedObject)
    : Prop :=
  within_tolerance (tolerance_radius sel)
    (dist2 (pixel_pos selected) (pixel_pos o)) = true.

(** A pass over the empty frame with the space bar. *)
Definition blind_pick_pass : Input := mkInput (Some []) (ord " ") 4 5 6.

End SafetyVocabulary.

(** * Properties *)

(** ** The mission controller *)

Section Controller.
Import RobotArm.

Lemma set_progress_same (s : Sim) : set_progress (mission_progress s) s = s.
Proof. destruct s; reflexivity. Qed.

Lemma set_progress_twice (a b : Z) (s : Sim) :
  set_progress a (set_progress b s) = set_progress a s.
Proof. reflexivity. Qed.

Lemma drop_of_known (c : string) :
  c ∈ ["Red"; "Green"; "Blue"]%string ->
  exists d, drop_locations !! c = Some d /\ drop_of c = Ok d.
Proof.
  intros Hc. unfold drop_of.
  repeat (apply elem_of_cons in Hc as [-> | Hc]); [..| inversion Hc];
    eexists; split; vm_compute; reflexivity.
Qed.

(** Below 100 a tick only adds 2 to the progress. *)
Lemma update_mission_below (now now' : Q) (s : Sim) :
  is_moving s = true -> is_Some (current_mission s) ->
  mission_progress s + 2 < 100 ->
  update_mission now now' s = Ok (set_progress (mission_progress s + 2) s).
Proof.
  intros Hm Hc Hlt. unfold update_mission.
  rewrite Hm, bool_decide_eq_true_2 by assumption. simpl.
  destruct (Z.leb_spec 100 (mission_progress s + 2)); [lia | reflexivity].
Qed.

Lemma ticks_below (clock : list (Q * Q)) : forall s : Sim,
  is_moving s = true -> is_Some (current_mission s) ->
  mission_progress s + 2 * Z.of_nat (length clock) < 100 ->
  ticks clock s
  = Ok (set_progress (mission_progress s + 2 * Z.of_nat (length clock)) s).
Proof.
  induction clock as [| [now now'] clock IH]; intros s Hm Hc Hlt.
  - simpl. rewrite Z.add_0_r, set_progress_same. reflexivity.
  - cbn [ticks]. rewrite update_mission_below by (simpl length in Hlt; lia || assumption).
    cbn [bind]. rewrite IH.
    + f_equal. rewrite set_progress_twice. f_equal.
      simpl mission_progress. simpl length. lia.
    + exact Hm.
    + exact Hc.
    + simpl mission_progress. simpl length in Hlt. lia.
Qed.

Lemma ticks_app (c1 c2 : list (Q * Q)) : forall s : Sim,
  ticks (c1 ++ c2) s = bind (ticks c1 s) (ticks c2).
Proof.
  induction c1 as [| [now now'] c1 IH]; intros s; [reflexivity |].
  simpl. destruct (update_mission now now' s); simpl; [apply IH | reflexivity].
Qed.

End Controller.

Section Missions.
Import RobotArm.

Lemma calculate_pick_mission_known (s : Sim) (p d : Position) (c : string) :
  drop_of c = Ok d ->
  calculate_pick_mission s p c = Ok (nine_steps p d (current_position s)).
Proof.
  intros Hd. unfold calculate_pick_mission, nine_steps.
  destruct p as [[x y] z]. rewrite Hd. simpl.
  destruct d as [[dx dy] dz]. reflexivity.
Qed.

Lemma start_mission_idle (now : Q) (p d : Position) (c : string) (s : Sim) :
  is_moving s = false -> drop_of c = Ok d ->
  start_mission now p c s = Ok (started now p d c s).
Proof.
  intros Hi Hd. unfold start_mission. rewrite Hi. simpl.
  rewrite (calculate_pick_mission_known _ p d c Hd). reflexivity.
Qed.

(** The tick that takes the progress to 100 completes the mission. *)
Lemma update_mission_completes (now now' : Q) (s : Sim) :
  is_moving s = true -> is_Some (current_mission s) ->
  mission_progress s = 98 ->
  update_mission now now' s = complete_mission now now' (set_progress 100 s).
Proof.
  intros Hm Hc Hp. unfold update_mission.
  rewrite Hm, bool_decide_eq_true_2, Hp by assumption. reflexivity.
Qed.

(** What a returning [complete_mission] has done. *)
Lemma complete_mission_ok (now now' : Q) (s s' : Sim) :
  complete_mission now now' s = Ok s' ->
  exists (m : Mission) (d : Position),
    current_mission s = Some m /\ drop_of (object_color m) = Ok d /\
    pick_history s'
    = pick_history s ++ [mkPick (object_color m) (object_pos m) now d true] /\
    metrics s'
    = (if batch_mode s && bool_decide (batch_queue s = [])
       then incr_batch (incr_picks (metrics s))
       else incr_picks (metrics s)) /\
    mission_progress s' = 0 /\
    current_position s' = current_position s /\
    batch_queue s' = tail (batch_queue s) /\
    match batch_queue s with
    | [] =>
        is_moving s' = false /\ current_mission s' = None /\
        batch_mode s' = false /\ mission_steps s' = mission_steps s
    | o :: _ =>
        is_moving s' = is_moving s /\ batch_mode s' = batch_mode s /\
        current_mission s' = Some (mkMission (robot_pos o) (color o) now') /\
        exists d', drop_of (color o) = Ok d' /\
          mission_steps s'
          = nine_steps (robot_pos o) d' (current_position s)
    end.
Proof.
  destruct s as [pos grip mov cur prog steps bm q hist met].
  unfold complete_mission. simpl.
  destruct cur as [m |]; [| discriminate].
  destruct (drop_of (object_color m)) as [d |] eqn:Hd; [| discriminate].
  simpl. destruct q as [| o q].
  - intros [= <-]. exists m, d.
    destruct bm; simpl; repeat split; first [exact Hd | reflexivity].
  - unfold start_next_mission. simpl.
    destruct (drop_of (color o)) as [d' |] eqn:Hd'.
    + erewrite calculate_pick_mission_known by eassumption. simpl.
      intros [= <-]. exists m, d. simpl. rewrite andb_false_r.
      repeat split; try reflexivity; try exact Hd.
      exists d'. split; reflexivity.
    + unfold calculate_pick_mission. destruct (robot_pos o) as [[? ?] ?].
      rewrite Hd'. discriminate.
Qed.

(** With a current mission whose colour has a drop zone and a queue that
    is empty, [complete_mission] returns. *)
Lemma complete_mission_returns (now now' : Q) (s : Sim) (m : Mission) :
  current_mission s = Some m ->
  is_Some (drop_locations !! object_color m) ->
  batch_queue s = [] ->
  exists s', complete_mission now now' s = Ok s'.
Proof.
  intros Hc [d Hd] Hq. unfold complete_mission. simpl. rewrite Hc.
  unfold drop_of. rewrite Hd. simpl. rewrite Hq. eexists. reflexivity.
Qed.

End Missions.

(** C1. From an idle controller, [start_mission] for a colour with a drop
    zone yields the executing state with the nine-step plan, in the fixed
    order, and progress 0.  Fewer than 50 ticks only raise the progress by 2
    each; the 50th takes it to 100 and runs [complete_mission] once: any
    outcome that returns has exactly one more history entry, and with an
    empty batch queue the controller returns and is idle again. *)
Theorem C1_start_mission_then_fifty_ticks :
  forall (s : RobotArm.Sim) (p : Position) (c : string) (now : Q),
    RobotArm.is_moving s = false ->
    c ∈ ["Red"; "Green"; "Blue"]%string ->
    exists (d : Position) (s1 : RobotArm.Sim),
      RobotArm.drop_locations !! c = Some d /\
      RobotArm.start_mission now p c s = Ok s1 /\
      RobotArm.is_moving s1 = true /\
      RobotArm.current_mission s1 = Some (RobotArm.mkMission p c now) /\
      RobotArm.mission_progress s1 = 0 /\
      RobotArm.mission_steps s1 = nine_steps p d (RobotArm.current_position s) /\
      length (RobotArm.mission_steps s1) = 9%nat /\
      List.map RobotArm.description_of (RobotArm.mission_steps s1)
        = [ "Approach object"; "Lower to object"; "Pick up object";
            "Lift object"; "Move above drop zone"; "Lower to drop height";
            "Release object"; "Lift from drop zone"; "Return to home" ]%string /\
      (forall clock : list (Q * Q),
          (length clock < 50)%nat ->
          RobotArm.ticks clock s1
          = Ok (RobotArm.set_progress (2 * Z.of_nat (length clock)) s1)) /\
      (forall (clock : list (Q * Q)) (t t' : Q),
          length clock = 49%nat ->
          RobotArm.ticks (clock ++ [(t, t')]) s1
          = RobotArm.complete_mission t t' (RobotArm.set_progress 100 s1) /\
          (forall s50, RobotArm.ticks (clock ++ [(t, t')]) s1 = Ok s50 ->
             RobotArm.pick_history s50
             = RobotArm.pick_history s ++ [RobotArm.mkPick c p t d true]) /\
          (RobotArm.batch_queue s = [] ->
           exists s50,
             RobotArm.ticks (clock ++ [(t, t')]) s1 = Ok s50 /\
             RobotArm.is_moving s50 = false /\
             RobotArm.current_mission s50 = None /\
             RobotArm.mission_progress s50 = 0 /\
             RobotArm.batch_mode s50 = false /\
             RobotArm.batch_queue s50 = [] /\
             RobotArm.pick_history s50
             = RobotArm.pick_history s ++ [RobotArm.mkPick c p t d true])).
Proof.
  intros s p c now Hidle Hc.
  destruct (drop_of_known c Hc) as (d & Hlook & Hd).
  exists d, (started now p d c s).
  assert (Hsteps : length (nine_steps p d (RobotArm.current_position s)) = 9%nat)
    by (destruct p as [[? ?] ?], d as [[? ?] ?]; reflexivity).
  assert (Hbelow : forall clock : list (Q * Q),
             (length clock < 50)%nat ->
             RobotArm.ticks clock (started now p d c s)
             = Ok (RobotArm.set_progress (2 * Z.of_nat (length clock))
                     (started now p d c s))).
  { intros clock Hlen.
    rewrite ticks_below; simpl; eauto; lia. }
  repeat split; try assumption; try reflexivity.
  - apply start_mission_idle; assumption.
  - destruct p as [[? ?] ?], d as [[? ?] ?]; reflexivity.
  - rewrite ticks_app, Hbelow by lia. cbn [bind RobotArm.ticks].
    rewrite update_mission_completes; simpl; eauto.
    + destruct (RobotArm.complete_mission _ _ _); reflexivity.
    + lia.
  - intros s50. rewrite ticks_app, Hbelow by lia. cbn [bind RobotArm.ticks].
    rewrite update_mission_completes by (simpl; eauto; lia).
    destruct (RobotArm.complete_mission _ _ _) as [s' |] eqn:Hcm; [| discriminate].
    intros [= <-].
    apply complete_mission_ok in Hcm as (m & d' & Hm & Hd' & Hh & _).
    simpl in Hm. injection Hm as <-. simpl in Hd'.
    rewrite Hd in Hd'. injection Hd' as <-. exact Hh.
  - intros Hq. rewrite ticks_app, Hbelow by lia. cbn [bind RobotArm.ticks].
    rewrite update_mission_completes by (simpl; eauto; lia).
    destruct (complete_mission_returns t t'
                (RobotArm.set_progress 100
                   (RobotArm.set_progress (2 * Z.of_nat (length clock))
                      (started now p d c s)))
                (RobotArm.mkMission p c now)) as [s50 Hs50];
      [reflexivity | simpl; eauto | exact Hq |].
    rewrite Hs50. exists s50. split; [destruct s50; reflexivity |].
    apply complete_mission_ok in Hs50
      as (m & d' & Hm & Hd' & Hh & _ & Hp & _ & Hqq & Hcase).
    simpl in Hm, Hd', Hh, Hqq, Hcase. injection Hm as <-. simpl in Hd'.
    rewrite Hd in Hd'. injection Hd' as <-.
    rewrite Hq in Hcase, Hqq. destruct Hcase as (? & ? & ? & _).
    repeat split; assumption.
Qed.

(** C1, at the initial controller and a red object. *)
Lemma C1_start_mission_then_fifty_ticks_witness :
  RobotArm.is_moving RobotArm.init = false /\
  exists s1 : RobotArm.Sim,
    RobotArm.start_mission 0 (150, 120, 20) "Red" RobotArm.init = Ok s1 /\
    length (RobotArm.mission_steps s1) = 9%nat /\
    RobotArm.ticks (repeat (0%Q, 0%Q) 7) s1 = Ok (RobotArm.set_progress 14 s1).
Proof.
  split; [reflexivity |].
  destruct (C1_start_mission_then_fifty_ticks RobotArm.init (150, 120, 20)
              "Red" 0%Q eq_refl (list_elem_of_here _ _))
    as (d & s1 & _ & Hstart & _ & _ & _ & _ & Hlen & _ & Hticks & _).
  exists s1. split; [exact Hstart |]. split; [exact Hlen |].
  apply (Hticks (repeat (0%Q, 0%Q) 7)). simpl. lia.
Defined.

(** C7. While a mission is executing, [start_mission] returns the
    controller it was given: mission, steps, progress, queue, batch flag,
    history and metrics are all as before. *)
Theorem C7_start_mission_noop_while_moving :
  forall (s : RobotArm.Sim) (now : Q) (p : Position) (c : string),
    RobotArm.is_moving s = true ->
    RobotArm.start_mission now p c s = Ok s.
Proof.
  intros s now p c Hm. unfold RobotArm.start_mission. rewrite Hm. reflexivity.
Qed.

(** C7, at a controller that is executing a red mission. *)
Lemma C7_start_mission_noop_while_moving_witness :
  let s := started 0 (150, 120, 20) (100, 350, 50) "Red" RobotArm.init in
  RobotArm.is_moving s = true /\
  RobotArm.start_mission 5 (40, 60, 20) "Blue" s = Ok s.
Proof.
  split; [reflexivity |].
  apply (C7_start_mission_noop_while_moving
           (started 0 (150, 120, 20) (100, 350, 50) "Red" RobotArm.init)
           5%Q (40, 60, 20) "Blue").
  reflexivity.
Defined.

(** ** History and metrics *)

Section History.
Import RobotArm.

Lemma start_mission_frame (now : Q) (p : Position) (c : string) (s s' : Sim) :
  start_mission now p c s = Ok s' ->
  pick_history s' = pick_history s /\ metrics s' = metrics s.
Proof.
  unfold start_mission. destruct (is_moving s); simpl.
  - intros [= <-]. split; reflexivity.
  - destruct (calculate_pick_mission _ p c); simpl; [| discriminate].
    intros [= <-]. split; reflexivity.
Qed.

Lemma start_batch_pick_frame (now : Q) (l : list DetectedObject) (s s' : Sim) :
  start_batch_pick now l s = Ok s' ->
  pick_history s' = pick_history s /\ metrics s' = metrics s.
Proof.
  unfold start_batch_pick. destruct l as [| o rest].
  - intros [= <-]. split; reflexivity.
  - destruct (is_moving s); simpl.
    + intros [= <-]. split; reflexivity.
    + intros H. apply start_mission_frame in H. exact H.
Qed.

Lemma complete_mission_picks (now now' : Q) (s s' : Sim) :
  complete_mission now now' s = Ok s' -> picks_step s s'.
Proof.
  intros H. apply complete_mission_ok in H as (m & d & _ & _ & Hh & Hm & _).
  right. eexists. split; [| split; [exact Hh |]]; [reflexivity |].
  rewrite Hm. destruct (batch_mode s && _); [right | left]; reflexivity.
Qed.

Lemma start_next_mission_frame (now : Q) (s s' : Sim) :
  start_next_mission now s = Ok s' ->
  pick_history s' = pick_history s /\ metrics s' = metrics s.
Proof.
  unfold start_next_mission. destruct (batch_queue s) as [| o q];
    [discriminate |].
  destruct (calculate_pick_mission _ _ _); simpl; [| discriminate].
  intros [= <-]. split; reflexivity.
Qed.

Lemma update_mission_picks (now now' : Q) (s s' : Sim) :
  update_mission now now' s = Ok s' -> picks_step s s'.
Proof.
  unfold update_mission.
  destruct (is_moving s && bool_decide (is_Some (current_mission s))).
  - destruct (100 <=? _).
    + intros H. apply complete_mission_picks in H. exact H.
    + intros [= <-]. left. split; reflexivity.
  - intros [= <-]. left. split; reflexivity.
Qed.

Lemma exec_picks (op : Op) (s s' : Sim) :
  exec op s = Ok s' -> picks_step s s'.
Proof.
  destruct op as [now p c | now l | now l c | now l | now now' | now now'
                 | now]; simpl;
    [| | | | | apply complete_mission_picks
     | intros H; left; eapply start_next_mission_frame, H].
  - intros H. left. eapply start_mission_frame, H.
  - intros H. left. eapply start_batch_pick_frame, H.
  - unfold start_color_batch_pick.
    destruct (List.filter _ l) as [| o rest].
    + intros [= <-]. left. split; reflexivity.
    + intros H. left. eapply start_batch_pick_frame, H.
  - unfold start_all_objects_batch. destruct l as [| o rest].
    + intros [= <-]. left. split; reflexivity.
    + intros H. left. eapply start_batch_pick_frame, H.
  - apply update_mission_picks.
Qed.

Lemma picks_step_never_shrinks (s s' : Sim) :
  picks_step s s' -> never_shrinks s s'.
Proof.
  unfold never_shrinks.
  intros [[Hh Hm] | (e & _ & Hh & [Hm | Hm])]; rewrite Hh, Hm; simpl.
  - repeat split; try lia. exists []. symmetry. apply app_nil_r.
  - repeat split; try lia. exists [e]. reflexivity.
  - repeat split; try lia. exists [e]. reflexivity.
Qed.

Lemma picks_step_consistent (s s' : Sim) :
  picks_consistent s -> picks_step s s' -> picks_consistent s'.
Proof.
  unfold picks_consistent.
  intros (Ht & Hs & Hf & Hall) [[Hh Hm] | (e & He & Hh & Hm)].
  - rewrite Hh, Hm. repeat split; assumption.
  - rewrite Hh, length_app, Forall_app. simpl length.
    destruct Hm as [-> | ->]; simpl;
      (repeat split; [lia | lia | assumption | assumption |]);
      constructor; [assumption | constructor | assumption | constructor].
Qed.

Lemma reachable_consistent (s : Sim) : reachable s -> picks_consistent s.
Proof.
  induction 1 as [| s op s' _ IH Hex].
  - repeat split; constructor.
  - eapply picks_step_consistent; [exact IH | eapply exec_picks, Hex].
Qed.

End History.

(** C10. In every controller state reached from the initial one,
    [total_picks] and [successful_picks] both equal the length of
    [pick_history], [failed_picks] is 0 and every history entry has
    [success = True]; and a call made there lowers no counter and leaves the
    entries already in the history in place, unchanged. *)
Theorem C10_picks_match_history :
  forall s : RobotArm.Sim,
    RobotArm.reachable s ->
    picks_consistent s /\
    forall (op : RobotArm.Op) (s' : RobotArm.Sim),
      RobotArm.exec op s = Ok s' -> never_shrinks s s'.
Proof.
  intros s Hr. split.
  - apply reachable_consistent, Hr.
  - intros op s' Hex. eapply picks_step_never_shrinks, exec_picks, Hex.
Qed.

(** C10, at the controller that has started and completed one red pick. *)
Lemma C10_picks_match_history_witness :
  exists s : RobotArm.Sim,
    RobotArm.ticks (repeat (1%Q, 2%Q) 50)
      (started 0 (150, 120, 20) (100, 350, 50) "Red" RobotArm.init) = Ok s /\
    RobotArm.reachable s /\
    length (RobotArm.pick_history s) = 1%nat /\
    picks_consistent s.
Proof.
  assert (Hreach : forall clock s s',
             RobotArm.reachable s -> RobotArm.ticks clock s = Ok s' ->
             RobotArm.reachable s').
  { induction clock as [| [t t'] clock IH]; intros s s' Hr; simpl.
    - intros [= <-]. exact Hr.
    - destruct (RobotArm.update_mission t t' s) as [s1 |] eqn:Hu; simpl;
        [| discriminate].
      apply IH.
      exact (RobotArm.reachable_exec s (RobotArm.OpUpdateMission t t') s1 Hr Hu). }
  eexists. split; [vm_compute; reflexivity |].
  match goal with
  | |- RobotArm.reachable ?s /\ _ =>
      assert (Hr : RobotArm.reachable s)
  end.
  { eapply (Hreach (repeat (1%Q, 2%Q) 50)
              (started 0 (150, 120, 20) (100, 350, 50) "Red" RobotArm.init)).
    - exact (RobotArm.reachable_exec RobotArm.init
               (RobotArm.OpStartMission 0 (150, 120, 20) "Red") _
               RobotArm.reachable_init eq_refl).
    - vm_compute. reflexivity. }
  split; [exact Hr |]. split; [reflexivity |].
  exact (proj1 (C10_picks_match_history _ Hr)).
Defined.

(** ** Stable sorting by a key *)

Section StableSortFacts.
Context {A : Type} (key : A -> Z).

Lemma insert_by_perm (x : A) (l : list A) :
  Permutation (insert_by key x l) (x :: l).
Proof.
  induction l as [| y l IH]; simpl; [reflexivity |].
  destruct (key x <=? key y); [reflexivity |].
  rewrite IH. apply perm_swap.
Qed.

Lemma sorted_by_perm (l : list A) : Permutation (sorted_by key l) l.
Proof.
  induction l as [| x l IH]; simpl; [reflexivity |].
  rewrite insert_by_perm, IH. reflexivity.
Qed.

Lemma insert_by_sorted (x : A) (l : list A) :
  StronglySorted (fun a b => key a <= key b) l ->
  StronglySorted (fun a b => key a <= key b) (insert_by key x l).
Proof.
  induction 1 as [| y l Hs IH Hall]; simpl.
  - constructor; constructor.
  - destruct (Z.leb_spec (key x) (key y)) as [Hle | Hgt].
    + constructor; [constructor; assumption |].
      constructor; [assumption |].
      eapply Forall_impl; [exact Hall |]. simpl. intros; lia.
    + constructor; [exact IH |].
      rewrite (insert_by_perm x l). constructor; [lia | exact Hall].
Qed.

Lemma sorted_by_sorted (l : list A) :
  StronglySorted (fun a b => key a <= key b) (sorted_by key l).
Proof.
  induction l as [| x l IH]; simpl; [constructor |].
  apply insert_by_sorted, IH.
Qed.

(** Stability: the elements of one key keep their order. *)
Lemma insert_by_stable (k : Z) (x : A) (l : list A) :
  List.filter (fun a => key a =? k) (insert_by key x l)
  = List.filter (fun a => key a =? k) (x :: l).
Proof.
  induction l as [| y l IH]; [reflexivity |].
  cbn [insert_by]. destruct (Z.leb_spec (key x) (key y)) as [Hle | Hgt];
    [reflexivity |].
  cbn [List.filter] in *. rewrite IH.
  destruct (Z.eqb_spec (key y) k), (Z.eqb_spec (key x) k);
    try reflexivity. lia.
Qed.

Lemma sorted_by_stable (k : Z) (l : list A) :
  List.filter (fun a => key a =? k) (sorted_by key l)
  = List.filter (fun a => key a =? k) l.
Proof.
  induction l as [| x l IH]; [reflexivity |].
  cbn [sorted_by]. rewrite insert_by_stable. cbn [List.filter].
  rewrite IH. reflexivity.
Qed.

(** The head of the sorted list is the first element of least key. *)
Lemma sorted_by_head (l : list A) : forall (x : A) (rest : list A),
  sorted_by key l = x :: rest ->
  exists l1 l2, l = l1 ++ x :: l2 /\
    Forall (fun y => key x < key y) l1 /\
    Forall (fun y => key x <= key y) l2.
Proof.
  induction l as [| a l IH]; intros x rest; [discriminate |].
  cbn [sorted_by]. destruct (sorted_by key l) as [| y r] eqn:Hs.
  - assert (l = []) as ->.
    { apply Permutation_nil. rewrite <- Hs. apply sorted_by_perm. }
    simpl. intros [= <- <-]. exists [], []. repeat split; constructor.
  - destruct (IH y r eq_refl) as (m1 & m2 & -> & H1 & H2).
    cbn [insert_by]. destruct (Z.leb_spec (key a) (key y)) as [Hle | Hgt].
    + intros [= <- <-]. exists [], (m1 ++ y :: m2).
      split; [reflexivity |]. split; [constructor |].
      rewrite Forall_app. split.
      * eapply Forall_impl; [exact H1 |]. simpl. intros; lia.
      * constructor; [exact Hle |].
        eapply Forall_impl; [exact H2 |]. simpl. intros; lia.
    + intros [= <- <-]. exists (a :: m1), m2.
      split; [reflexivity |]. split; [| exact H2].
      constructor; [lia | exact H1].
Qed.

Lemma sorted_by_nil (l : list A) : sorted_by key l = [] -> l = [].
Proof.
  intros H. apply Permutation_nil. rewrite <- H. apply sorted_by_perm.
Qed.

End StableSortFacts.

(** ** Batches *)

Section Batches.
Import RobotArm.

Lemma clock_last (clock : list (Q * Q)) (n : nat) :
  length clock = S n ->
  exists c t t', clock = c ++ [(t, t')] /\ length c = n.
Proof.
  intros Hlen. destruct (exists_last (l := clock)) as (c & [t t'] & ->).
  - intros ->. discriminate.
  - exists c, t, t'. split; [reflexivity |].
    rewrite length_app in Hlen. simpl in Hlen. lia.
Qed.

(** Fifty ticks of a fresh mission end in its completion. *)
Lemma fifty_ticks (clock : list (Q * Q)) (s : Sim) :
  mission_fresh s -> length clock = 50%nat ->
  exists t t', ticks clock s = complete_mission t t' (set_progress 100 s).
Proof.
  intros (Hm & Hp & (m & Hc & _) & _) Hlen.
  destruct (clock_last clock 49 Hlen) as (c & t & t' & -> & Hc49).
  exists t, t'. rewrite ticks_app.
  rewrite ticks_below by (rewrite ?Hc; eauto; lia).
  cbn [bind ticks]. rewrite update_mission_completes.
  - destruct (complete_mission _ _ _); reflexivity.
  - exact Hm.
  - simpl. rewrite Hc. eauto.
  - simpl. lia.
Qed.

Lemma complete_mission_fresh_returns (now now' : Q) (s : Sim) :
  mission_fresh s ->
  exists s', complete_mission now now' (set_progress 100 s) = Ok s'.
Proof.
  intros (_ & _ & (m & Hc & [d Hd]) & Hq).
  unfold complete_mission. simpl. rewrite Hc. unfold drop_of at 1.
  rewrite Hd. simpl. destruct (batch_queue s) as [| o q] eqn:Hbq.
  - eexists. reflexivity.
  - unfold start_next_mission. simpl. rewrite Hbq.
    apply Forall_cons in Hq as [[d' Hd'] _].
    erewrite calculate_pick_mission_known
      by (unfold drop_of; rewrite Hd'; reflexivity).
    simpl. eexists. reflexivity.
Qed.

(** A mission with a queue behind it: after 50 ticks its pick is in the
    history and the head of the queue is the new fresh mission. *)
Lemma mission_round (clock : list (Q * Q)) (s : Sim) (o : DetectedObject)
    (q : list DetectedObject) :
  mission_fresh s -> batch_queue s = o :: q -> length clock = 50%nat ->
  exists s', ticks clock s = Ok s' /\ mission_fresh s' /\
    batch_mode s' = batch_mode s /\
    batch_completions (metrics s') = batch_completions (metrics s) /\
    batch_queue s' = q /\
    (exists t, current_mission s'
               = Some (mkMission (robot_pos o) (color o) t)) /\
    List.map entry_key (pick_history s')
    = List.map entry_key (pick_history s) ++ firstn 1 (pending s).
Proof.
  intros Hf Hq Hlen.
  destruct (fifty_ticks clock s Hf Hlen) as (t & t' & ->).
  destruct (complete_mission_fresh_returns t t' s Hf) as [s' Hs'].
  rewrite Hs'. exists s'. split; [reflexivity |].
  apply complete_mission_ok in Hs'
    as (m & d & Hm & _ & Hh & Hmet & Hp & _ & Hqq & Hcase).
  destruct Hf as (Hmov & _ & _ & Hall).
  simpl in Hm, Hh, Hmet, Hqq, Hcase. rewrite Hq in Hmet, Hqq, Hcase, Hall.
  destruct Hcase as (Hmov' & Hbm & Hcur & _).
  apply Forall_cons in Hall as [Ho Hall].
  rewrite bool_decide_eq_false_2, andb_false_r in Hmet by discriminate.
  repeat split.
  - rewrite Hmov'. exact Hmov.
  - exact Hp.
  - eexists. split; [exact Hcur | exact Ho].
  - rewrite Hqq. exact Hall.
  - exact Hbm.
  - rewrite Hmet. reflexivity.
  - exact Hqq.
  - eexists. exact Hcur.
  - rewrite Hh, map_app. unfold pending. rewrite Hm. reflexivity.
Qed.

(** The last mission of a queue: after 50 ticks the controller is idle. *)
Lemma last_round (clock : list (Q * Q)) (s : Sim) :
  mission_fresh s -> batch_queue s = [] -> length clock = 50%nat ->
  exists s', ticks clock s = Ok s' /\
    is_moving s' = false /\ current_mission s' = None /\
    batch_mode s' = false /\ batch_queue s' = [] /\
    batch_completions (metrics s')
    = batch_completions (metrics s) + (if batch_mode s then 1 else 0) /\
    List.map entry_key (pick_history s')
    = List.map entry_key (pick_history s) ++ pending s.
Proof.
  intros Hf Hq Hlen.
  destruct (fifty_ticks clock s Hf Hlen) as (t & t' & ->).
  destruct (complete_mission_fresh_returns t t' s Hf) as [s' Hs'].
  rewrite Hs'. exists s'. split; [reflexivity |].
  apply complete_mission_ok in Hs'
    as (m & d & Hm & _ & Hh & Hmet & Hp & _ & Hqq & Hcase).
  simpl in Hm, Hh, Hmet, Hqq, Hcase. rewrite Hq in Hmet, Hqq, Hcase.
  destruct Hcase as (Hmov' & Hcur & Hbm & _).
  repeat split; try assumption.
  - rewrite Hmet. destruct (batch_mode s); simpl; lia.
  - rewrite Hh, map_app. unfold pending. rewrite Hm, Hq. reflexivity.
Qed.

Lemma pending_fresh (s : Sim) :
  mission_fresh s ->
  length (pending s) = S (length (batch_queue s)).
Proof.
  intros (_ & _ & (m & Hc & _) & _). unfold pending. rewrite Hc.
  simpl. rewrite length_map. reflexivity.
Qed.

(** First in, first out: after [k] missions of a batch, the first [k]
    pending picks are in the history, in order, and the others pend. *)
Lemma batch_prefix (k : nat) : forall (clock : list (Q * Q)) (s : Sim),
  mission_fresh s -> (k <= length (batch_queue s))%nat ->
  length clock = (50 * k)%nat ->
  exists s', ticks clock s = Ok s' /\ mission_fresh s' /\
    batch_mode s' = batch_mode s /\
    batch_completions (metrics s') = batch_completions (metrics s) /\
    List.map entry_key (pick_history s')
    = List.map entry_key (pick_history s) ++ firstn k (pending s) /\
    pending s' = skipn k (pending s).
Proof.
  induction k as [| k IH]; intros clock s Hf Hk Hlen.
  - destruct clock; [| discriminate]. exists s. simpl.
    rewrite app_nil_r. split; [reflexivity |]. split; [exact Hf |].
    repeat split; reflexivity.
  - destruct (batch_queue s) as [| o q] eqn:Hq; [simpl in Hk; lia |].
    rewrite <- (firstn_skipn 50 clock), ticks_app.
    destruct (mission_round (firstn 50 clock) s o q Hf Hq)
      as (s1 & -> & Hf1 & Hbm1 & Hbc1 & Hq1 & [t Hc1] & Hh1).
    { rewrite length_firstn. lia. }
    cbn [bind].
    destruct (IH (skipn 50 clock) s1 Hf1) as (s' & -> & Hf' & Hbm & Hbc & Hh & Hp).
    { rewrite Hq1. simpl in Hk. lia. }
    { rewrite length_skipn. lia. }
    assert (Hps : pending s1 = skipn 1 (pending s)).
    { destruct Hf as (_ & _ & (m & Hc & _) & _).
      unfold pending. rewrite Hc1, Hq1, Hc, Hq. reflexivity. }
    exists s'. split; [reflexivity |]. split; [exact Hf' |].
    split; [congruence |]. split; [congruence |].
    rewrite Hh, Hp, Hh1, Hps. destruct Hf as (_ & _ & (m & Hc & _) & _).
    unfold pending. rewrite Hc. simpl. rewrite <- app_assoc.
    split; reflexivity.
Qed.

End Batches.

Section BatchStart.
Import RobotArm.

Lemma color_priority_values :
  color_priority "Red" = 0 /\ color_priority "Green" = 1 /\
  color_priority "Blue" = 2 /\
  forall c : string, c ∉ ["Red"; "Green"; "Blue"]%string -> color_priority c = 3.
Proof.
  repeat split; try (vm_compute; reflexivity).
  intros c Hc. unfold color_priority, color_order.
  rewrite !lookup_insert_ne, lookup_empty; [reflexivity | | |];
    intros <-; apply Hc; set_solver.
Qed.

Lemma known_color_drop (c : string) :
  c ∈ ["Red"; "Green"; "Blue"]%string -> is_Some (drop_locations !! c).
Proof. intros Hc. destruct (drop_of_known c Hc) as (d & Hd & _). eauto. Qed.

(** From an idle controller, a batch of objects whose colours have drop
    zones starts the head of the list and queues the tail. *)
Lemma start_batch_pick_idle (now : Q) (o : DetectedObject)
    (rest : list DetectedObject) (s : Sim) :
  is_moving s = false ->
  Forall (fun x => is_Some (drop_locations !! color x)) (o :: rest) ->
  exists s1, start_batch_pick now (o :: rest) s = Ok s1 /\
    mission_fresh s1 /\ batch_mode s1 = true /\ batch_queue s1 = rest /\
    current_mission s1 = Some (mkMission (robot_pos o) (color o) now) /\
    pick_history s1 = pick_history s /\ metrics s1 = metrics s.
Proof.
  intros Hi Hall. apply Forall_cons in Hall as [[d Hd] Hall].
  unfold start_batch_pick. rewrite Hi. simpl.
  rewrite (start_mission_idle now (robot_pos o) d (color o))
    by (try reflexivity; unfold drop_of; rewrite ?Hd; done).
  eexists. split; [reflexivity |]. unfold mission_fresh. simpl.
  repeat split; try reflexivity; eauto.
Qed.

(** A colour without a drop zone cannot be picked: the lookup in
    [calculate_pick_mission] raises. *)
Lemma start_mission_unknown_color (now : Q) (p : Position) (c : string)
    (s : Sim) :
  is_moving s = false -> drop_locations !! c = None ->
  start_mission now p c s = Raise (KeyError c).
Proof.
  intros Hi Hc. unfold start_mission, calculate_pick_mission, drop_of.
  rewrite Hi. simpl. destruct p as [[x y] z]. rewrite Hc. reflexivity.
Qed.

End BatchStart.

(** C5. [start_all_objects_batch] orders the objects by the priority
    Red 0, Green 1, Blue 2, any other colour 3, keeping the input order
    within a priority.  From an idle controller and a non-empty list of
    objects with drop zones it starts the first of them and queues the
    rest; the queue is then consumed first in, first out, one object per
    completed mission; and when the last mission completes the controller
    is idle with [batch_completions] one higher and the batch flag off. *)
Theorem C5_batch_order_fifo :
  forall all_objects : list DetectedObject,
    let sorted_objects := sorted_by by_priority all_objects in
    (RobotArm.color_priority "Red" = 0 /\ RobotArm.color_priority "Green" = 1 /\
     RobotArm.color_priority "Blue" = 2 /\
     forall c : string,
       c ∉ ["Red"; "Green"; "Blue"]%string -> RobotArm.color_priority c = 3) /\
    Permutation sorted_objects all_objects /\
    StronglySorted (fun a b => by_priority a <= by_priority b) sorted_objects /\
    (forall k : Z,
        List.filter (fun o => by_priority o =? k) sorted_objects
        = List.filter (fun o => by_priority o =? k) all_objects) /\
    forall (s : RobotArm.Sim) (now : Q),
      RobotArm.is_moving s = false ->
      all_objects <> [] ->
      Forall (fun o => color o ∈ ["Red"; "Green"; "Blue"]%string) all_objects ->
      exists s1 : RobotArm.Sim,
        RobotArm.start_all_objects_batch now all_objects s = Ok s1 /\
        RobotArm.is_moving s1 = true /\ RobotArm.batch_mode s1 = true /\
        (exists o rest,
            sorted_objects = o :: rest /\
            RobotArm.current_mission s1
            = Some (RobotArm.mkMission (robot_pos o) (color o) now) /\
            RobotArm.batch_queue s1 = rest) /\
        (forall (k : nat) (clock : list (Q * Q)),
            (k < length all_objects)%nat -> length clock = (50 * k)%nat ->
            exists sk : RobotArm.Sim,
              RobotArm.ticks clock s1 = Ok sk /\
              RobotArm.is_moving sk = true /\ RobotArm.batch_mode sk = true /\
              RobotArm.batch_completions (RobotArm.metrics sk)
              = RobotArm.batch_completions (RobotArm.metrics s) /\
              List.map entry_key (RobotArm.pick_history sk)
              = List.map entry_key (RobotArm.pick_history s)
                ++ firstn k (List.map object_key sorted_objects) /\
              pending sk = skipn k (List.map object_key sorted_objects)) /\
        (forall clock : list (Q * Q),
            length clock = (50 * length all_objects)%nat ->
            exists s' : RobotArm.Sim,
              RobotArm.ticks clock s1 = Ok s' /\
              RobotArm.is_moving s' = false /\ RobotArm.batch_mode s' = false /\
              RobotArm.batch_queue s' = [] /\
              RobotArm.current_mission s' = None /\
              RobotArm.batch_completions (RobotArm.metrics s')
              = RobotArm.batch_completions (RobotArm.metrics s) + 1 /\
              List.map entry_key (RobotArm.pick_history s')
              = List.map entry_key (RobotArm.pick_history s)
                ++ List.map object_key sorted_objects).
Proof.
  intros l sorted_objects.
  split; [exact color_priority_values |].
  split; [apply sorted_by_perm |].
  split; [apply sorted_by_sorted |].
  split; [intros k; apply sorted_by_stable |].
  intros s now Hidle Hne Hknown.
  assert (Hlen : length sorted_objects = length l)
    by (apply Permutation_length, sorted_by_perm).
  assert (Hdrop : Forall (fun x => is_Some (RobotArm.drop_locations !! color x))
                    sorted_objects).
  { apply Forall_forall. intros o Ho. apply known_color_drop.
    rewrite Forall_forall in Hknown. apply Hknown.
    rewrite <- (sorted_by_perm by_priority l). exact Ho. }
  destruct sorted_objects as [| o rest] eqn:Hsorted.
  { destruct l; [contradiction | discriminate]. }
  destruct (start_batch_pick_idle now o rest s Hidle Hdrop)
    as (s1 & Hstart & Hf & Hbm & Hq & Hcur & Hh & Hmet).
  assert (Hpend : pending s1 = List.map object_key (o :: rest)).
  { unfold pending. rewrite Hcur, Hq. reflexivity. }
  exists s1. split.
  { unfold RobotArm.start_all_objects_batch.
    destruct l as [| a l']; [contradiction |].
    fold by_priority. unfold sorted_objects in Hsorted.
    change (sorted_by (fun x => RobotArm.color_priority (color x)) (a :: l'))
      with (sorted_by by_priority (a :: l')).
    rewrite Hsorted. exact Hstart. }
  split; [apply Hf |]. split; [exact Hbm |].
  split; [exists o, rest; repeat split; assumption |].
  split.
  - intros k clock Hk Hclock.
    destruct (batch_prefix k clock s1 Hf) as (sk & Hticks & Hfk & Hbmk & Hbck & Hhk & Hpk).
    { rewrite Hq. simpl in Hlen. lia. }
    { exact Hclock. }
    exists sk. split; [exact Hticks |]. split; [apply Hfk |].
    split; [congruence |]. split; [congruence |].
    rewrite Hhk, Hpk, Hpend, Hh. split; reflexivity.
  - intros clock Hclock.
    rewrite <- (firstn_skipn (50 * length rest) clock), ticks_app.
    destruct (batch_prefix (length rest) (firstn (50 * length rest) clock) s1 Hf)
      as (sk & -> & Hfk & Hbmk & Hbck & Hhk & Hpk).
    { rewrite Hq. lia. }
    { rewrite length_firstn. simpl in Hlen. lia. }
    cbn [bind].
    assert (Hqk : RobotArm.batch_queue sk = []).
    { apply pending_fresh in Hfk as Hl. rewrite Hpk, Hpend in Hl.
      rewrite length_skipn, length_map in Hl. simpl in Hl.
      destruct (RobotArm.batch_queue sk); [reflexivity | simpl in Hl; lia]. }
    destruct (last_round (skipn (50 * length rest) clock) sk Hfk Hqk)
      as (s' & -> & Hmov & Hcur' & Hbm' & Hq' & Hbc' & Hh').
    { rewrite length_skipn. simpl in Hlen. lia. }
    exists s'. split; [reflexivity |].
    repeat split; try assumption.
    + rewrite Hbc', Hbmk, Hbm, Hbck, Hmet. reflexivity.
    + rewrite Hh', Hhk, Hpk, Hh, <- app_assoc, firstn_skipn, Hpend.
      reflexivity.
Qed.

(** C5, on one red, one blue and one green detection given in the order
    blue, red, green: they are picked in the order red, green, blue, and
    after the three missions the batch is counted once. *)
Lemma C5_batch_order_fifo_witness :
  let blue := sample_object "Blue" 500 100 in
  let red := sample_object "Red" 100 300 in
  let green := sample_object "Green" 320 240 in
  sorted_by by_priority [blue; red; green] = [red; green; blue] /\
  exists s1 s' : RobotArm.Sim,
    RobotArm.start_all_objects_batch 0 [blue; red; green] RobotArm.init = Ok s1 /\
    RobotArm.ticks (repeat (1%Q, 2%Q) 150) s1 = Ok s' /\
    RobotArm.batch_completions (RobotArm.metrics s') = 1 /\
    RobotArm.batch_mode s' = false /\
    List.map entry_key (RobotArm.pick_history s')
    = List.map object_key [red; green; blue].
Proof.
  intros blue red green.
  split; [vm_compute; reflexivity |].
  destruct (C5_batch_order_fifo [blue; red; green])
    as (_ & _ & _ & _ & Hbatch).
  destruct (Hbatch RobotArm.init 0%Q eq_refl) as (s1 & Hstart & _ & _ & _ & _ & Hend).
  { discriminate. }
  { repeat constructor. }
  destruct (Hend (repeat (1%Q, 2%Q) 150) eq_refl)
    as (s' & Hticks & _ & Hbm & _ & _ & Hbc & Hh).
  exists s1, s'. repeat split; assumption.
Defined.

(** ** The position stabilizer *)

Section StabilizerFacts.
Import ObjectTracker.

Lemma deque_append_length (n : nat) (q : list Pixel) (x : Pixel) :
  length (deque_append n q x) = Nat.min n (S (length q)).
Proof.
  unfold deque_append. rewrite length_drop, length_app. simpl. lia.
Qed.

(** Appending to the window of the positions fed so far gives the window
    of the positions fed after the append. *)
Lemma deque_append_window (fed : list Pixel) (x : Pixel) :
  deque_append 5 (window fed) x = window (fed ++ [x]).
Proof.
  unfold deque_append, window.
  rewrite !length_app, length_drop. simpl length.
  destruct (Nat.le_gt_cases (length fed) 5) as [Hle | Hgt].
  - replace (length fed - 5)%nat with 0%nat by lia. rewrite drop_0.
    f_equal. lia.
  - rewrite <- (drop_app_le fed [x]) by lia.
    rewrite drop_drop. f_equal. lia.
Qed.

Lemma update_returns (obj_id : string) (position : Pixel) (st : Stabilizer) :
  let buffer :=
    deque_append (Pos.to_nat (buffer_size st)) (buffer_of obj_id st) position in
  update obj_id position st
  = (if (length buffer =? Pos.to_nat (buffer_size st))%nat
     then median_position buffer else position,
     mkStabilizer (buffer_size st)
       (<[obj_id := buffer]> (position_buffers st))).
Proof.
  unfold update, buffer_of. simpl.
  destruct (_ =? _)%nat; reflexivity.
Qed.

Lemma feed_outputs (obj_id : string) (positions : list Pixel) :
  forall (st : Stabilizer) (fed : list Pixel),
    buffer_size st = 5%positive ->
    buffer_of obj_id st = window fed ->
    forall (n : nat) (p : Pixel),
      positions !! n = Some p ->
      fst (feed obj_id positions st) !! n
      = Some (let w := window (fed ++ take (S n) positions) in
              if (length w =? 5)%nat then median_position w else p).
Proof.
  induction positions as [| q ps IH]; intros st fed Hsize Hbuf n p Hn;
    [discriminate |].
  cbn [feed]. rewrite update_returns. rewrite Hsize, Hbuf.
  change (Pos.to_nat 5) with 5%nat. rewrite deque_append_window.
  set (st1 := {| buffer_size := 5;
                 position_buffers :=
                   <[obj_id := window (fed ++ [q])]> (position_buffers st) |}).
  assert (Hb1 : buffer_of obj_id st1 = window (fed ++ [q])).
  { unfold buffer_of, st1. simpl. rewrite lookup_insert_eq. reflexivity. }
  pose proof (IH st1 (fed ++ [q]) eq_refl Hb1) as IH1.
  destruct (feed obj_id ps st1) as [rs st2].
  destruct n as [| n].
  - simpl in Hn. injection Hn as ->. reflexivity.
  - simpl in Hn. cbn [fst] in *. change ((?x :: rs) !! S n) with (rs !! n).
    rewrite (IH1 n p Hn). cbn [take]. rewrite <- app_assoc. reflexivity.
Qed.

(** The median of five integers of which four are equal. *)
Lemma median_int_outlier (v x : Z) (l1 l2 : list Z) :
  length (l1 ++ x :: l2) = 5%nat ->
  Forall (fun y => y = v) l1 -> Forall (fun y => y = v) l2 ->
  median_int (l1 ++ x :: l2) = v.
Proof.
  intros Hlen H1 H2. rewrite length_app in Hlen. simpl in Hlen.
  destruct l1 as [| a1 [| a2 [| a3 [| a4 [| a5 l1]]]]];
    destruct l2 as [| b1 [| b2 [| b3 [| b4 [| b5 l2]]]]];
    simpl in Hlen; try lia;
    repeat match goal with
           | H : Forall _ (_ :: _) |- _ => apply Forall_cons in H as [-> H]
           end;
    unfold median_int; simpl;
    repeat (match goal with
            | |- context [?a <=? ?b] => destruct (Z.leb_spec a b)
            end; simpl); lia.
Qed.

End StabilizerFacts.

Example median_int_odd : ObjectTracker.median_int [7; 1; 300; 5; 6] = 6.
Proof. reflexivity. Qed.

Example median_int_even : ObjectTracker.median_int [4; 1; 2; 3] = 2.
Proof. reflexivity. Qed.

Example deque_append_full :
  ObjectTracker.deque_append 5 [(1, 1); (2, 2); (3, 3); (4, 4); (5, 5)] (6, 6)
  = [(2, 2); (3, 3); (4, 4); (5, 5); (6, 6)].
Proof. reflexivity. Qed.

(** C6. With capacity 5, a call of [update] appends the position to the
    identity's buffer, which keeps the last five; it returns the raw
    position while the buffer holds fewer than 5 entries, and the
    coordinate-wise median (the third smallest of the five values, in each
    coordinate) once it holds exactly 5.  Fed to an identity without
    history, a sequence of positions so comes back raw for the first four
    and as the median of the last five from the fifth on; and the median of
    five positions of which four are identical is that position. *)
Theorem C6_stabilizer_raw_then_median :
  forall (st : ObjectTracker.Stabilizer) (obj_id : string),
    ObjectTracker.buffer_size st = 5%positive ->
    (forall position : Pixel,
        let buffer :=
          ObjectTracker.deque_append 5 (buffer_of obj_id st) position in
        let r := ObjectTracker.update obj_id position st in
        buffer_of obj_id (snd r) = buffer /\
        ObjectTracker.buffer_size (snd r) = 5%positive /\
        length buffer = Nat.min 5 (S (length (buffer_of obj_id st))) /\
        ((length buffer < 5)%nat -> fst r = position) /\
        (length buffer = 5%nat ->
         fst r = ObjectTracker.median_position buffer /\
         fst r = (nth 2 (sorted_by (fun v => v) (List.map fst buffer)) 0,
                  nth 2 (sorted_by (fun v => v) (List.map snd buffer)) 0))) /\
    (ObjectTracker.position_buffers st !! obj_id = None ->
     forall (positions : list Pixel) (n : nat) (p : Pixel),
       positions !! n = Some p ->
       fst (feed obj_id positions st) !! n
       = Some (if (n <? 4)%nat then p
               else ObjectTracker.median_position
                      (take 5 (drop (n - 4) positions)))) /\
    (forall (v outlier : Pixel) (before after : list Pixel),
        length (before ++ outlier :: after) = 5%nat ->
        Forall (fun q => q = v) before -> Forall (fun q => q = v) after ->
        ObjectTracker.median_position (before ++ outlier :: after) = v).
Proof.
  intros st obj_id Hsize. split; [| split].
  - intros position buffer r. unfold r. rewrite update_returns, Hsize.
    change (Pos.to_nat 5) with 5%nat. fold buffer. cbn [fst snd].
    assert (Hlen : length buffer = Nat.min 5 (S (length (buffer_of obj_id st))))
      by apply deque_append_length.
    clearbody buffer.
    split; [unfold buffer_of; simpl; rewrite lookup_insert_eq; reflexivity |].
    split; [reflexivity |]. split; [exact Hlen |]. split.
    + intros Hlt. destruct (Nat.eqb_spec (length buffer) 5); [lia | reflexivity].
    + intros H5. rewrite H5. simpl. split; [reflexivity |].
      unfold ObjectTracker.median_position, ObjectTracker.median_int.
      rewrite !(Permutation_length (sorted_by_perm _ _)), !length_map.
      unfold Pixel in *. rewrite H5. reflexivity.
  - intros Hnone positions n p Hn.
    rewrite (feed_outputs obj_id positions st [] Hsize) with (n := n) (p := p).
    + f_equal. cbn zeta. rewrite app_nil_l. unfold window.
      assert (Hlt : (n < length positions)%nat)
        by (eapply lookup_lt_Some; exact Hn).
      rewrite length_drop, length_take.
      destruct (Nat.ltb_spec n 4) as [Hn4 | Hn4].
      * destruct (Nat.eqb_spec (S n `min` length positions
                                - (S n `min` length positions - 5)) 5);
          [lia | reflexivity].
      * destruct (Nat.eqb_spec (S n `min` length positions
                                - (S n `min` length positions - 5)) 5);
          [| lia].
        f_equal. rewrite take_drop_commute. f_equal; [lia |].
        f_equal. lia.
    + unfold buffer_of. rewrite Hnone. reflexivity.
    + exact Hn.
  - intros v outlier before after Hlen Hb Ha.
    unfold ObjectTracker.median_position.
    rewrite !map_app. simpl List.map. destruct v as [vx vy].
    rewrite length_app in Hlen. simpl in Hlen.
    f_equal; apply median_int_outlier.
    all: try (rewrite length_app; simpl; rewrite !length_map; exact Hlen).
    all: apply List.Forall_map;
      (eapply Forall_impl; [eassumption |]); intros q ->; reflexivity.
Qed.

(** C6, at a fresh stabilizer of capacity 5: four equal positions and one
    outlier in the middle; the fifth call returns the equal position. *)
Lemma C6_stabilizer_raw_then_median_witness :
  let st := ObjectTracker.new_stabilizer 5 in
  let fed := [(100, 100); (100, 100); (480, 7); (100, 100); (100, 100)] in
  ObjectTracker.buffer_size st = 5%positive /\
  fst (feed "Red_100_100" fed st) !! 2%nat = Some (480, 7) /\
  fst (feed "Red_100_100" fed st) !! 4%nat = Some (100, 100).
Proof.
  intros st fed. split; [reflexivity |].
  destruct (C6_stabilizer_raw_then_median st "Red_100_100" eq_refl)
    as (_ & Hfeed & _).
  split.
  - exact (Hfeed eq_refl fed 2%nat (480, 7) eq_refl).
  - exact (Hfeed eq_refl fed 4%nat (100, 100) eq_refl).
Defined.

(** ** The object selector *)

Section SelectorFacts.
Import ObjectTracker.

(** A filtered image list that splits around an element comes from a
    list that splits the same way. *)
Lemma filter_map_split {A B : Type} (P : B -> bool) (f : A -> B)
    (l : list A) : forall (m1 : list B) (x : B) (m2 : list B),
  List.filter P (List.map f l) = m1 ++ x :: m2 ->
  exists l1 c l2, l = l1 ++ c :: l2 /\ f c = x /\ P x = true /\
    List.filter P (List.map f l1) = m1 /\
    List.filter P (List.map f l2) = m2.
Proof.
  induction l as [| o l IH]; intros m1 x m2 H.
  - destruct m1; discriminate.
  - simpl in H. destruct (P (f o)) eqn:HP.
    + destruct m1 as [| y m1]; simpl in H; injection H as Hy Hrest.
      * exists [], o, l. subst x. simpl. repeat split; assumption.
      * destruct (IH m1 x m2 Hrest) as (l1 & c & l2 & -> & Hc & Hx & H1 & H2).
        exists (o :: l1), c, l2. simpl. rewrite HP, H1, Hy.
        repeat split; assumption.
    + destruct (IH m1 x m2 H) as (l1 & c & l2 & -> & Hc & Hx & H1 & H2).
      exists (o :: l1), c, l2. simpl. rewrite HP.
      repeat split; assumption.
Qed.

Lemma within_tolerance_iff (tolerance d2 : Z) :
  within_tolerance tolerance d2 = true
  <-> 0 <= tolerance /\ d2 <= tolerance * tolerance.
Proof. unfold within_tolerance. rewrite andb_true_iff. lia. Qed.

Lemma dist2_nonneg (a b : Pixel) : 0 <= dist2 a b.
Proof. unfold dist2. nia. Qed.

(** A square root is at most an integer radius exactly when the radius
    is not negative and the radicand is at most its square. *)
Lemma sqrt_le_radius (d2 r : Z) :
  0 <= d2 ->
  (0 <= r /\ d2 <= r * r) <-> (sqrt (IZR d2) <= IZR r)%R.
Proof.
  intros Hd. split.
  - intros [Hr Hle].
    rewrite <- (sqrt_square (IZR r)) by (apply IZR_le; exact Hr).
    apply sqrt_le_1_alt. rewrite <- mult_IZR. apply IZR_le. exact Hle.
  - intros H.
    assert (Hs : (0 <= sqrt (IZR d2))%R) by apply sqrt_pos.
    assert (Hr : 0 <= r) by (apply le_IZR; lra).
    split; [exact Hr |].
    apply le_IZR. rewrite mult_IZR.
    rewrite <- (sqrt_sqrt (IZR d2)) by (apply IZR_le; exact Hd).
    apply Rmult_le_compat; lra.
Qed.

(** Square roots are ordered as their radicands. *)
Lemma sqrt_lt_radicand (a b : Z) :
  0 <= a -> 0 <= b ->
  a < b <-> (sqrt (IZR a) < sqrt (IZR b))%R.
Proof.
  intros Ha Hb. split.
  - intros H. apply sqrt_lt_1_alt.
    split; [apply IZR_le; exact Ha | apply IZR_lt; exact H].
  - intros H. apply lt_IZR. apply sqrt_lt_0_alt. exact H.
Qed.

Lemma sqrt_le_radicand (a b : Z) :
  0 <= a -> 0 <= b ->
  a <= b <-> (sqrt (IZR a) <= sqrt (IZR b))%R.
Proof.
  intros Ha Hb. split.
  - intros H. apply sqrt_le_1_alt. apply IZR_le. exact H.
  - intros H. apply le_IZR. apply sqrt_le_0; try (apply IZR_le; assumption).
    exact H.
Qed.

Lemma within_tolerance_distance (tolerance : Z) (selected current : Pixel) :
  within_tolerance tolerance (dist2 selected current) = true
  <-> (distance selected current <= IZR tolerance)%R.
Proof.
  rewrite within_tolerance_iff. apply sqrt_le_radius, dist2_nonneg.
Qed.

(** The head of the sorted matches is the first detection of least
    distance among those within tolerance; there is none exactly when no
    detection is within tolerance. *)
Lemma closest_match (tolerance : Z) (selected : Pixel)
    (current_objects : list DetectedObject) :
  let d := fun obj => dist2 selected (pixel_pos obj) in
  let near := fun obj => within_tolerance tolerance (d obj) = true in
  match sorted_by snd (matching_objects tolerance selected current_objects) with
  | [] => Forall (fun o => ~ near o) current_objects
  | (closest, _) :: _ =>
      exists before after,
        current_objects = before ++ closest :: after /\ near closest /\
        Forall (fun o => near o -> d closest < d o) before /\
        Forall (fun o => near o -> d closest <= d o) after
  end.
Proof.
  intros d near. unfold matching_objects.
  set (P := fun m : DetectedObject * Z => within_tolerance tolerance (snd m)).
  set (f := fun obj : DetectedObject => (obj, dist2 selected (pixel_pos obj))).
  destruct (sorted_by snd (List.filter P (List.map f current_objects)))
    as [| [closest dc] rest] eqn:Hs.
  - apply sorted_by_nil in Hs. apply List.Forall_forall. intros o Ho Hnear.
    assert (Hin : In (f o) (List.filter P (List.map f current_objects))).
    { apply filter_In. split; [apply in_map; exact Ho | exact Hnear]. }
    rewrite Hs in Hin. exact Hin.
  - apply sorted_by_head in Hs as (m1 & m2 & Hm & H1 & H2).
    apply filter_map_split in Hm
      as (before & c & after & -> & Hc & Hx & Hb & Ha).
    injection Hc as -> <-. exists before, after.
    split; [reflexivity |]. split; [exact Hx |].
    rewrite List.Forall_forall in H1, H2. split.
    + apply List.Forall_forall. intros o Ho Hnear.
      apply (H1 (f o)). rewrite <- Hb. apply filter_In.
      split; [apply in_map; exact Ho | exact Hnear].
    + apply List.Forall_forall. intros o Ho Hnear.
      apply (H2 (f o)). rewrite <- Ha. apply filter_In.
      split; [apply in_map; exact Ho | exact Hnear].
Qed.

End SelectorFacts.

(** [update_selection], with the distances given by their radicands. *)
Lemma update_selection_radicands :
  forall (sel : ObjectTracker.Selector) (selected : DetectedObject)
         (current_objects : list DetectedObject),
    ObjectTracker.selected_object sel = Some selected ->
    let tolerance := ObjectTracker.tolerance_radius sel in
    let d := fun obj =>
      ObjectTracker.dist2 (pixel_pos selected) (pixel_pos obj) in
    let near := fun obj => 0 <= tolerance /\ d obj <= tolerance * tolerance in
    (Exists near current_objects ->
     exists before closest after,
       current_objects = before ++ closest :: after /\
       near closest /\
       Forall (fun o => near o -> d closest < d o) before /\
       Forall (fun o => near o -> d closest <= d o) after /\
       ObjectTracker.update_selection current_objects sel
       = (Some closest,
          ObjectTracker.mkSelector tolerance (Some closest)
            (Some (ident closest)))) /\
    (Forall (fun o => ~ near o) current_objects ->
     ObjectTracker.update_selection current_objects sel = (None, sel)).
Proof.
  intros sel selected current_objects Hsel tolerance d near.
  pose proof (closest_match tolerance (pixel_pos selected) current_objects)
    as Hmatch.
  cbv zeta in Hmatch. unfold ObjectTracker.update_selection. rewrite Hsel.
  fold tolerance.
  destruct (sorted_by snd _) as [| [closest dc] rest].
  - split.
    + intros Hex. apply List.Exists_exists in Hex as (o & Ho & Hnear).
      rewrite List.Forall_forall in Hmatch. exfalso.
      apply (Hmatch o Ho). apply within_tolerance_iff. exact Hnear.
    + reflexivity.
  - destruct Hmatch as (before & after & -> & Hc & Hb & Ha). split.
    + intros _. exists before, closest, after.
      split; [reflexivity |].
      split; [apply within_tolerance_iff; exact Hc |].
      split; [| split; [| reflexivity]].
      * eapply List.Forall_impl; [| exact Hb]. intros o Ho Hn.
        apply Ho, within_tolerance_iff, Hn.
      * eapply List.Forall_impl; [| exact Ha]. intros o Ho Hn.
        apply Ho, within_tolerance_iff, Hn.
    + intros Hnone. exfalso. rewrite List.Forall_forall in Hnone.
      apply (Hnone closest).
      * apply in_or_app. right. left. reflexivity.
      * apply within_tolerance_iff. exact Hc.
Qed.

(** C4. With an object selected at pixel position [s], [update_selection]
    takes, among the detections whose Euclidean distance from [s] is at
    most [tolerance_radius], the one of least distance, the earliest in the
    detection list among equals, and stores it and its identity as the
    selection; when no detection is within the radius, the selector is
    returned as it was, neither cleared nor updated. *)
Theorem C4_update_selection_closest :
  forall (sel : ObjectTracker.Selector) (selected : DetectedObject)
         (current_objects : list DetectedObject),
    ObjectTracker.selected_object sel = Some selected ->
    let tolerance := ObjectTracker.tolerance_radius sel in
    let d := fun obj =>
      ObjectTracker.distance (pixel_pos selected) (pixel_pos obj) in
    let near := fun obj => (d obj <= IZR tolerance)%R in
    (Exists near current_objects ->
     exists before closest after,
       current_objects = before ++ closest :: after /\
       near closest /\
       Forall (fun o => near o -> (d closest < d o)%R) before /\
       Forall (fun o => near o -> (d closest <= d o)%R) after /\
       ObjectTracker.update_selection current_objects sel
       = (Some closest,
          ObjectTracker.mkSelector tolerance (Some closest)
            (Some (ident closest)))) /\
    (Forall (fun o => ~ near o) current_objects ->
     ObjectTracker.update_selection current_objects sel = (None, sel)).
Proof.
  intros sel selected current_objects Hsel tolerance d near.
  destruct (update_selection_radicands sel selected current_objects Hsel)
    as [Hsome Hnone].
  assert (Hnear : forall o, near o
                  <-> 0 <= tolerance /\
                      ObjectTracker.dist2 (pixel_pos selected) (pixel_pos o)
                      <= tolerance * tolerance).
  { intros o. symmetry. apply sqrt_le_radius, dist2_nonneg. }
  split.
  - intros Hex.
    destruct Hsome as (before & closest & after & Heq & Hc & Hb & Ha & Hupd).
    { apply List.Exists_exists in Hex as (o & Ho & Hn).
      apply List.Exists_exists. exists o. split; [exact Ho |].
      apply Hnear. exact Hn. }
    exists before, closest, after. split; [exact Heq |].
    split; [apply Hnear; exact Hc |].
    split; [| split; [| exact Hupd]].
    + eapply List.Forall_impl; [| exact Hb]. intros o Ho Hn.
      apply sqrt_lt_radicand; try apply dist2_nonneg.
      apply Ho, Hnear, Hn.
    + eapply List.Forall_impl; [| exact Ha]. intros o Ho Hn.
      apply sqrt_le_radicand; try apply dist2_nonneg.
      apply Ho, Hnear, Hn.
  - intros Hall. apply Hnone.
    eapply List.Forall_impl; [| exact Hall]. intros o Ho Hn.
    apply Ho, Hnear, Hn.
Qed.

(** C4, at the selection (100,100) with tolerance 40: of the detections
    at (120,100) and (200,100) the first is chosen; with (200,100) alone
    the selector is unchanged; of two detections at the same distance the
    earlier in the list is chosen. *)
Lemma C4_update_selection_closest_witness :
  let sel := ObjectTracker.select_object (sample_object "Red" 100 100)
               (ObjectTracker.new_selector 40) in
  let a := sample_object "Red" 120 100 in
  let b := sample_object "Red" 200 100 in
  let a' := sample_object "Red" 80 100 in
  ObjectTracker.selected_object sel = Some (sample_object "Red" 100 100) /\
  ObjectTracker.update_selection [b] sel = (None, sel) /\
  ObjectTracker.update_selection [a; b] sel
  = (Some a, ObjectTracker.mkSelector 40 (Some a) (Some "Red_120_100"%string)) /\
  ObjectTracker.update_selection [b; a'; a] sel
  = (Some a', ObjectTracker.mkSelector 40 (Some a') (Some "Red_80_100"%string)).
Proof.
  intros sel a b a'. split; [reflexivity |]. split.
  - apply (C4_update_selection_closest sel (sample_object "Red" 100 100) [b]
             eq_refl).
    constructor; [| constructor]. intros H.
    apply within_tolerance_distance in H. vm_compute in H. discriminate H.
  - split; vm_compute; reflexivity.
Defined.

(** ** The contour filter *)

Section ContourFacts.
Import ColorDetection.

Lemma Qlt_bool_iff (a b : Q) : Qlt_bool a b = true <-> (a < b)%Q.
Proof.
  unfold Qlt_bool. rewrite negb_true_iff. split.
  - intros H. apply Qnot_le_lt. intros Hle.
    apply Qle_bool_iff in Hle. congruence.
  - intros H. destruct (Qle_bool b a) eqn:E; [| reflexivity].
    apply Qle_bool_iff in E. exfalso. exact (Qlt_not_le _ _ H E).
Qed.

Lemma Qlt_bool_false_iff (a b : Q) : Qlt_bool a b = false <-> (b <= a)%Q.
Proof.
  unfold Qlt_bool. rewrite negb_false_iff. apply Qle_bool_iff.
Qed.

Lemma contour_accepted_iff (cnt_area hull_area min_area : Q) :
  contour_accepted cnt_area hull_area min_area = true
  <-> (min_area < cnt_area)%Q /\ (7 # 10 < solidity cnt_area hull_area)%Q.
Proof.
  unfold contour_accepted.
  destruct (Qlt_bool min_area cnt_area) eqn:E.
  - apply Qlt_bool_iff in E. rewrite Qlt_bool_iff. tauto.
  - apply Qlt_bool_false_iff in E. split; [discriminate |].
    intros [H _]. exfalso. exact (Qlt_not_le _ _ H E).
Qed.

End ContourFacts.

(** C3, as the code has it.  [find_contours] keeps exactly the contours
    of the mask whose area is above [min_area] and whose solidity is above
    7/10; a contour is rejected if and only if its area is at most
    [min_area] (an area equal to [min_area] is rejected) or its solidity is
    at most 7/10.  The solidity is area over hull area, and 0 when the hull
    area is not positive. *)
Theorem C3_contour_rejected_iff :
  (forall cnt_area hull_area min_area : Q,
      ColorDetection.contour_accepted cnt_area hull_area min_area = false
      <-> (cnt_area <= min_area)%Q \/
          (ColorDetection.solidity cnt_area hull_area <= 7 # 10)%Q) /\
  (forall cnt_area hull_area : Q,
      ((0 < hull_area)%Q ->
       ColorDetection.solidity cnt_area hull_area = (cnt_area / hull_area)%Q) /\
      ((hull_area <= 0)%Q ->
       ColorDetection.solidity cnt_area hull_area = 0%Q)) /\
  (forall (Mask Contour : Type) (findContours : Mask -> list Contour)
          (contourArea : Contour -> Q) (convexHull : Contour -> Contour)
          (mask : Mask) (min_area : Q) (cnt : Contour),
      In cnt (ColorDetection.find_contours findContours contourArea convexHull
                mask min_area)
      <-> In cnt (findContours mask) /\
          (min_area < contourArea cnt)%Q /\
          (7 # 10 < ColorDetection.solidity (contourArea cnt)
                      (contourArea (convexHull cnt)))%Q).
Proof.
  split; [| split].
  - intros a h m. split.
    + intros H. destruct (Qlt_le_dec m a) as [Hlt | Hle]; [| left; exact Hle].
      right. destruct (Qlt_le_dec (7 # 10) (ColorDetection.solidity a h))
        as [Hs | Hs]; [| exact Hs].
      exfalso. assert (ColorDetection.contour_accepted a h m = true)
        by (apply contour_accepted_iff; split; assumption).
      congruence.
    + intros H.
      destruct (ColorDetection.contour_accepted a h m) eqn:E; [| reflexivity].
      apply contour_accepted_iff in E as [Ha Hs]. exfalso.
      destruct H as [H | H]; [exact (Qlt_not_le _ _ Ha H) |
                              exact (Qlt_not_le _ _ Hs H)].
  - intros a h. unfold ColorDetection.solidity. split; intros H.
    + apply Qlt_bool_iff in H. rewrite H. reflexivity.
    + apply Qlt_bool_false_iff in H. rewrite H. reflexivity.
  - intros Mask Contour findContours contourArea convexHull mask min_area cnt.
    unfold ColorDetection.find_contours.
    rewrite filter_In, contour_accepted_iff. reflexivity.
Qed.

(** C3 as stated fails on a contour of area 1000 with hull area 1000 under
    [min_area = 1000]: the area equals [min_area], the solidity is 1, and
    the contour is rejected although neither is its area below [min_area]
    nor its solidity at most 7/10. *)
Lemma C3_area_equal_min_area_rejected :
  ColorDetection.contour_accepted 1000 1000 1000 = false /\
  (1000 == 1000)%Q /\
  (7 # 10 < ColorDetection.solidity 1000 1000)%Q /\
  ~ (forall cnt_area hull_area min_area : Q,
        ColorDetection.contour_accepted cnt_area hull_area min_area = false
        <-> (cnt_area < min_area)%Q \/
            (ColorDetection.solidity cnt_area hull_area <= 7 # 10)%Q).
Proof.
  split; [reflexivity |]. split; [reflexivity |]. split; [reflexivity |].
  intros H. destruct (proj1 (H 1000 1000 1000)%Q eq_refl) as [Hlt | Hle].
  - vm_compute in Hlt. discriminate.
  - vm_compute in Hle. apply Hle. reflexivity.
Qed.

(** ** Detection and the colour dataset *)

Section DatasetFacts.
Import ColorDetection.
Context {Frame HSVFrame Mask Contour : Type}.
Context (GaussianBlur : Frame -> Frame)
        (cvtColor_BGR2HSV : Frame -> HSVFrame)
        (frame_shape : Frame -> Z * Z)
        (zeros : HSVFrame -> Mask)
        (inRange : HSVFrame -> HSV -> HSV -> Mask)
        (bitwise_or : Mask -> Mask -> Mask)
        (morph_open morph_close dilate : Mask -> Mask)
        (findContours : Mask -> list Contour)
        (contourArea : Contour -> Q)
        (convexHull : Contour -> Contour)
        (boundingRect : Contour -> Z * Z * Z * Z).

Lemma hsv_ranges_fixed (csv : option DataFrame) :
  hsv_ranges (new_detector csv) = hsv_ranges (new_detector None).
Proof. reflexivity. Qed.

Lemma create_color_mask_ranges (d1 d2 : Detector) (hsv_frame : HSVFrame)
    (color_name : string) :
  hsv_ranges d1 = hsv_ranges d2 ->
  create_color_mask zeros inRange bitwise_or morph_open morph_close dilate
    d1 hsv_frame color_name
  = create_color_mask zeros inRange bitwise_or morph_open morph_close dilate
      d2 hsv_frame color_name.
Proof. intros H. unfold create_color_mask. rewrite H. reflexivity. Qed.

Lemma detect_colors_ranges (d1 d2 : Detector) (frame : Frame)
    (hsv_frame : HSVFrame) (min_area : Q) (keys : list string) :
  hsv_ranges d1 = hsv_ranges d2 ->
  forall detected : list DetectedObject,
    detect_colors frame_shape zeros inRange bitwise_or morph_open morph_close
      dilate findContours contourArea convexHull boundingRect
      d1 frame hsv_frame min_area keys detected
    = detect_colors frame_shape zeros inRange bitwise_or morph_open
        morph_close dilate findContours contourArea convexHull boundingRect
        d2 frame hsv_frame min_area keys detected.
Proof.
  intros H. induction keys as [| k keys IH]; intros detected; [reflexivity |].
  cbn [detect_colors]. rewrite (create_color_mask_ranges d1 d2 _ _ H).
  destruct (create_color_mask _ _ _ _ _ _ d2 hsv_frame k); [| apply IH].
  destruct (process_contours _ _ _ _ _); simpl; [apply IH | reflexivity].
Qed.

End DatasetFacts.

(** The dataset does reach the detector: its colour names are those of
    the file when it loads, and the three defaults when it does not. *)
Example dataset_sets_color_names :
  let df := [ ("Air Force Blue (Raf)"%string, [ColorDetection.CellStr "Alabama Crimson"]);
              ("93"%string, [ColorDetection.CellNum 163]);
              ("138"%string, [ColorDetection.CellNum 38]);
              ("168"%string, [ColorDetection.CellNum 56]) ] in
  ColorDetection.color_names (ColorDetection.new_detector (Some df))
  = [ColorDetection.CellStr "Alabama Crimson"] /\
  ColorDetection.color_names (ColorDetection.new_detector None)
  = [ColorDetection.CellStr "Red"; ColorDetection.CellStr "Green";
     ColorDetection.CellStr "Blue"] /\
  ColorDetection.color_names (ColorDetection.new_detector (Some []))
  = ColorDetection.color_names (ColorDetection.new_detector None).
Proof. repeat split; reflexivity. Qed.

(** C8. Whatever the outcome of loading the dataset (a data frame with the
    four columns, one without them, or a failure that installs the three
    default colours), the detector has the same HSV ranges, and
    [detect_objects] returns the same objects for every frame and every
    [min_area]. *)
Theorem C8_detection_independent_of_dataset :
  forall (Frame HSVFrame Mask Contour : Type)
         (GaussianBlur : Frame -> Frame)
         (cvtColor_BGR2HSV : Frame -> HSVFrame)
         (frame_shape : Frame -> Z * Z)
         (zeros : HSVFrame -> Mask)
         (inRange : HSVFrame -> ColorDetection.HSV -> ColorDetection.HSV -> Mask)
         (bitwise_or : Mask -> Mask -> Mask)
         (morph_open morph_close dilate : Mask -> Mask)
         (findContours : Mask -> list Contour)
         (contourArea : Contour -> Q)
         (convexHull : Contour -> Contour)
         (boundingRect : Contour -> Z * Z * Z * Z)
         (csv1 csv2 : option ColorDetection.DataFrame)
         (frame : Frame) (min_area : Q),
    ColorDetection.hsv_ranges (ColorDetection.new_detector csv1)
    = ColorDetection.hsv_ranges (ColorDetection.new_detector csv2) /\
    ColorDetection.detect_objects GaussianBlur cvtColor_BGR2HSV frame_shape
      zeros inRange bitwise_or morph_open morph_close dilate findContours
      contourArea convexHull boundingRect
      (ColorDetection.new_detector csv1) frame min_area
    = ColorDetection.detect_objects GaussianBlur cvtColor_BGR2HSV frame_shape
        zeros inRange bitwise_or morph_open morph_close dilate findContours
        contourArea convexHull boundingRect
        (ColorDetection.new_detector csv2) frame min_area.
Proof.
  intros. split; [reflexivity |].
  unfold ColorDetection.detect_objects.
  rewrite (hsv_ranges_fixed csv1), (hsv_ranges_fixed csv2).
  apply detect_colors_ranges. reflexivity.
Qed.

(** ** The main loop *)

Section LoopFacts.
Import RobotArm ObjectTracker Main.

Lemma stabilize_frame (detected : list DetectedObject) : forall st : System,
  call_log (snd (stabilize detected st))
  = call_log st
    ++ List.map (fun o => CallStabilizerUpdate (ident o)) detected /\
  robot_sim (snd (stabilize detected st)) = robot_sim st /\
  object_selector (snd (stabilize detected st)) = object_selector st.
Proof.
  induction detected as [| obj rest IH]; intros st.
  - simpl. rewrite app_nil_r. repeat split; reflexivity.
  - cbn [stabilize].
    destruct (update (ident obj) (pixel_pos obj) _) as [stable_pos stab].
    specialize (IH (set_stabilizer stab (log (CallStabilizerUpdate (ident obj)) st))).
    destruct (stabilize rest _) as [[objs ids] st2].
    cbn [snd] in *. destruct IH as (Hl & Hr & Ho).
    rewrite Hl, Hr, Ho. simpl. rewrite <- app_assoc.
    repeat split; reflexivity.
Qed.

Lemma process_frame_frame (detected : list DetectedObject) (st : System) :
  call_log (snd (process_frame detected st))
  = call_log st
    ++ CallDetectObjects
       :: List.map (fun o => CallStabilizerUpdate (ident o)) detected
    ++ [CallStabilizerCleanup] /\
  robot_sim (snd (process_frame detected st)) = robot_sim st /\
  object_selector (snd (process_frame detected st)) = object_selector st.
Proof.
  unfold process_frame.
  pose proof (stabilize_frame detected (log CallDetectObjects st)) as H.
  destruct (stabilize detected _) as [[objs ids] st1].
  cbn [snd] in *. destruct H as (Hl & Hr & Ho). simpl.
  rewrite Hl, Hr, Ho. simpl. rewrite <- !app_assoc. simpl.
  repeat split; reflexivity.
Qed.

Lemma selection_phase_unselected (objects : list DetectedObject)
    (st : System) :
  moving_unselected (selection_phase objects st).
Proof.
  unfold moving_unselected, selection_phase.
  destruct (is_moving (robot_sim st)) eqn:Hm; simpl.
  - intros _. split; reflexivity.
  - rewrite Hm. discriminate.
Qed.

Ltac keyboard_cases :=
  unfold handle_keyboard_input; cbv zeta;
  repeat match goal with
         | |- context [if ?b then _ else _] => destruct b eqn:?
         | |- context [match selected_object ?s with _ => _ end] =>
             destruct (selected_object s) eqn:?
         | |- context [match nth_error ?l ?n with _ => _ end] =>
             destruct (nth_error l n) eqn:?
         | |- context [bind ?r _] => destruct r eqn:?; cbn [bind]
         end.

Lemma handle_keyboard_input_frame (now : Q) (key : Z)
    (objects : list DetectedObject) (st st' : System) (continue : bool) :
  handle_keyboard_input now key objects st = Ok (continue, st') ->
  call_log st' = call_log st /\
  (moving_unselected st -> moving_unselected st').
Proof.
  keyboard_cases; intros [= <- <-]; (split; [reflexivity |]);
    unfold moving_unselected; simpl; intros Hinv Hm;
    try (split; reflexivity); try (apply Hinv; exact Hm).
  all: repeat match goal with
              | H : _ && _ = true |- _ => apply andb_true_iff in H as [? ?]
              | H : negb _ = true |- _ => apply negb_true_iff in H
              end; congruence.
Qed.

End LoopFacts.

Section PassFacts.
Import RobotArm ObjectTracker Main.

Lemma phases_stabilizer_calls (detected : list DetectedObject)
    (rest : list Call) :
  phases (List.map (fun o => CallStabilizerUpdate (ident o)) detected ++ rest)
  = repeat Stabilization (length detected) ++ phases rest.
Proof.
  induction detected as [| o l IH]; [reflexivity |].
  simpl. unfold phases in *. simpl. rewrite IH. reflexivity.
Qed.

Lemma in_order_stabilization (rank : Phase -> nat) (n : nat)
    (rest : list Phase) :
  forallb (fun p => (rank Stabilization <=? rank p)%nat) rest = true ->
  in_order rank rest = true ->
  in_order rank (repeat Stabilization n ++ rest) = true.
Proof.
  intros Hall Hrest. induction n as [| n IH]; [exact Hrest |].
  simpl. rewrite IH, andb_true_r, forallb_app, Hall, andb_true_r.
  apply forallb_forall. intros p Hp. apply repeat_spec in Hp as ->.
  apply Nat.leb_refl.
Qed.

Lemma in_order_false_tail (rank : Phase -> nat) (l1 l2 : list Phase) :
  in_order rank l2 = false -> in_order rank (l1 ++ l2) = false.
Proof.
  intros H. induction l1 as [| p l1 IH]; [exact H |].
  simpl. rewrite IH. apply andb_false_r.
Qed.

(** The calls of a pass over a grabbed frame. *)
Lemma run_iteration_calls (inp : Input) (st st' : System)
    (continue : bool) (detected : list DetectedObject) :
  frame inp = Some detected ->
  run_iteration inp st = Ok (continue, st') ->
  exists sim,
    update_mission (time_completed inp) (time_next inp) (robot_sim st)
    = Ok sim /\
    call_log st'
    = call_log st
      ++ CallDetectObjects
         :: List.map (fun o => CallStabilizerUpdate (ident o)) detected
      ++ [CallStabilizerCleanup; CallUpdateMission;
          if is_moving sim then CallClearSelection else CallUpdateSelection;
          CallHandleKeyboard (key_pressed inp)].
Proof.
  intros Hframe. unfold run_iteration. rewrite Hframe.
  pose proof (process_frame_frame detected st) as (Hl & Hr & _).
  destruct (process_frame detected st) as [objects st1]. cbn [snd] in *.
  simpl robot_sim. rewrite Hr.
  destruct (update_mission _ _ (robot_sim st)) as [sim |]; cbn [bind];
    [| discriminate].
  intros H. apply handle_keyboard_input_frame in H as [Hlog _].
  exists sim. split; [reflexivity |]. rewrite Hlog.
  unfold selection_phase. simpl is_moving.
  destruct (is_moving sim); simpl; rewrite Hl, <- !app_assoc; simpl;
    rewrite <- !app_assoc; reflexivity.
Qed.

Lemma run_iteration_unselected (inp : Input) (st st' : System)
    (continue : bool) :
  moving_unselected st ->
  run_iteration inp st = Ok (continue, st') ->
  moving_unselected st'.
Proof.
  intros Hinv. unfold run_iteration.
  destruct (frame inp) as [detected |]; [| intros [= <- <-]; exact Hinv].
  destruct (process_frame detected st) as [objects st1].
  destruct (update_mission _ _ _) as [sim |]; cbn [bind]; [| discriminate].
  intros H. apply handle_keyboard_input_frame in H as [_ Hkeep].
  apply Hkeep.
  pose proof (selection_phase_unselected objects
                (set_sim sim (log CallUpdateMission st1))) as Hsel.
  unfold moving_unselected in *. simpl. exact Hsel.
Qed.

Lemma run_reachable (inputs : list Input) : forall st st' : System,
  Main.reachable st -> run inputs st = Ok st' -> Main.reachable st'.
Proof.
  induction inputs as [| inp rest IH]; intros st st' Hr; simpl.
  - intros [= <-]. exact Hr.
  - destruct (run_iteration inp st) as [[continue st1] |] eqn:Hpass;
      cbn [bind]; [| discriminate].
    assert (Hr1 : Main.reachable st1)
      by exact (reachable_pass st inp continue st1 Hr Hpass).
    simpl. destruct continue.
    + apply IH. exact Hr1.
    + intros [= <-]. exact Hr1.
Qed.

End PassFacts.

(** C2, as the code has it.  A pass of the loop over a grabbed frame
    calls, in this order: [detect_objects]; the stabilizer, once per
    detection and then its cleanup; [update_mission]; then the selection
    step, which is [clear_selection] when the robot is moving after the
    mission advance and [update_selection] otherwise; then the keyboard
    handler.  The mission advance so comes before the selection step of the
    same pass, and the order of the specification is not followed. *)
Theorem C2_mission_advance_before_selection :
  forall (st : Main.System) (inp : Main.Input) (continue : bool)
         (st' : Main.System) (detected : list DetectedObject),
    Main.frame inp = Some detected ->
    Main.run_iteration inp st = Ok (continue, st') ->
    exists sim : RobotArm.Sim,
      RobotArm.update_mission (Main.time_completed inp) (Main.time_next inp)
        (Main.robot_sim st) = Ok sim /\
      pass_calls st st'
      = Main.CallDetectObjects
        :: List.map (fun o => Main.CallStabilizerUpdate (ident o)) detected
        ++ [Main.CallStabilizerCleanup; Main.CallUpdateMission;
            if RobotArm.is_moving sim
            then Main.CallClearSelection else Main.CallUpdateSelection;
            Main.CallHandleKeyboard (Main.key_pressed inp)] /\
      Main.phases (pass_calls st st')
      = Main.Segmentation
        :: repeat Main.Stabilization (length detected)
        ++ [Main.Stabilization; Main.MissionAdvance; Main.SelectionUpdate] /\
      Main.in_order Main.run_rank (Main.phases (pass_calls st st')) = true /\
      Main.in_order Main.spec_rank (Main.phases (pass_calls st st')) = false.
Proof.
  intros st inp continue st' detected Hframe Hrun.
  destruct (run_iteration_calls inp st st' continue detected Hframe Hrun)
    as (sim & Hsim & Hlog).
  exists sim. split; [exact Hsim |].
  assert (Hcalls : pass_calls st st'
                   = Main.CallDetectObjects
                     :: List.map (fun o => Main.CallStabilizerUpdate (ident o))
                          detected
                     ++ [Main.CallStabilizerCleanup; Main.CallUpdateMission;
                         if RobotArm.is_moving sim
                         then Main.CallClearSelection
                         else Main.CallUpdateSelection;
                         Main.CallHandleKeyboard (Main.key_pressed inp)]).
  { unfold pass_calls. rewrite Hlog. apply drop_app_length. }
  assert (Hphases : Main.phases (pass_calls st st')
                    = Main.Segmentation
                      :: repeat Main.Stabilization (length detected)
                      ++ [Main.Stabilization; Main.MissionAdvance;
                          Main.SelectionUpdate]).
  { rewrite Hcalls.
    change (Main.phases (Main.CallDetectObjects :: ?l))
      with (Main.Segmentation :: Main.phases l).
    rewrite phases_stabilizer_calls.
    destruct (RobotArm.is_moving sim); reflexivity. }
  split; [exact Hcalls |]. split; [exact Hphases |]. rewrite Hphases. split.
  - cbn [Main.in_order]. rewrite in_order_stabilization by reflexivity.
    rewrite andb_true_r. apply forallb_forall. intros p _. reflexivity.
  - change (Main.Segmentation
            :: repeat Main.Stabilization (length detected)
            ++ [Main.Stabilization; Main.MissionAdvance; Main.SelectionUpdate])
      with ((Main.Segmentation
             :: repeat Main.Stabilization (length detected))
            ++ [Main.Stabilization; Main.MissionAdvance; Main.SelectionUpdate]).
    apply in_order_false_tail. reflexivity.
Qed.

(** C2, at the first pass of the program over a frame with one red
    detection and no key pressed. *)
Lemma C2_mission_advance_before_selection_witness :
  exists st' : Main.System,
    Main.frame quiet_pass = Some [sample_object "Red" 100 300] /\
    Main.run_iteration quiet_pass Main.init = Ok (true, st') /\
    Main.phases (pass_calls Main.init st')
    = [Main.Segmentation; Main.Stabilization; Main.Stabilization;
       Main.MissionAdvance; Main.SelectionUpdate].
Proof.
  eexists. split; [reflexivity |].
  split; [vm_compute; reflexivity |].
  match goal with
  | |- Main.phases (pass_calls _ ?s) = _ =>
      destruct (C2_mission_advance_before_selection Main.init quiet_pass true
                  s [sample_object "Red" 100 300] eq_refl)
        as (sim & _ & _ & Hphases & _)
  end.
  - vm_compute. reflexivity.
  - exact Hphases.
Defined.

(** C2 as stated fails at the first pass of the program over a frame with
    one red detection: [update_mission] is called before
    [update_selection], so the phases of the pass do not follow the order
    segmentation, stabilization, selection update, mission advance. *)
Lemma C2_selection_update_not_before_mission_advance :
  (exists st' : Main.System,
      Main.run_iteration quiet_pass Main.init = Ok (true, st') /\
      pass_calls Main.init st'
      = [Main.CallDetectObjects; Main.CallStabilizerUpdate "Red_100_300";
         Main.CallStabilizerCleanup; Main.CallUpdateMission;
         Main.CallUpdateSelection; Main.CallHandleKeyboard 255] /\
      Main.in_order Main.spec_rank (Main.phases (pass_calls Main.init st'))
      = false) /\
  ~ spec_phase_order.
Proof.
  split.
  - eexists. split; [vm_compute; reflexivity |].
    split; vm_compute; reflexivity.
  - intros H. pose proof (H Main.init quiet_pass) as H0.
    destruct (Main.run_iteration quiet_pass Main.init) as [[c st'] |] eqn:E;
      [| vm_compute in E; discriminate].
    specialize (H0 c st' eq_refl). revert H0.
    vm_compute in E. injection E as <- <-. vm_compute. discriminate.
Qed.

Section SelectionCleared.
Import RobotArm ObjectTracker Main.

(** The selection step of a moving robot is [clear_selection], whatever
    is selected and whatever the frame shows. *)
Lemma selection_phase_clears (objects : list DetectedObject) (st : System) :
  is_moving (robot_sim st) = true ->
  object_selector (selection_phase objects st)
  = clear_selection (object_selector st) /\
  robot_sim (selection_phase objects st) = robot_sim st.
Proof.
  intros Hm. unfold selection_phase. rewrite Hm. split; reflexivity.
Qed.

(** A pass over a grabbed frame leaves no selection beside a moving
    robot, from any state, also one that is moving with a selection. *)
Lemma run_iteration_clears (inp : Input) (st st' : System)
    (continue : bool) (detected : list DetectedObject) :
  frame inp = Some detected ->
  run_iteration inp st = Ok (continue, st') ->
  moving_unselected st'.
Proof.
  intros Hframe. unfold run_iteration. rewrite Hframe.
  destruct (process_frame detected st) as [objects st1].
  destruct (update_mission _ _ _) as [sim |]; cbn [bind]; [| discriminate].
  intros H. apply handle_keyboard_input_frame in H as [_ Hkeep].
  apply Hkeep.
  pose proof (selection_phase_unselected objects
                (set_sim sim (log CallUpdateMission st1))) as Hsel.
  unfold moving_unselected in *. simpl. exact Hsel.
Qed.

(** A key that takes the robot from idle to moving clears the
    selection. *)
Lemma handle_keyboard_input_start_clears (now : Q) (key : Z)
    (objects : list DetectedObject) (st st' : System) (continue : bool) :
  is_moving (robot_sim st) = false ->
  handle_keyboard_input now key objects st = Ok (continue, st') ->
  is_moving (robot_sim st') = true ->
  selected_object (object_selector st') = None /\
  selection_id (object_selector st') = None.
Proof.
  intros Hidle. unfold handle_keyboard_input. cbv zeta.
  repeat match goal with
         | |- context [if ?b then _ else _] => destruct b eqn:?
         | |- context [match selected_object ?s with _ => _ end] =>
             destruct (selected_object s) eqn:?
         | |- context [match nth_error ?l ?n with _ => _ end] =>
             destruct (nth_error l n) eqn:?
         | |- context [bind ?r _] => destruct r eqn:?; cbn [bind]
         end;
    intros [= <- <-]; simpl; intros Hm;
    try (split; reflexivity); congruence.
Qed.

End SelectionCleared.

(** C9. At the end of every pass of the main loop, if the robot is moving
    then no object is selected: the stored object and the stored identity
    are both [None].  The loop brings this about as the claim says.  The
    selection step of a pass is [clear_selection] whenever the robot is
    moving after the mission advance, whatever is selected and whatever
    the frame shows, so a pass over a grabbed frame ends with no selection
    beside a moving robot from any state, also from one that is moving
    with a selection.  And a key that takes the robot from idle to moving,
    by starting a mission or a batch, leaves the selection cleared. *)
Theorem C9_moving_implies_unselected :
  (forall st : Main.System,
      Main.reachable st ->
      RobotArm.is_moving (Main.robot_sim st) = true ->
      ObjectTracker.selected_object (Main.object_selector st) = None /\
      ObjectTracker.selection_id (Main.object_selector st) = None) /\
  (forall (objects : list DetectedObject) (st : Main.System),
      RobotArm.is_moving (Main.robot_sim st) = true ->
      Main.object_selector (Main.selection_phase objects st)
      = ObjectTracker.clear_selection (Main.object_selector st) /\
      ObjectTracker.selected_object
        (Main.object_selector (Main.selection_phase objects st)) = None /\
      ObjectTracker.selection_id
        (Main.object_selector (Main.selection_phase objects st)) = None /\
      Main.robot_sim (Main.selection_phase objects st) = Main.robot_sim st) /\
  (forall (st : Main.System) (inp : Main.Input)
          (detected : list DetectedObject) (continue : bool)
          (st' : Main.System),
      Main.frame inp = Some detected ->
      Main.run_iteration inp st = Ok (continue, st') ->
      RobotArm.is_moving (Main.robot_sim st') = true ->
      ObjectTracker.selected_object (Main.object_selector st') = None /\
      ObjectTracker.selection_id (Main.object_selector st') = None) /\
  (forall (now : Q) (key : Z) (objects : list DetectedObject)
          (st : Main.System) (continue : bool) (st' : Main.System),
      RobotArm.is_moving (Main.robot_sim st) = false ->
      Main.handle_keyboard_input now key objects st = Ok (continue, st') ->
      RobotArm.is_moving (Main.robot_sim st') = true ->
      ObjectTracker.selected_object (Main.object_selector st') = None /\
      ObjectTracker.selection_id (Main.object_selector st') = None).
Proof.
  split; [| split; [| split]].
  - intros st Hr. change (moving_unselected st).
    induction Hr as [| st inp continue st' _ IH Hpass].
    + intros Hm. discriminate Hm.
    + exact (run_iteration_unselected inp st st' continue IH Hpass).
  - intros objects st Hm.
    destruct (selection_phase_clears objects st Hm) as [Hsel Hsim].
    rewrite Hsel. repeat split; try reflexivity. exact Hsim.
  - intros st inp detected continue st' Hframe Hpass.
    exact (run_iteration_clears inp st st' continue detected Hframe Hpass).
  - intros now key objects st continue st'.
    apply handle_keyboard_input_start_clears.
Qed.

(** C9, at the state after a pass that selects a red detection with the
    key 1 and a pass that starts its mission with the space bar; and at
    that state with the detection put back as the selection by hand, a
    state the loop never reaches, from which one more pass clears it. *)
Lemma C9_moving_implies_unselected_witness :
  exists st st' : Main.System,
    Main.run [select_pass; pick_pass] Main.init = Ok st /\
    RobotArm.is_moving (Main.robot_sim st) = true /\
    ObjectTracker.selected_object (Main.object_selector st) = None /\
    let selected :=
      Main.set_selector
        (ObjectTracker.select_object (sample_object "Red" 100 300)
           (Main.object_selector st)) st in
    ObjectTracker.selected_object (Main.object_selector selected)
    = Some (sample_object "Red" 100 300) /\
    Main.run_iteration quiet_pass selected = Ok (true, st') /\
    RobotArm.is_moving (Main.robot_sim st') = true /\
    ObjectTracker.selected_object (Main.object_selector st') = None.
Proof.
  destruct C9_moving_implies_unselected as (Hinv & _ & Hpass & _).
  let v := eval vm_compute in (Main.run [select_pass; pick_pass] Main.init) in
  match v with
  | Ok ?st =>
      let w := eval vm_compute in
                 (Main.run_iteration quiet_pass
                    (Main.set_selector
                       (ObjectTracker.select_object
                          (sample_object "Red" 100 300)
                          (Main.object_selector st)) st)) in
      match w with
      | Ok (true, ?st') => exists st, st'
      end
  end.
  split; [vm_compute; reflexivity |]. split; [reflexivity |]. split.
  { match goal with
    | |- ObjectTracker.selected_object (Main.object_selector ?s) = None =>
        apply (Hinv s)
    end.
    - apply (run_reachable [select_pass; pick_pass] Main.init).
      + exact Main.reachable_init.
      + vm_compute. reflexivity.
    - reflexivity. }
  cbv zeta. split; [reflexivity |].
  match goal with
  | |- Main.run_iteration ?i ?s = Ok (true, ?s') /\ _ =>
      assert (Hp : Main.run_iteration i s = Ok (true, s'))
        by (vm_compute; reflexivity);
      split; [exact Hp |]; split; [reflexivity |];
      exact (proj1 (Hpass s i [sample_object "Red" 100 300] true s'
                      eq_refl Hp eq_refl))
  end.
Defined.

(** * Further properties of the code *)

(** ** The shape of the controller *)

Section ShapeFacts.
Import RobotArm.

Lemma start_mission_shape (now : Q) (p : Position) (c : string) (s s' : Sim) :
  controller_shape s -> start_mission now p c s = Ok s' -> controller_shape s'.
Proof.
  intros (Hpos & Hp & He & Hq & Hcase). unfold start_mission.
  destruct (is_moving s) eqn:Hm; simpl.
  - intros [= <-]. unfold controller_shape. rewrite Hm. auto.
  - destruct Hcase as (Hcur & Hqueue & Hbm & Hp0).
    destruct (drop_locations !! c) as [d |] eqn:Hd.
    + erewrite calculate_pick_mission_known
        by (unfold drop_of; rewrite Hd; reflexivity).
      simpl. intros [= <-]. unfold controller_shape. simpl.
      rewrite Hpos. repeat split; try lia; try assumption.
      exists (mkMission p c now), d. repeat split; assumption.
    + unfold calculate_pick_mission, drop_of. destruct p as [[x y] z].
      rewrite Hd. discriminate.
Qed.

Lemma start_batch_pick_shape (now : Q) (l : list DetectedObject) (s s' : Sim) :
  controller_shape s -> start_batch_pick now l s = Ok s' -> controller_shape s'.
Proof.
  intros Hs. unfold start_batch_pick. destruct l as [| o rest].
  - intros [= <-]. exact Hs.
  - destruct (is_moving s) eqn:Hm; simpl.
    + intros [= <-]. exact Hs.
    + intros H. pose proof Hs as (Hpos & Hp & He & Hq & Hcase).
      rewrite Hm in Hcase. destruct Hcase as (Hcur & Hqueue & Hbm & Hp0).
      unfold start_mission in H. simpl in H. rewrite Hm in H. simpl in H.
      destruct (drop_locations !! color o) as [d |] eqn:Hd.
      * erewrite calculate_pick_mission_known in H
          by (unfold drop_of; rewrite Hd; reflexivity).
        simpl in H. injection H as <-. unfold controller_shape. simpl.
        rewrite Hpos. repeat split; try lia; try reflexivity.
        exists (mkMission (robot_pos o) (color o) now), d.
        repeat split; assumption.
      * unfold calculate_pick_mission, drop_of in H.
        destruct (robot_pos o) as [[x y] z]. rewrite Hd in H. discriminate.
Qed.

Lemma complete_mission_shape (now now' : Q) (s s' : Sim) :
  current_position s = home ->
  (batch_queue s <> [] -> batch_mode s = true) ->
  (current_mission s <> None -> is_moving s = true) ->
  complete_mission now now' s = Ok s' -> controller_shape s'.
Proof.
  intros Hpos Hq Hmov H.
  apply complete_mission_ok in H
    as (m & d & Hm & Hd & _ & _ & Hp & Hpos' & Hqq & Hcase).
  unfold controller_shape. rewrite Hpos', Hp, Hpos, Hqq.
  split; [reflexivity |]. split; [lia |]. split; [reflexivity |].
  destruct (batch_queue s) as [| o q] eqn:Hqueue.
  - destruct Hcase as (-> & Hcur & Hbm & _). simpl.
    split; [intros Hne; contradiction |]. repeat split; assumption.
  - destruct Hcase as (-> & -> & Hcur & d' & Hd' & Hsteps).
    rewrite Hmov by (rewrite Hm; discriminate). simpl.
    split; [intros _; apply Hq; discriminate |].
    exists (mkMission (robot_pos o) (color o) now'), d'. simpl.
    repeat split; [exact Hcur | | rewrite Hsteps, Hpos; reflexivity].
    unfold drop_of in Hd'. destruct (drop_locations !! color o);
      [injection Hd' as ->; reflexivity | discriminate].
Qed.

Lemma shape_mission_moving (s : Sim) :
  controller_shape s -> current_mission s <> None -> is_moving s = true.
Proof.
  intros (_ & _ & _ & _ & Hcase) Hne. destruct (is_moving s); [reflexivity |].
  destruct Hcase as (Hcur & _). contradiction.
Qed.

Lemma update_mission_shape (now now' : Q) (s s' : Sim) :
  controller_shape s -> update_mission now now' s = Ok s' -> controller_shape s'.
Proof.
  intros Hs. pose proof Hs as (Hpos & Hp & He & Hq & Hcase).
  unfold update_mission.
  destruct (is_moving s && bool_decide (is_Some (current_mission s))) eqn:Hc;
    [| intros [= <-]; exact Hs].
  apply andb_true_iff in Hc as [Hm _].
  destruct (Z.leb_spec 100 (mission_progress (set_progress (mission_progress s + 2) s)))
    as [Hge | Hlt].
  - apply complete_mission_shape; simpl; try assumption.
    intros _. exact Hm.
  - intros [= <-]. simpl in Hlt. unfold controller_shape. simpl.
    rewrite Hm in *. repeat split; try lia; try assumption.
    rewrite Z.even_add, He. reflexivity.
Qed.

Lemma start_next_mission_shape (now : Q) (s s' : Sim) :
  controller_shape s -> start_next_mission now s = Ok s' -> controller_shape s'.
Proof.
  intros (Hpos & Hp & He & Hq & Hcase). unfold start_next_mission.
  destruct (batch_queue s) as [| o q] eqn:Hqueue; [discriminate |].
  destruct (is_moving s) eqn:Hm;
    [| destruct Hcase as (_ & Hempty & _); discriminate].
  destruct (drop_locations !! color o) as [d |] eqn:Hd.
  - erewrite calculate_pick_mission_known
      by (unfold drop_of; rewrite Hd; reflexivity).
    simpl. intros [= <-]. unfold controller_shape. simpl.
    rewrite Hm, Hpos. repeat split; try lia; try assumption.
    + intros _. apply Hq. discriminate.
    + exists (mkMission (robot_pos o) (color o) now), d.
      repeat split; assumption.
  - unfold calculate_pick_mission, drop_of. destruct (robot_pos o) as [[x y] z].
    rewrite Hd. discriminate.
Qed.

Lemma exec_shape (op : Op) (s s' : Sim) :
  controller_shape s -> exec op s = Ok s' -> controller_shape s'.
Proof.
  intros Hs.
  destruct op as [now p c | now l | now l c | now l | now now' | now now'
                 | now]; simpl.
  - apply start_mission_shape, Hs.
  - apply start_batch_pick_shape, Hs.
  - unfold start_color_batch_pick. destruct (List.filter _ l) as [| o rest].
    + intros [= <-]. exact Hs.
    + apply start_batch_pick_shape, Hs.
  - unfold start_all_objects_batch. destruct l as [| o rest].
    + intros [= <-]. exact Hs.
    + apply start_batch_pick_shape, Hs.
  - apply update_mission_shape, Hs.
  - pose proof Hs as (Hpos & _ & _ & Hq & _).
    apply complete_mission_shape; try assumption.
    apply shape_mission_moving, Hs.
  - apply start_next_mission_shape, Hs.
Qed.

Lemma reachable_shape (s : Sim) : reachable s -> controller_shape s.
Proof.
  induction 1 as [| s op s' _ IH Hex].
  - unfold controller_shape. simpl. repeat split; try lia; try reflexivity.
    intros H. contradiction.
  - exact (exec_shape op s s' IH Hex).
Qed.

End ShapeFacts.

(** X1. Every controller state reached from [__init__] by calls that
    return has the shape [controller_shape]: the arm's home is unchanged,
    the progress is an even number from 0 to 98, a queue exists only in
    batch mode, a moving controller has a current mission with its
    nine-step plan, and an idle one has no mission, no queue and no batch
    flag. *)
Theorem X1_reachable_controller_shape :
  forall s : RobotArm.Sim, RobotArm.reachable s -> controller_shape s.
Proof.
  intros s Hr. induction Hr as [| s op s' Hr' IH Hex].
  - apply reachable_shape. exact RobotArm.reachable_init.
  - exact (exec_shape op s s' IH Hex).
Qed.

Section ReachFacts.
Import RobotArm.

Lemma reachable_ticks (clock : list (Q * Q)) : forall s s' : Sim,
  reachable s -> ticks clock s = Ok s' -> reachable s'.
Proof.
  induction clock as [| [t t'] clock IH]; intros s s' Hr; simpl.
  - intros [= <-]. exact Hr.
  - destruct (update_mission t t' s) as [s1 |] eqn:Hu; simpl; [| discriminate].
    apply IH. exact (reachable_exec s (OpUpdateMission t t') s1 Hr Hu).
Qed.

Lemma reachable_red_mission :
  reachable (started 0 (150, 120, 20) (100, 350, 50) "Red" init).
Proof.
  exact (reachable_exec init (OpStartMission 0 (150, 120, 20) "Red") _
           reachable_init eq_refl).
Qed.

(** The step index of a nine-step plan at a progress from 0 to 99. *)
Lemma step_index_nine (p : Z) :
  0 <= p < 100 ->
  Z.min (int_of_Q (inject_Z p / (inject_Z 100 / inject_Z 9))%Q) (9 - 1)
  = p * 9 / 100.
Proof.
  intros Hp. unfold int_of_Q, Qdiv, Qmult, Qinv, inject_Z. simpl.
  rewrite Z.quot_div_nonneg by lia.
  assert (p * 9 / 100 < 9) by (apply Z.div_lt_upper_bound; lia).
  apply Z.min_l. lia.
Qed.

Lemma py_index_in_range {A : Type} (l : list A) (i : Z) :
  0 <= i < Z.of_nat (length l) ->
  exists x, nth_error l (Z.to_nat i) = Some x /\ py_index l i = Ok x.
Proof.
  intros Hi. unfold py_index.
  destruct (Z.ltb_spec i 0) as [Hneg | _]; [lia |].
  destruct (Z.leb_spec 0 i) as [_ | Hneg]; [| lia].
  destruct (Z.ltb_spec i (Z.of_nat (length l))) as [_ | Hge]; [| lia].
  simpl. destruct (nth_error l (Z.to_nat i)) as [x |] eqn:Hn.
  - exists x. split; reflexivity.
  - apply nth_error_None in Hn. lia.
Qed.

Lemma nine_steps_length (p d h : Position) : length (nine_steps p d h) = 9%nat.
Proof. destruct p as [[? ?] ?], d as [[? ?] ?]. reflexivity. Qed.

End ReachFacts.

(** X1, at the controller seven ticks into a red mission. *)
Lemma X1_reachable_controller_shape_witness :
  exists s : RobotArm.Sim,
    RobotArm.ticks (repeat (1%Q, 2%Q) 7)
      (started 0 (150, 120, 20) (100, 350, 50) "Red" RobotArm.init) = Ok s /\
    RobotArm.reachable s /\
    RobotArm.mission_progress s = 14 /\
    controller_shape s.
Proof.
  eexists. split; [vm_compute; reflexivity |].
  match goal with
  | |- RobotArm.reachable ?s /\ _ => assert (Hr : RobotArm.reachable s)
  end.
  { apply (reachable_ticks (repeat (1%Q, 2%Q) 7)
             (started 0 (150, 120, 20) (100, 350, 50) "Red" RobotArm.init)).
    - exact reachable_red_mission.
    - vm_compute. reflexivity. }
  split; [exact Hr |]. split; [reflexivity |].
  exact (X1_reachable_controller_shape _ Hr).
Defined.

(** X2. In every reached controller state [get_status] returns: the
    ready text when idle, and when moving the text of the current mission
    with the description of the step [get_current_step] returns, which is
    step [k] of the nine (counted from 0) exactly while the progress [p]
    satisfies [100 k <= 9 p < 100 (k + 1)]; neither raises. *)
Theorem X2_status_of_reachable_controller :
  forall s : RobotArm.Sim,
    RobotArm.reachable s ->
    (RobotArm.is_moving s = false ->
     RobotArm.get_status s = Ok "READY - Select object to pick"%string) /\
    (RobotArm.is_moving s = true ->
     exists (m : RobotArm.Mission) (k : Z) (step : RobotArm.Step),
       RobotArm.current_mission s = Some m /\
       0 <= k <= 8 /\
       100 * k <= 9 * RobotArm.mission_progress s < 100 * (k + 1) /\
       nth_error (RobotArm.mission_steps s) (Z.to_nat k) = Some step /\
       RobotArm.get_current_step s = Ok (Some step) /\
       RobotArm.get_status s
       = Ok ("MISSION: " +:+ RobotArm.object_color m +:+ " - "
               +:+ RobotArm.description_of step
               +:+ match RobotArm.batch_queue s with
                   | [] => ""
                   | _ :: _ =>
                       " (+" +:+ pretty (length (RobotArm.batch_queue s))
                         +:+ " in queue)"
                   end)).
Proof.
  intros s Hr. pose proof (reachable_shape s Hr) as Hs.
  destruct Hs as (_ & Hp & _ & _ & Hcase). split.
  - intros Hm. unfold RobotArm.get_status. rewrite Hm. reflexivity.
  - intros Hm. rewrite Hm in Hcase. destruct Hcase as (m & d & Hcur & Hd & Hsteps).
    set (k := RobotArm.mission_progress s * 9 / 100).
    assert (Hk : 0 <= k <= 8).
    { unfold k. split; [apply Z.div_pos; lia |].
      assert (RobotArm.mission_progress s * 9 / 100 < 9)
        by (apply Z.div_lt_upper_bound; lia).
      lia. }
    assert (Hbounds : 100 * k <= 9 * RobotArm.mission_progress s < 100 * (k + 1)).
    { unfold k.
      pose proof (Z.mul_div_le (RobotArm.mission_progress s * 9) 100 ltac:(lia)).
      pose proof (Z.mul_succ_div_gt (RobotArm.mission_progress s * 9) 100 ltac:(lia)).
      lia. }
    destruct (py_index_in_range (RobotArm.mission_steps s) k) as (step & Hnth & Hidx).
    { rewrite Hsteps, nine_steps_length. lia. }
    assert (Hstep : RobotArm.get_current_step s = Ok (Some step)).
    { unfold RobotArm.get_current_step. rewrite Hcur.
      pose proof (nine_steps_length (RobotArm.object_pos m) d home) as Hlen.
      rewrite <- Hsteps in Hlen.
      destruct (RobotArm.mission_steps s) as [| st0 rest] eqn:Hms;
        [discriminate Hlen |].
      cbv zeta. rewrite Hlen. change (Z.of_nat 9) with 9.
      rewrite step_index_nine by exact Hp. fold k. rewrite Hidx.
      reflexivity. }
    exists m, k, step. repeat split; try assumption; try lia.
    unfold RobotArm.get_status. rewrite Hm, Hcur, Hstep. reflexivity.
Qed.

(** X2, at the controller seven ticks into a red mission: progress 14,
    second step. *)
Lemma X2_status_of_reachable_controller_witness :
  exists s : RobotArm.Sim,
    RobotArm.ticks (repeat (1%Q, 2%Q) 7)
      (started 0 (150, 120, 20) (100, 350, 50) "Red" RobotArm.init) = Ok s /\
    RobotArm.reachable s /\
    RobotArm.get_status s = Ok "MISSION: Red - Lower to object"%string /\
    exists step, RobotArm.get_current_step s = Ok (Some step).
Proof.
  eexists. split; [vm_compute; reflexivity |].
  match goal with
  | |- RobotArm.reachable ?s /\ _ => assert (Hr : RobotArm.reachable s)
  end.
  { apply (reachable_ticks (repeat (1%Q, 2%Q) 7)
             (started 0 (150, 120, 20) (100, 350, 50) "Red" RobotArm.init)).
    - exact reachable_red_mission.
    - vm_compute. reflexivity. }
  split; [exact Hr |]. split; [vm_compute; reflexivity |].
  destruct (proj2 (X2_status_of_reachable_controller _ Hr) eq_refl)
    as (m & k & step & _ & _ & _ & _ & Hstep & _).
  exists step. exact Hstep.
Defined.

Section PerformanceFacts.
Import RobotArm.

Lemma durations_sum_zero (l : list PickRecord) :
  fold_right Qplus 0%Q (List.map duration_or_0 l) = 0%Q.
Proof.
  induction l as [| e l IH]; [reflexivity |]. simpl. rewrite IH. reflexivity.
Qed.

Lemma Qdiv_same_times_100 (n : Z) :
  0 < n -> (inject_Z n / inject_Z (Z.max n 1) * inject_Z 100 == 100)%Q.
Proof.
  intros Hn. rewrite Z.max_l by lia.
  assert (Hne : ~ (inject_Z n == 0)%Q).
  { unfold Qeq, inject_Z. simpl. lia. }
  unfold Qdiv. rewrite Qmult_inv_r by exact Hne. reflexivity.
Qed.

End PerformanceFacts.

(** X3. In every reached controller state [get_performance_metrics]
    reports as [total_missions] the value of [total_picks], a
    [recent_avg_time] of 0 (no history entry carries a duration), and a
    [success_rate] of 0 before the first pick and of exactly 100 from then
    on; the division by [max(total_picks, 1)] never fails. *)
Theorem X3_performance_of_reachable_controller :
  forall s : RobotArm.Sim,
    RobotArm.reachable s ->
    let pm := RobotArm.get_performance_metrics s in
    RobotArm.perf_metrics pm = RobotArm.metrics s /\
    RobotArm.total_missions pm = RobotArm.total_picks (RobotArm.metrics s) /\
    (RobotArm.recent_avg_time pm == 0)%Q /\
    (RobotArm.pick_history s = [] -> (RobotArm.success_rate pm == 0)%Q) /\
    (RobotArm.pick_history s <> [] -> (RobotArm.success_rate pm == 100)%Q).
Proof.
  intros s Hr pm.
  destruct (reachable_consistent s Hr) as (Ht & Hs & _ & _).
  unfold pm, RobotArm.get_performance_metrics. simpl.
  split; [reflexivity |]. split; [symmetry; exact Ht |].
  split; [rewrite durations_sum_zero; unfold Qdiv; apply Qmult_0_l |].
  rewrite Hs, Ht. split.
  - intros ->. reflexivity.
  - intros Hne. apply Qdiv_same_times_100.
    destruct (RobotArm.pick_history s); [contradiction | simpl; lia].
Qed.

(** X3, at the controller that has completed one red pick. *)
Lemma X3_performance_of_reachable_controller_witness :
  exists s : RobotArm.Sim,
    RobotArm.ticks (repeat (1%Q, 2%Q) 50)
      (started 0 (150, 120, 20) (100, 350, 50) "Red" RobotArm.init) = Ok s /\
    RobotArm.reachable s /\
    RobotArm.total_missions (RobotArm.get_performance_metrics s) = 1 /\
    (RobotArm.success_rate (RobotArm.get_performance_metrics s) == 100)%Q.
Proof.
  eexists. split; [vm_compute; reflexivity |].
  match goal with
  | |- RobotArm.reachable ?s /\ _ => assert (Hr : RobotArm.reachable s)
  end.
  { apply (reachable_ticks (repeat (1%Q, 2%Q) 50)
             (started 0 (150, 120, 20) (100, 350, 50) "Red" RobotArm.init)).
    - exact reachable_red_mission.
    - vm_compute. reflexivity. }
  split; [exact Hr |]. split; [reflexivity |].
  apply (X3_performance_of_reachable_controller _ Hr). discriminate.
Defined.

(** X4. A single pick is not counted as a batch: from an idle reached
    controller, [start_mission] for a colour with a drop zone followed by
    50 ticks leaves the controller idle with one more history entry and
    [batch_completions] unchanged. *)
Theorem X4_single_pick_is_no_batch :
  forall (s : RobotArm.Sim) (now : Q) (p : Position) (c : string)
         (clock : list (Q * Q)),
    RobotArm.reachable s ->
    RobotArm.is_moving s = false ->
    c ∈ ["Red"; "Green"; "Blue"]%string ->
    length clock = 50%nat ->
    exists s1 s' : RobotArm.Sim,
      RobotArm.start_mission now p c s = Ok s1 /\
      RobotArm.ticks clock s1 = Ok s' /\
      RobotArm.is_moving s' = false /\
      RobotArm.batch_completions (RobotArm.metrics s')
      = RobotArm.batch_completions (RobotArm.metrics s) /\
      RobotArm.total_picks (RobotArm.metrics s')
      = RobotArm.total_picks (RobotArm.metrics s) + 1 /\
      List.map entry_key (RobotArm.pick_history s')
      = List.map entry_key (RobotArm.pick_history s) ++ [(c, p)].
Proof.
  intros s now p c clock Hr Hidle Hc Hlen.
  pose proof (reachable_shape s Hr) as (_ & _ & _ & _ & Hcase).
  rewrite Hidle in Hcase. destruct Hcase as (_ & Hq & Hbm & _).
  destruct (drop_of_known c Hc) as (d & Hlook & Hd).
  exists (started now p d c s).
  assert (Hf : mission_fresh (started now p d c s)).
  { unfold mission_fresh. simpl. rewrite Hq.
    repeat split; [| constructor]. eexists. split; [reflexivity |].
    simpl. rewrite Hlook. eauto. }
  destruct (fifty_ticks clock _ Hf Hlen) as (t & t' & Hticks).
  destruct (complete_mission_fresh_returns t t' _ Hf) as [s' Hs'].
  exists s'. split; [apply start_mission_idle; assumption |].
  split; [rewrite Hticks; exact Hs' |].
  apply complete_mission_ok in Hs'
    as (m & d' & Hm & _ & Hh & Hmet & _ & _ & _ & Hcase).
  simpl in Hm, Hh, Hmet, Hcase. injection Hm as <-.
  rewrite Hq in Hcase. destruct Hcase as (Hmov & _).
  rewrite Hbm in Hmet. simpl in Hmet.
  split; [exact Hmov |]. rewrite Hmet, Hh, map_app. simpl.
  repeat split; reflexivity.
Qed.

(** X4, at the initial controller and a green object. *)
Lemma X4_single_pick_is_no_batch_witness :
  exists s1 s' : RobotArm.Sim,
    RobotArm.start_mission 0 (300, 100, 20) "Green" RobotArm.init = Ok s1 /\
    RobotArm.ticks (repeat (1%Q, 2%Q) 50) s1 = Ok s' /\
    RobotArm.batch_completions (RobotArm.metrics s') = 0 /\
    RobotArm.total_picks (RobotArm.metrics s') = 1.
Proof.
  destruct (X4_single_pick_is_no_batch RobotArm.init 0%Q (300, 100, 20) "Green"
              (repeat (1%Q, 2%Q) 50) RobotArm.reachable_init eq_refl)
    as (s1 & s' & H1 & H2 & _ & Hbc & Htp & _).
  - apply list_elem_of_further, list_elem_of_here.
  - reflexivity.
  - exists s1, s'. repeat split; assumption.
Defined.

(** ** What the detector builds *)

Section DetectorOutput.
Import ColorDetection.
Context {Frame HSVFrame Mask Contour : Type}.
Context (GaussianBlur : Frame -> Frame)
        (cvtColor_BGR2HSV : Frame -> HSVFrame)
        (frame_shape : Frame -> Z * Z)
        (zeros : HSVFrame -> Mask)
        (inRange : HSVFrame -> HSV -> HSV -> Mask)
        (bitwise_or : Mask -> Mask -> Mask)
        (morph_open morph_close dilate : Mask -> Mask)
        (findContours : Mask -> list Contour)
        (contourArea : Contour -> Q)
        (convexHull : Contour -> Contour)
        (boundingRect : Contour -> Z * Z * Z * Z).

Lemma contour_object_built (cnt : Contour) (c : string) (height width : Z)
    (obj : DetectedObject) :
  contour_object contourArea boundingRect cnt c height width = Ok obj ->
  color obj = c /\ ident obj = object_id c (pixel_pos obj) /\
  bbox obj = boundingRect cnt /\
  (let '(x, y, w, h) := bbox obj in
   pixel_pos obj = (x + w / 2, y + h / 2) /\ size_wh obj = (w, h) /\
   robot_pos obj = (Z.quot ((x + w / 2) * 600) width,
                    Z.quot ((y + h / 2) * 400) height, 20)) /\
  width <> 0 /\ height <> 0.
Proof.
  unfold contour_object. destruct (boundingRect cnt) as [[[x y] w] h].
  destruct (Z.eqb_spec width 0); [discriminate |].
  destruct (Z.eqb_spec height 0); [discriminate |].
  intros [= <-]. simpl. repeat split; assumption.
Qed.

Lemma process_contours_built (contours : list Contour) (c : string)
    (shape : Z * Z) : forall objs : list DetectedObject,
  process_contours contourArea boundingRect contours c shape = Ok objs ->
  Forall2 (fun cnt obj =>
             contour_object contourArea boundingRect cnt c (fst shape) (snd shape)
             = Ok obj) contours objs.
Proof.
  induction contours as [| cnt rest IH]; intros objs; simpl.
  - intros [= <-]. constructor.
  - destruct (contour_object _ _ cnt c _ _) as [obj |] eqn:Hobj; simpl;
      [| discriminate].
    destruct (process_contours _ _ rest c shape) as [objs' |]; simpl;
      [| discriminate].
    intros [= <-]. constructor; [exact Hobj | apply IH; reflexivity].
Qed.

(** The three rounds of the loop of [detect_objects]. *)
Lemma detect_objects_rounds (csv : option DataFrame) (frame : Frame)
    (min_area : Q) (objs : list DetectedObject) :
  detect_objects GaussianBlur cvtColor_BGR2HSV frame_shape zeros inRange
    bitwise_or morph_open morph_close dilate findContours contourArea
    convexHull boundingRect (new_detector csv) frame min_area = Ok objs ->
  exists (mr mg mb : Mask) (reds greens blues : list DetectedObject),
    objs = reds ++ greens ++ blues /\
    process_contours contourArea boundingRect
      (find_contours findContours contourArea convexHull mr min_area)
      "Red" (frame_shape frame) = Ok reds /\
    process_contours contourArea boundingRect
      (find_contours findContours contourArea convexHull mg min_area)
      "Green" (frame_shape frame) = Ok greens /\
    process_contours contourArea boundingRect
      (find_contours findContours contourArea convexHull mb min_area)
      "Blue" (frame_shape frame) = Ok blues.
Proof.
  unfold detect_objects. simpl.
  unfold create_color_mask. simpl.
  match goal with
  | |- context [process_contours _ _ (find_contours _ _ _ ?m _) "Red" _] =>
      set (mr := m)
  end.
  destruct (process_contours _ _ _ "Red" _) as [reds |] eqn:Hr; simpl;
    [| discriminate].
  match goal with
  | |- context [process_contours _ _ (find_contours _ _ _ ?m _) "Green" _] =>
      set (mg := m)
  end.
  destruct (process_contours _ _ _ "Green" _) as [greens |] eqn:Hg; simpl;
    [| discriminate].
  match goal with
  | |- context [process_contours _ _ (find_contours _ _ _ ?m _) "Blue" _] =>
      set (mb := m)
  end.
  destruct (process_contours _ _ _ "Blue" _) as [blues |] eqn:Hb; simpl;
    [| discriminate].
  intros [= <-]. exists mr, mg, mb, reds, greens, blues.
  rewrite <- app_assoc. repeat split; assumption.
Qed.

Lemma built_from_detector (cnt : Contour) (c : string) (height width : Z)
    (obj : DetectedObject) :
  c ∈ detector_colors ->
  contour_object contourArea boundingRect cnt c height width = Ok obj ->
  from_detector obj /\ color obj = c.
Proof.
  intros Hc H. apply contour_object_built in H
    as (Hcol & Hid & _ & Hbox & _).
  unfold from_detector. rewrite Hcol.
  destruct (bbox obj) as [[[x y] w] h]. destruct Hbox as (Hp & Hs & Hr).
  repeat split; try assumption. rewrite Hr. reflexivity.
Qed.

Lemma round_from_detector (contours : list Contour) (c : string)
    (shape : Z * Z) (objs : list DetectedObject) :
  c ∈ detector_colors ->
  process_contours contourArea boundingRect contours c shape = Ok objs ->
  Forall (fun obj => from_detector obj /\ color obj = c) objs.
Proof.
  intros Hc H. apply process_contours_built in H.
  induction H as [| cnt obj contours objs Hobj _ IH]; constructor.
  - exact (built_from_detector cnt c _ _ obj Hc Hobj).
  - exact IH.
Qed.

End DetectorOutput.

Section SortedFacts.
Context {A : Type} (key : A -> Z).

(** A stable sort leaves a sorted list as it is. *)
Lemma sorted_by_of_sorted (l : list A) :
  StronglySorted (fun a b => key a <= key b) l -> sorted_by key l = l.
Proof.
  induction 1 as [| x l Hs IH Hall]; [reflexivity |].
  cbn [sorted_by]. rewrite IH. destruct l as [| y l']; [reflexivity |].
  cbn [insert_by]. apply Forall_cons in Hall as [Hxy _].
  destruct (Z.leb_spec (key x) (key y)); [reflexivity | lia].
Qed.

Lemma sorted_blocks (a : Z) (l1 l2 : list A) :
  Forall (fun x => key x = a) l1 ->
  Forall (fun x => a <= key x) l2 ->
  StronglySorted (fun x y => key x <= key y) l2 ->
  StronglySorted (fun x y => key x <= key y) (l1 ++ l2).
Proof.
  intros H1 H2 Hs. induction H1 as [| x l1 Hx H1 IH]; [exact Hs |].
  simpl. constructor; [exact IH |].
  apply Forall_app. split.
  - eapply Forall_impl; [exact H1 |]. simpl. intros y Hy. lia.
  - eapply Forall_impl; [exact H2 |]. simpl. intros y Hy. lia.
Qed.

End SortedFacts.

(** Objects grouped by colour in the order Red, Green, Blue are sorted
    by the batch priority. *)
Lemma grouped_sorted (reds greens blues : list DetectedObject) :
  Forall (fun o => color o = "Red"%string) reds ->
  Forall (fun o => color o = "Green"%string) greens ->
  Forall (fun o => color o = "Blue"%string) blues ->
  StronglySorted (fun a b => by_priority a <= by_priority b)
    (reds ++ greens ++ blues).
Proof.
  intros Hreds Hgreens Hblues.
  apply (sorted_blocks by_priority 0).
  - eapply Forall_impl; [exact Hreds |]. intros o Ho.
    unfold by_priority. rewrite Ho. reflexivity.
  - apply Forall_app. split.
    + eapply Forall_impl; [exact Hgreens |]. intros o Ho.
      unfold by_priority. rewrite Ho. vm_compute. discriminate.
    + eapply Forall_impl; [exact Hblues |]. intros o Ho.
      unfold by_priority. rewrite Ho. vm_compute. discriminate.
  - apply (sorted_blocks by_priority 1).
    + eapply Forall_impl; [exact Hgreens |]. intros o Ho.
      unfold by_priority. rewrite Ho. reflexivity.
    + eapply Forall_impl; [exact Hblues |]. intros o Ho.
      unfold by_priority. rewrite Ho. vm_compute. discriminate.
    + rewrite <- (app_nil_r blues).
      apply (sorted_blocks by_priority 2 blues []).
      * eapply Forall_impl; [exact Hblues |]. intros o Ho.
        unfold by_priority. rewrite Ho. reflexivity.
      * constructor.
      * constructor.
Qed.

(** X5. Every object [detect_objects] returns has a colour among Red,
    Green and Blue, the identity [colour_cx_cy] spelled from its colour and
    pixel centre, the centre and size of its bounding box, and height 20;
    and the objects come grouped by colour in the order Red, Green, Blue,
    which is the order of the batch priority. *)
Theorem X5_detected_objects_built :
  forall (Frame HSVFrame Mask Contour : Type)
         (GaussianBlur : Frame -> Frame)
         (cvtColor_BGR2HSV : Frame -> HSVFrame)
         (frame_shape : Frame -> Z * Z)
         (zeros : HSVFrame -> Mask)
         (inRange : HSVFrame -> ColorDetection.HSV -> ColorDetection.HSV -> Mask)
         (bitwise_or : Mask -> Mask -> Mask)
         (morph_open morph_close dilate : Mask -> Mask)
         (findContours : Mask -> list Contour)
         (contourArea : Contour -> Q)
         (convexHull : Contour -> Contour)
         (boundingRect : Contour -> Z * Z * Z * Z)
         (csv : option ColorDetection.DataFrame)
         (frame : Frame) (min_area : Q) (objs : list DetectedObject),
    ColorDetection.detect_objects GaussianBlur cvtColor_BGR2HSV frame_shape
      zeros inRange bitwise_or morph_open morph_close dilate findContours
      contourArea convexHull boundingRect
      (ColorDetection.new_detector csv) frame min_area = Ok objs ->
    Forall from_detector objs /\
    (exists reds greens blues : list DetectedObject,
        objs = reds ++ greens ++ blues /\
        Forall (fun o => color o = "Red"%string) reds /\
        Forall (fun o => color o = "Green"%string) greens /\
        Forall (fun o => color o = "Blue"%string) blues) /\
    StronglySorted (fun a b => by_priority a <= by_priority b) objs.
Proof.
  intros until objs. intros H.
  apply detect_objects_rounds in H
    as (mr & mg & mb & reds & greens & blues & -> & Hr & Hg & Hb).
  apply round_from_detector in Hr; [| unfold detector_colors; set_solver].
  apply round_from_detector in Hg; [| unfold detector_colors; set_solver].
  apply round_from_detector in Hb; [| unfold detector_colors; set_solver].
  assert (Hreds : Forall (fun o => color o = "Red"%string) reds)
    by (eapply Forall_impl; [exact Hr |]; intros o [_ Ho]; exact Ho).
  assert (Hgreens : Forall (fun o => color o = "Green"%string) greens)
    by (eapply Forall_impl; [exact Hg |]; intros o [_ Ho]; exact Ho).
  assert (Hblues : Forall (fun o => color o = "Blue"%string) blues)
    by (eapply Forall_impl; [exact Hb |]; intros o [_ Ho]; exact Ho).
  split; [| split].
  - rewrite !Forall_app. split; [| split].
    + eapply Forall_impl; [exact Hr |]. intros o [Ho _]. exact Ho.
    + eapply Forall_impl; [exact Hg |]. intros o [Ho _]. exact Ho.
    + eapply Forall_impl; [exact Hb |]. intros o [Ho _]. exact Ho.
  - exists reds, greens, blues. repeat split; assumption.
  - apply grouped_sorted; assumption.
Qed.

(** X5, on a stand-in frame with one red and one blue box. *)
Lemma X5_detected_objects_built_witness :
  exists objs : list DetectedObject,
    toy_detect None (480, 640) 1000 = Ok objs /\
    List.map ident objs = ["Red_100_300"; "Blue_500_100"]%string /\
    Forall from_detector objs.
Proof.
  eexists. split; [vm_compute; reflexivity |]. split; [reflexivity |].
  refine (proj1 (X5_detected_objects_built _ _ _ _
                   (fun f : Z * Z => f) (fun _ : Z * Z => tt)
                   (fun f : Z * Z => f) (fun _ : unit => []) toy_inRange
                   (fun a b => a ++ b) (fun m => m) (fun m => m) (fun m => m)
                   (fun m => m) toy_area (fun c => c) (fun c => c)
                   None (480, 640) 1000%Q _ _)).
  vm_compute. reflexivity.
Defined.

Section DetectorComposition.
Import ColorDetection.
Context {Frame HSVFrame Mask Contour : Type}.
Context (GaussianBlur : Frame -> Frame)
        (cvtColor_BGR2HSV : Frame -> HSVFrame)
        (frame_shape : Frame -> Z * Z)
        (zeros : HSVFrame -> Mask)
        (inRange : HSVFrame -> HSV -> HSV -> Mask)
        (bitwise_or : Mask -> Mask -> Mask)
        (morph_open morph_close dilate : Mask -> Mask)
        (findContours : Mask -> list Contour)
        (contourArea : Contour -> Q)
        (convexHull : Contour -> Contour)
        (boundingRect : Contour -> Z * Z * Z * Z).

Lemma detect_objects_from_detector (csv : option DataFrame) (frame : Frame)
    (min_area : Q) (objs : list DetectedObject) :
  detect_objects GaussianBlur cvtColor_BGR2HSV frame_shape zeros inRange
    bitwise_or morph_open morph_close dilate findContours contourArea
    convexHull boundingRect (new_detector csv) frame min_area = Ok objs ->
  Forall from_detector objs /\
  StronglySorted (fun a b => by_priority a <= by_priority b) objs.
Proof.
  intros H. apply detect_objects_rounds in H
    as (mr & mg & mb & reds & greens & blues & -> & Hr & Hg & Hb).
  apply round_from_detector in Hr; [| unfold detector_colors; set_solver].
  apply round_from_detector in Hg; [| unfold detector_colors; set_solver].
  apply round_from_detector in Hb; [| unfold detector_colors; set_solver].
  split.
  - rewrite !Forall_app. split; [| split].
    + eapply Forall_impl; [exact Hr |]. intros o [Ho _]. exact Ho.
    + eapply Forall_impl; [exact Hg |]. intros o [Ho _]. exact Ho.
    + eapply Forall_impl; [exact Hb |]. intros o [Ho _]. exact Ho.
  - apply grouped_sorted.
    + eapply Forall_impl; [exact Hr |]. intros o [_ Ho]. exact Ho.
    + eapply Forall_impl; [exact Hg |]. intros o [_ Ho]. exact Ho.
    + eapply Forall_impl; [exact Hb |]. intros o [_ Ho]. exact Ho.
Qed.

(** A contour whose box lies inside the frame gives an object, and its
    robot position lies in the workspace. *)
Lemma contour_object_inside (cnt : Contour) (c : string) (height width : Z) :
  box_inside (boundingRect cnt) (height, width) ->
  exists obj,
    contour_object contourArea boundingRect cnt c height width = Ok obj /\
    in_workspace (robot_pos obj).
Proof.
  unfold box_inside, contour_object.
  destruct (boundingRect cnt) as [[[x y] w] h].
  intros (Hx & Hy & Hw & Hh & Hxw & Hyh).
  destruct (Z.eqb_spec width 0); [lia |].
  destruct (Z.eqb_spec height 0); [lia |].
  eexists. split; [reflexivity |]. simpl.
  assert (0 <= w / 2 < w).
  { split; [apply Z.div_pos; lia | apply Z.div_lt_upper_bound; lia]. }
  assert (0 <= h / 2 < h).
  { split; [apply Z.div_pos; lia | apply Z.div_lt_upper_bound; lia]. }
  rewrite !Z.quot_div_nonneg by nia.
  repeat split.
  - apply Z.div_pos; nia.
  - apply Z.div_lt_upper_bound; nia.
  - apply Z.div_pos; nia.
  - apply Z.div_lt_upper_bound; nia.
Qed.

Lemma process_contours_inside (contours : list Contour) (c : string)
    (shape : Z * Z) :
  Forall (fun cnt => box_inside (boundingRect cnt) shape) contours ->
  exists objs,
    process_contours contourArea boundingRect contours c shape = Ok objs /\
    Forall (fun o => in_workspace (robot_pos o)) objs.
Proof.
  destruct shape as [height width].
  induction 1 as [| cnt rest Hcnt _ (objs & Hobjs & Hall)].
  - exists []. split; [reflexivity | constructor].
  - destruct (contour_object_inside cnt c height width Hcnt) as (obj & Hobj & Hin).
    exists (obj :: objs). simpl. simpl in Hobj. rewrite Hobj. simpl.
    rewrite Hobjs. simpl. split; [reflexivity |].
    constructor; assumption.
Qed.

Lemma find_contours_inside (mask : Mask) (min_area : Q) (shape : Z * Z) :
  (forall m cnt, In cnt (findContours m) -> box_inside (boundingRect cnt) shape) ->
  Forall (fun cnt => box_inside (boundingRect cnt) shape)
    (find_contours findContours contourArea convexHull mask min_area).
Proof.
  intros H. apply List.Forall_forall. intros cnt Hin.
  unfold find_contours in Hin. apply filter_In in Hin as [Hin _].
  exact (H mask cnt Hin).
Qed.

Lemma detect_objects_inside (csv : option DataFrame) (frame : Frame)
    (min_area : Q) :
  (forall m cnt, In cnt (findContours m) ->
                 box_inside (boundingRect cnt) (frame_shape frame)) ->
  exists objs,
    detect_objects GaussianBlur cvtColor_BGR2HSV frame_shape zeros inRange
      bitwise_or morph_open morph_close dilate findContours contourArea
      convexHull boundingRect (new_detector csv) frame min_area = Ok objs /\
    Forall (fun o => in_workspace (robot_pos o)) objs.
Proof.
  intros Hin. unfold detect_objects. simpl. unfold create_color_mask. simpl.
  match goal with
  | |- context [process_contours _ _ (find_contours _ _ _ ?m _) "Red" _] =>
      destruct (process_contours_inside _ "Red" (frame_shape frame)
                  (find_contours_inside m min_area _ Hin))
        as (reds & -> & Hreds)
  end. simpl.
  match goal with
  | |- context [process_contours _ _ (find_contours _ _ _ ?m _) "Green" _] =>
      destruct (process_contours_inside _ "Green" (frame_shape frame)
                  (find_contours_inside m min_area _ Hin))
        as (greens & -> & Hgreens)
  end. simpl.
  match goal with
  | |- context [process_contours _ _ (find_contours _ _ _ ?m _) "Blue" _] =>
      destruct (process_contours_inside _ "Blue" (frame_shape frame)
                  (find_contours_inside m min_area _ Hin))
        as (blues & -> & Hblues)
  end. simpl.
  eexists. split; [reflexivity |].
  rewrite !Forall_app. repeat split; assumption.
Qed.

End DetectorComposition.

(** X6. The objects [detect_objects] returns are already in batch order:
    the stable sort of [start_all_objects_batch] leaves them as they are,
    so from an idle controller a batch over a non-empty detection list
    starts the first detection and queues the others in detection order,
    and it does not raise. *)
Theorem X6_batch_keeps_detection_order :
  forall (Frame HSVFrame Mask Contour : Type)
         (GaussianBlur : Frame -> Frame)
         (cvtColor_BGR2HSV : Frame -> HSVFrame)
         (frame_shape : Frame -> Z * Z)
         (zeros : HSVFrame -> Mask)
         (inRange : HSVFrame -> ColorDetection.HSV -> ColorDetection.HSV -> Mask)
         (bitwise_or : Mask -> Mask -> Mask)
         (morph_open morph_close dilate : Mask -> Mask)
         (findContours : Mask -> list Contour)
         (contourArea : Contour -> Q)
         (convexHull : Contour -> Contour)
         (boundingRect : Contour -> Z * Z * Z * Z)
         (csv : option ColorDetection.DataFrame)
         (frame : Frame) (min_area : Q) (objs : list DetectedObject)
         (s : RobotArm.Sim) (now : Q),
    ColorDetection.detect_objects GaussianBlur cvtColor_BGR2HSV frame_shape
      zeros inRange bitwise_or morph_open morph_close dilate findContours
      contourArea convexHull boundingRect
      (ColorDetection.new_detector csv) frame min_area = Ok objs ->
    sorted_by by_priority objs = objs /\
    (RobotArm.is_moving s = false -> objs <> [] ->
     exists s1 : RobotArm.Sim,
       RobotArm.start_all_objects_batch now objs s = Ok s1 /\
       RobotArm.is_moving s1 = true /\ RobotArm.batch_mode s1 = true /\
       pending s1 = List.map object_key objs).
Proof.
  intros until now. intros H.
  apply detect_objects_from_detector in H as [Hfrom Hsorted].
  apply (sorted_by_of_sorted by_priority) in Hsorted.
  split; [exact Hsorted |]. intros Hidle Hne.
  destruct objs as [| o rest]; [contradiction |].
  destruct (start_batch_pick_idle now o rest s Hidle)
    as (s1 & Hstart & Hf & Hbm & Hq & Hcur & _).
  { eapply Forall_impl; [exact Hfrom |]. intros x (Hc & _).
    apply known_color_drop. exact Hc. }
  exists s1. unfold RobotArm.start_all_objects_batch.
  change (sorted_by (fun x => RobotArm.color_priority (color x)) (o :: rest))
    with (sorted_by by_priority (o :: rest)).
  rewrite Hsorted. split; [exact Hstart |]. split; [apply Hf |].
  split; [exact Hbm |]. unfold pending. rewrite Hcur, Hq. reflexivity.
Qed.

(** X6, on the stand-in frame with one red and one blue box. *)
Lemma X6_batch_keeps_detection_order_witness :
  exists (objs : list DetectedObject) (s1 : RobotArm.Sim),
    toy_detect None (480, 640) 1000 = Ok objs /\
    List.map ident objs = ["Red_100_300"; "Blue_500_100"]%string /\
    RobotArm.start_all_objects_batch 0 objs RobotArm.init = Ok s1 /\
    pending s1 = List.map object_key objs.
Proof.
  eexists. 
  match goal with
  | |- exists s1, toy_detect _ _ _ = Ok ?o /\ _ =>
      assert (Hd : toy_detect None (480, 640) 1000 = Ok o)
        by (vm_compute; reflexivity)
  end.
  destruct (proj2 (X6_batch_keeps_detection_order _ _ _ _
                     (fun f : Z * Z => f) (fun _ : Z * Z => tt)
                     (fun f : Z * Z => f) (fun _ : unit => []) toy_inRange
                     (fun a b => a ++ b) (fun m => m) (fun m => m)
                     (fun m => m) (fun m => m) toy_area (fun c => c)
                     (fun c => c) None (480, 640) 1000%Q _ RobotArm.init 0%Q
                     Hd) eq_refl)
    as (s1 & Hstart & _ & _ & Hpend).
  { discriminate. }
  exists s1. split; [exact Hd |]. split; [reflexivity |].
  split; assumption.
Defined.

(** X7. When every contour's bounding box lies inside the frame (from
    the origin, at least one pixel wide and high), [detect_objects]
    returns without a division by zero, and the robot position of every
    object lies in the 600 by 400 workspace at height 20. *)
Theorem X7_detected_positions_in_workspace :
  forall (Frame HSVFrame Mask Contour : Type)
         (GaussianBlur : Frame -> Frame)
         (cvtColor_BGR2HSV : Frame -> HSVFrame)
         (frame_shape : Frame -> Z * Z)
         (zeros : HSVFrame -> Mask)
         (inRange : HSVFrame -> ColorDetection.HSV -> ColorDetection.HSV -> Mask)
         (bitwise_or : Mask -> Mask -> Mask)
         (morph_open morph_close dilate : Mask -> Mask)
         (findContours : Mask -> list Contour)
         (contourArea : Contour -> Q)
         (convexHull : Contour -> Contour)
         (boundingRect : Contour -> Z * Z * Z * Z)
         (csv : option ColorDetection.DataFrame)
         (frame : Frame) (min_area : Q),
    (forall (m : Mask) (cnt : Contour),
        In cnt (findContours m) ->
        box_inside (boundingRect cnt) (frame_shape frame)) ->
    exists objs : list DetectedObject,
      ColorDetection.detect_objects GaussianBlur cvtColor_BGR2HSV frame_shape
        zeros inRange bitwise_or morph_open morph_close dilate findContours
        contourArea convexHull boundingRect
        (ColorDetection.new_detector csv) frame min_area = Ok objs /\
      Forall (fun o => in_workspace (robot_pos o)) objs.
Proof.
  intros until min_area. intros Hin.
  destruct (detect_objects_inside GaussianBlur cvtColor_BGR2HSV frame_shape
              zeros inRange bitwise_or morph_open morph_close dilate
              findContours contourArea convexHull boundingRect csv frame
              min_area Hin) as (objs & Hobjs & Hall).
  exists objs. split; [exact Hobjs | exact Hall].
Qed.

(** X7, on a stand-in where every contour has the box (80, 280, 40, 40)
    in a 640 by 480 frame. *)
Lemma X7_detected_positions_in_workspace_witness :
  exists objs : list DetectedObject,
    ColorDetection.detect_objects
      (fun f : Z * Z => f) (fun _ : Z * Z => tt) (fun f : Z * Z => f)
      (fun _ : unit => []) toy_inRange (fun a b => a ++ b)
      (fun m => m) (fun m => m) (fun m => m) (fun m => m)
      toy_area (fun c => c) (fun _ => (80, 280, 40, 40))
      (ColorDetection.new_detector None) (480, 640) 1000 = Ok objs /\
    Forall (fun o => in_workspace (robot_pos o)) objs.
Proof.
  apply (X7_detected_positions_in_workspace _ _ _ _
           (fun f : Z * Z => f) (fun _ : Z * Z => tt) (fun f : Z * Z => f)
           (fun _ : unit => []) toy_inRange (fun a b => a ++ b)
           (fun m => m) (fun m => m) (fun m => m) (fun m => m)
           toy_area (fun c => c) (fun _ => (80, 280, 40, 40))
           None (480, 640) 1000%Q).
  intros m cnt _. unfold box_inside. lia.
Defined.

(** ** Identities *)

Section IdentityFacts.

Lemma pretty_N_go_no_underscore (x : N) : forall s : string,
  no_underscore s -> no_underscore (pretty_N_go x s).
Proof.
  induction (N.lt_wf_0 x) as [x _ IH]. intros s Hs.
  destruct (N.eq_dec x 0%N) as [-> | Hx].
  - rewrite pretty_N_go_0. exact Hs.
  - rewrite pretty_N_go_step by lia. apply IH.
    + apply N.div_lt; lia.
    + simpl. split; [| exact Hs].
      unfold pretty_N_char. repeat case_match; discriminate.
Qed.

Lemma pretty_Z_no_underscore (z : Z) : no_underscore (pretty z).
Proof.
  assert (Hpos : forall p : positive, no_underscore (pretty p)).
  { intros p. unfold pretty, pretty_positive, pretty, pretty_N.
    case_decide; [simpl; split; [discriminate | exact I] |].
    apply pretty_N_go_no_underscore. exact I. }
  destruct z as [| p | p]; unfold pretty, pretty_Z.
  - simpl. split; [discriminate | exact I].
  - apply Hpos.
  - simpl. split; [discriminate | apply Hpos].
Qed.

(** Two strings without the separator, each followed by the separator
    and a rest, are equal only part by part. *)
Lemma append_separator_inj (s1 : string) : forall s2 t1 t2 : string,
  no_underscore s1 -> no_underscore s2 ->
  s1 +:+ String "_" t1 = s2 +:+ String "_" t2 ->
  s1 = s2 /\ t1 = t2.
Proof.
  induction s1 as [| c s1 IH]; intros [| c2 s2] t1 t2 H1 H2; simpl.
  - intros [= ->]. split; reflexivity.
  - intros [= <- _]. destruct H2 as [Hc _]. contradiction.
  - intros [= -> _]. destruct H1 as [Hc _]. contradiction.
  - intros [= -> Hrest]. destruct H1 as [_ H1], H2 as [_ H2].
    destruct (IH s2 t1 t2 H1 H2 Hrest) as [-> ->]. split; reflexivity.
Qed.

(** The identity determines the colour and the position. *)
Lemma object_id_inj (c1 c2 : string) (p1 p2 : Pixel) :
  c1 ∈ detector_colors -> c2 ∈ detector_colors ->
  object_id c1 p1 = object_id c2 p2 -> c1 = c2 /\ p1 = p2.
Proof.
  unfold detector_colors. intros H1 H2.
  destruct p1 as [x1 y1], p2 as [x2 y2]. unfold object_id. simpl fst. simpl snd.
  repeat (apply elem_of_cons in H1 as [-> | H1]); [..| inversion H1];
    (repeat (apply elem_of_cons in H2 as [-> | H2]); [..| inversion H2]);
    simpl; intros H; try discriminate H;
    injection H as H;
    apply append_separator_inj in H as [Hx Hy];
    try apply pretty_Z_no_underscore;
    apply (inj pretty) in Hx; apply (inj pretty) in Hy; subst;
    split; reflexivity.
Qed.

End IdentityFacts.

(** X8. The identity [colour_cx_cy] is a faithful key: two objects built
    by the detector have the same identity exactly when they have the same
    colour and the same pixel position. *)
Theorem X8_identity_determines_colour_and_position :
  forall o1 o2 : DetectedObject,
    from_detector o1 -> from_detector o2 ->
    (ident o1 = ident o2
     <-> color o1 = color o2 /\ pixel_pos o1 = pixel_pos o2).
Proof.
  intros o1 o2 (Hc1 & Hid1 & _) (Hc2 & Hid2 & _). rewrite Hid1, Hid2. split.
  - apply object_id_inj; assumption.
  - intros [-> ->]. reflexivity.
Qed.

(** X8, on a red and a blue object at the same pixel and on the same
    object twice. *)
Lemma X8_identity_determines_colour_and_position_witness :
  ident (sample_object "Red" 100 300) <> ident (sample_object "Blue" 100 300) /\
  (ident (sample_object "Red" 100 300) = ident (sample_object "Red" 100 300)
   <-> color (sample_object "Red" 100 300) = color (sample_object "Red" 100 300)
       /\ pixel_pos (sample_object "Red" 100 300)
          = pixel_pos (sample_object "Red" 100 300)).
Proof.
  assert (Hfrom : forall c, c ∈ detector_colors ->
                            from_detector (sample_object c 100 300)).
  { intros c Hc. unfold from_detector. simpl.
    repeat split; try reflexivity. exact Hc. }
  split.
  - intros H.
    apply (X8_identity_determines_colour_and_position
             (sample_object "Red" 100 300) (sample_object "Blue" 100 300)) in H
      as [Hcol _].
    + discriminate Hcol.
    + apply Hfrom. unfold detector_colors. apply list_elem_of_here.
    + apply Hfrom. unfold detector_colors.
      apply list_elem_of_further, list_elem_of_further, list_elem_of_here.
  - apply X8_identity_determines_colour_and_position; apply Hfrom;
      unfold detector_colors; apply list_elem_of_here.
Defined.

(** ** The stabilizer on the detector's objects *)

Section StabilizerOnDetections.
Import ObjectTracker Main.

Lemma Forall_eq_repeat {A : Type} (x : A) (l : list A) :
  Forall (fun y => y = x) l -> l = repeat x (length l).
Proof.
  induction 1 as [| y l -> _ IH]; [reflexivity |]. simpl. f_equal. exact IH.
Qed.

Lemma sorted_by_repeat (v : Z) (n : nat) :
  sorted_by (fun x => x) (repeat v n) = repeat v n.
Proof.
  apply sorted_by_of_sorted. induction n as [| n IH]; simpl; constructor.
  - exact IH.
  - apply Forall_forall. intros y Hy. apply list_elem_of_In in Hy.
    apply repeat_spec in Hy as ->. lia.
Qed.

Lemma nth_repeat_lt (v d : Z) (n i : nat) :
  (i < n)%nat -> nth i (repeat v n) d = v.
Proof.
  revert i. induction n as [| n IH]; intros i Hi; [lia |].
  destruct i as [| i]; [reflexivity |]. simpl. apply IH. lia.
Qed.

(** The median of equal values is that value, for an odd and for an even
    count. *)
Lemma median_int_repeat (v : Z) (n : nat) :
  (0 < n)%nat -> ObjectTracker.median_int (repeat v n) = v.
Proof.
  intros Hn. unfold median_int. rewrite sorted_by_repeat, repeat_length.
  assert (Hhalf : (n / 2 < n)%nat) by (apply Nat.div_lt; lia).
  destruct (Nat.even n).
  - rewrite !nth_repeat_lt by lia.
    replace (v + v) with (v * 2) by lia. apply Z.quot_mul. lia.
  - apply nth_repeat_lt. exact Hhalf.
Qed.

Lemma median_position_const (p : Pixel) (buffer : list Pixel) :
  buffer <> [] -> Forall (fun q => q = p) buffer ->
  median_position buffer = p.
Proof.
  intros Hne Hall. rewrite (Forall_eq_repeat p buffer Hall).
  assert (Hn : (0 < length buffer)%nat)
    by (destruct buffer; [contradiction | simpl; lia]).
  unfold median_position. destruct p as [x y].
  rewrite !map_repeat. simpl fst. simpl snd.
  rewrite !median_int_repeat by exact Hn. reflexivity.
Qed.

Lemma deque_append_agree (n : positive) (old : list Pixel) (p : Pixel) :
  Forall (fun q => q = p) old ->
  Forall (fun q => q = p) (deque_append (Pos.to_nat n) old p) /\
  deque_append (Pos.to_nat n) old p <> [].
Proof.
  intros Hold. unfold deque_append. split.
  - apply Forall_drop. apply Forall_app. split; [exact Hold |].
    constructor; [reflexivity | constructor].
  - intros Hnil. apply (f_equal length) in Hnil.
    rewrite length_drop, length_app in Hnil. simpl in Hnil. lia.
Qed.

(** On an identity spelled from the position fed, [update] returns the
    position. *)
Lemma update_agree (c : string) (p : Pixel) (st : Stabilizer) :
  c ∈ detector_colors -> buffers_agree st ->
  fst (update (object_id c p) p st) = p /\
  buffers_agree (snd (update (object_id c p) p st)).
Proof.
  intros Hc Hag. rewrite update_returns. cbn [fst snd].
  assert (Hold : Forall (fun q => q = p) (buffer_of (object_id c p) st)).
  { unfold buffer_of.
    destruct (position_buffers st !! object_id c p) as [buf |] eqn:Hb; simpl.
    - exact (Hag c p buf Hc Hb).
    - constructor. }
  destruct (deque_append_agree (buffer_size st) _ p Hold) as [Hnew Hne].
  split.
  - destruct (_ =? _)%nat; [| reflexivity].
    apply median_position_const; assumption.
  - intros c' p' buf Hc'. simpl.
    destruct (decide (object_id c p = object_id c' p')) as [Heq | Hneq].
    + rewrite <- Heq, lookup_insert_eq. intros [= <-].
      apply object_id_inj in Heq as [_ <-]; assumption.
    + rewrite lookup_insert_ne by exact Hneq. apply Hag. exact Hc'.
Qed.

Lemma cleanup_agree (ids : list string) (st : Stabilizer) :
  buffers_agree st -> buffers_agree (cleanup ids st).
Proof.
  intros Hag c p buf Hc. unfold cleanup. simpl.
  intros H. apply map_lookup_filter_Some in H as [H _].
  exact (Hag c p buf Hc H).
Qed.

Lemma set_pixel_pos_same (obj : DetectedObject) :
  set_pixel_pos (pixel_pos obj) obj = obj.
Proof. destruct obj; reflexivity. Qed.

Lemma stabilize_agree (detected : list DetectedObject) : forall st : System,
  Forall from_detector detected ->
  buffers_agree (position_stabilizer st) ->
  fst (fst (stabilize detected st)) = detected /\
  snd (fst (stabilize detected st)) = List.map ident detected /\
  buffers_agree (position_stabilizer (snd (stabilize detected st))).
Proof.
  induction detected as [| obj rest IH]; intros st Hall Hag.
  - simpl. repeat split; try reflexivity. exact Hag.
  - apply Forall_cons in Hall as [(Hc & Hid & _) Hall].
    cbn [stabilize]. simpl position_stabilizer.
    destruct (update_agree (color obj) (pixel_pos obj) (position_stabilizer st)
                Hc Hag) as [Hret Hag1].
    rewrite <- Hid in Hret, Hag1.
    destruct (update (ident obj) (pixel_pos obj) (position_stabilizer st))
      as [stable_pos stab]. cbn [fst snd] in Hret, Hag1. subst stable_pos.
    specialize (IH (set_stabilizer stab
                      (Main.log (CallStabilizerUpdate (ident obj)) st))
                  Hall Hag1).
    destruct (stabilize rest _) as [[objs ids] st2]. cbn [fst snd] in *.
    destruct IH as (-> & -> & Hag2).
    rewrite set_pixel_pos_same. repeat split; try reflexivity. exact Hag2.
Qed.

Lemma process_frame_agree (detected : list DetectedObject) (st : System) :
  Forall from_detector detected ->
  buffers_agree (position_stabilizer st) ->
  fst (process_frame detected st) = detected /\
  buffers_agree (position_stabilizer (snd (process_frame detected st))).
Proof.
  intros Hall Hag. unfold process_frame.
  pose proof (stabilize_agree detected (Main.log CallDetectObjects st) Hall Hag)
    as (Hobjs & _ & Hag1).
  destruct (stabilize detected _) as [[objs ids] st1]. cbn [fst snd] in *.
  split; [exact Hobjs |]. simpl. apply cleanup_agree. exact Hag1.
Qed.

Lemma process_frames_agree (frames : list (list DetectedObject)) :
  forall st : System,
    Forall (Forall from_detector) frames ->
    buffers_agree (position_stabilizer st) ->
    process_frames frames st = frames.
Proof.
  induction frames as [| detected rest IH]; intros st Hall Hag;
    [reflexivity |].
  apply Forall_cons in Hall as [Hd Hall]. cbn [process_frames].
  pose proof (process_frame_agree detected st Hd Hag) as [Hobjs Hag1].
  destruct (process_frame detected st) as [objs st']. cbn [fst snd] in *.
  rewrite Hobjs, (IH st' Hall Hag1). reflexivity.
Qed.

Lemma buffers_agree_empty (n : positive) : buffers_agree (new_stabilizer n).
Proof. intros c p buf _. simpl. rewrite lookup_empty. discriminate. Qed.

End StabilizerOnDetections.

(** X9. On the detector's objects the stabilizer changes nothing: an
    identity spells the very position that is fed under it, so every
    buffer holds one position only and its median is that position.
    Started from a stabilizer whose buffers agree with their identities
    (an empty one does), [process_frame] returns every frame of detector
    objects exactly as it was given, frame after frame. *)
Theorem X9_stabilizer_keeps_detector_positions :
  forall (frames : list (list DetectedObject)) (st : Main.System),
    buffers_agree (Main.position_stabilizer st) ->
    Forall (Forall from_detector) frames ->
    process_frames frames st = frames.
Proof.
  intros frames st Hag Hall. apply process_frames_agree; assumption.
Qed.

Section SampleFacts.

Lemma sample_from_detector (c : string) (px py : Z) :
  c ∈ detector_colors -> from_detector (sample_object c px py).
Proof.
  intros Hc. unfold from_detector. simpl.
  repeat split; try reflexivity; try exact Hc.
  change (40 / 2) with 20. f_equal; lia.
Qed.

End SampleFacts.

(** X9, on six frames showing the same red and blue objects, from the
    initial system. *)
Lemma X9_stabilizer_keeps_detector_positions_witness :
  let shown := [sample_object "Red" 100 300; sample_object "Blue" 500 100] in
  process_frames (repeat shown 6) Main.init = repeat shown 6.
Proof.
  intros shown.
  apply (X9_stabilizer_keeps_detector_positions (repeat shown 6) Main.init).
  - exact (buffers_agree_empty 5).
  - assert (Hshown : Forall from_detector shown).
    { constructor; [| constructor; [| constructor]];
        apply sample_from_detector; unfold detector_colors.
      - apply list_elem_of_here.
      - apply list_elem_of_further, list_elem_of_further, list_elem_of_here. }
    simpl. repeat (constructor; [exact Hshown |]). constructor.
Defined.

(** ** The buffers of the stabilizer *)

Section BufferFacts.
Import ObjectTracker Main.

Lemma update_buffer (obj_id : string) (p : Pixel) (st : Stabilizer) :
  buffer_size (snd (update obj_id p st)) = buffer_size st /\
  (exists buffer,
      position_buffers (snd (update obj_id p st)) !! obj_id = Some buffer /\
      buffer_filled (buffer_size st) buffer) /\
  (forall other, other <> obj_id ->
     position_buffers (snd (update obj_id p st)) !! other
     = position_buffers st !! other).
Proof.
  rewrite update_returns. cbn [snd]. simpl. split; [reflexivity |]. split.
  - eexists. split; [apply lookup_insert_eq |].
    unfold buffer_filled. rewrite deque_append_length. lia.
  - intros other Hne. apply lookup_insert_ne. congruence.
Qed.

Lemma stabilize_buffers (detected : list DetectedObject) : forall st : System,
  snd (fst (stabilize detected st)) = List.map ident detected /\
  buffer_size (position_stabilizer (snd (stabilize detected st)))
  = buffer_size (position_stabilizer st) /\
  (forall obj_id,
      In obj_id (List.map ident detected) ->
      exists buffer,
        position_buffers (position_stabilizer (snd (stabilize detected st)))
          !! obj_id = Some buffer /\
        buffer_filled (buffer_size (position_stabilizer st)) buffer) /\
  (forall obj_id buffer,
      position_buffers (position_stabilizer st) !! obj_id = Some buffer ->
      buffer_filled (buffer_size (position_stabilizer st)) buffer ->
      exists buffer',
        position_buffers (position_stabilizer (snd (stabilize detected st)))
          !! obj_id = Some buffer' /\
        buffer_filled (buffer_size (position_stabilizer st)) buffer').
Proof.
  induction detected as [| obj rest IH]; intros st.
  - simpl. repeat split; try reflexivity.
    + intros obj_id [].
    + intros obj_id buffer Hb Hf. exists buffer. split; assumption.
  - cbn [stabilize]. simpl position_stabilizer.
    pose proof (update_buffer (ident obj) (pixel_pos obj) (position_stabilizer st))
      as (Hsize & (buf0 & Hbuf0 & Hfill0) & Hother).
    destruct (update (ident obj) (pixel_pos obj) (position_stabilizer st))
      as [stable_pos stab]. cbn [snd] in Hsize, Hbuf0, Hother.
    specialize (IH (set_stabilizer stab
                      (Main.log (CallStabilizerUpdate (ident obj)) st))).
    destruct (stabilize rest _) as [[objs ids] st2]. cbn [fst snd] in *.
    simpl position_stabilizer in IH. rewrite Hsize in IH.
    destruct IH as (Hids & Hsz & Hcover & Hkeep).
    split; [rewrite Hids; reflexivity |]. split; [exact Hsz |]. split.
    + intros obj_id [<- | Hin].
      * exact (Hkeep (ident obj) buf0 Hbuf0 Hfill0).
      * exact (Hcover obj_id Hin).
    + intros obj_id buffer Hb Hf.
      destruct (decide (obj_id = ident obj)) as [-> | Hne].
      * exact (Hkeep (ident obj) buf0 Hbuf0 Hfill0).
      * apply (Hkeep obj_id buffer); [| exact Hf].
        rewrite Hother by exact Hne. exact Hb.
Qed.

End BufferFacts.

(** X10. After [process_frame] the stabilizer keeps a buffer for exactly
    the identities of the frame's detections, whatever it held before, and
    every buffer has at least one entry and at most [buffer_size]: the
    memory of the stabilizer is bounded by the current frame. *)
Theorem X10_buffers_follow_the_frame :
  forall (detected : list DetectedObject) (st : Main.System),
    let stab := Main.position_stabilizer st in
    let stab' := Main.position_stabilizer (snd (Main.process_frame detected st)) in
    ObjectTracker.buffer_size stab' = ObjectTracker.buffer_size stab /\
    (forall obj_id : string,
        is_Some (ObjectTracker.position_buffers stab' !! obj_id)
        <-> In obj_id (List.map ident detected)) /\
    (forall (obj_id : string) (buffer : list Pixel),
        ObjectTracker.position_buffers stab' !! obj_id = Some buffer ->
        buffer_filled (ObjectTracker.buffer_size stab) buffer).
Proof.
  intros detected st stab stab'. unfold stab', stab, Main.process_frame.
  pose proof (stabilize_buffers detected (Main.log Main.CallDetectObjects st))
    as (Hids & Hsize & Hcover & _).
  destruct (Main.stabilize detected _) as [[objs ids] st1].
  cbn [fst snd] in *. simpl in *. subst ids.
  split; [exact Hsize |]. split.
  - intros obj_id. split.
    + intros [buf Hb]. apply map_lookup_filter_Some in Hb as [_ Hin].
      simpl in Hin. apply list_elem_of_In. exact Hin.
    + intros Hin. destruct (Hcover obj_id Hin) as (buf & Hb & _).
      exists buf. apply map_lookup_filter_Some. split; [exact Hb |].
      simpl. apply list_elem_of_In. exact Hin.
  - intros obj_id buffer Hb.
    apply map_lookup_filter_Some in Hb as [Hb Hin]. simpl in Hin.
    apply list_elem_of_In in Hin.
    destruct (Hcover obj_id Hin) as (buf & Hb' & Hfill).
    rewrite Hb in Hb'. injection Hb' as <-. exact Hfill.
Qed.

(** X11. [cleanup] forgets the history of every identity that is not
    listed and keeps the others untouched; the next [update] of a forgotten
    identity returns the raw position and starts a buffer of one entry. *)
Theorem X11_cleanup_forgets_unlisted :
  forall (st : ObjectTracker.Stabilizer) (current_ids : list string)
         (obj_id : string) (position : Pixel),
    let st1 := ObjectTracker.cleanup current_ids st in
    (forall kept : string,
        In kept current_ids ->
        ObjectTracker.position_buffers st1 !! kept
        = ObjectTracker.position_buffers st !! kept) /\
    (~ In obj_id current_ids ->
     ObjectTracker.position_buffers st1 !! obj_id = None /\
     fst (ObjectTracker.update obj_id position st1) = position /\
     ObjectTracker.position_buffers
       (snd (ObjectTracker.update obj_id position st1)) !! obj_id
     = Some [position]).
Proof.
  intros st ids obj_id p st1. unfold st1, ObjectTracker.cleanup. split.
  - intros kept Hin. simpl.
    destruct (ObjectTracker.position_buffers st !! kept) as [buf |] eqn:Hb.
    + apply map_lookup_filter_Some. split; [exact Hb |].
      simpl. apply list_elem_of_In. exact Hin.
    + apply map_lookup_filter_None. left. exact Hb.
  - intros Hout.
    assert (Hnone : filter (fun kv : string * list Pixel => fst kv ∈ ids)
                      (ObjectTracker.position_buffers st) !! obj_id = None).
    { apply map_lookup_filter_None. right. intros buf _ Hin. simpl in Hin.
      apply Hout, list_elem_of_In, Hin. }
    split; [exact Hnone |]. rewrite update_returns. cbn [fst snd]. simpl.
    unfold buffer_of. simpl. rewrite Hnone. simpl.
    assert (Hone : ObjectTracker.deque_append
                     (Pos.to_nat (ObjectTracker.buffer_size st)) [] p = [p]).
    { unfold ObjectTracker.deque_append. simpl.
      replace (1 - Pos.to_nat (ObjectTracker.buffer_size st))%nat with 0%nat
        by lia. reflexivity. }
    rewrite Hone. split; [| apply lookup_insert_eq].
    destruct (_ =? _)%nat; [destruct p; reflexivity | reflexivity].
Qed.

(** ** The selector through the main loop *)

Ltac keyboard_branches :=
  unfold Main.handle_keyboard_input; cbv zeta;
  repeat match goal with
         | |- context [if ?b then _ else _] => destruct b eqn:?
         | |- context [match ObjectTracker.selected_object ?s with _ => _ end] =>
             destruct (ObjectTracker.selected_object s) eqn:?
         | |- context [match nth_error ?l ?n with _ => _ end] =>
             destruct (nth_error l n) eqn:?
         | |- context [bind ?r _] => destruct r eqn:?; cbn [bind]
         end.

Section SelectorInvariants.
Import RobotArm ObjectTracker Main.

(** A property of the selector that each of its operations keeps is kept
    by a pass of the loop. *)
Context (P : Selector -> Prop).
Context (P_clear : forall sel, P sel -> P (clear_selection sel)).
Context (P_select : forall obj sel, P sel -> P (select_object obj sel)).
Context (P_update : forall objs sel,
            P sel -> P (snd (update_selection objs sel))).
Context (P_more : forall sel,
            P sel ->
            P (set_tolerance (Z.min 100 (tolerance_radius sel + 5)) sel)).
Context (P_less : forall sel,
            P sel ->
            P (set_tolerance (Z.max 10 (tolerance_radius sel - 5)) sel)).

Lemma handle_keyboard_input_selector (now : Q) (key : Z)
    (objects : list DetectedObject) (st st' : System) (continue : bool) :
  P (object_selector st) ->
  handle_keyboard_input now key objects st = Ok (continue, st') ->
  P (object_selector st').
Proof.
  intros HP. keyboard_branches; intros [= <- <-]; simpl; auto.
Qed.

Lemma run_iteration_selector (inp : Input) (st st' : System)
    (continue : bool) :
  P (object_selector st) ->
  run_iteration inp st = Ok (continue, st') ->
  P (object_selector st').
Proof.
  intros HP. unfold run_iteration.
  destruct (frame inp) as [detected |]; [| intros [= <- <-]; exact HP].
  pose proof (process_frame_frame detected st) as (_ & _ & Hsel).
  destruct (process_frame detected st) as [objects st1]. cbn [snd] in Hsel.
  destruct (update_mission _ _ _) as [sim |]; cbn [bind]; [| discriminate].
  apply handle_keyboard_input_selector. simpl.
  unfold selection_phase. simpl. rewrite Hsel.
  destruct (is_moving sim); simpl; auto.
Qed.

Lemma reachable_selector (st : System) :
  P (object_selector Main.init) -> Main.reachable st -> P (object_selector st).
Proof.
  intros Hinit. induction 1 as [| st inp continue st' _ IH Hpass].
  - exact Hinit.
  - exact (run_iteration_selector inp st st' continue IH Hpass).
Qed.

End SelectorInvariants.

Section SelectorFactsMore.
Import ObjectTracker.

Lemma update_selection_tolerance (objs : list DetectedObject) (sel : Selector) :
  tolerance_radius (snd (update_selection objs sel)) = tolerance_radius sel.
Proof.
  unfold update_selection. destruct (selected_object sel); [| reflexivity].
  destruct (sorted_by snd _) as [| [c dc] rest]; reflexivity.
Qed.

Lemma update_selection_id (objs : list DetectedObject) (sel : Selector) :
  selection_id sel = option_map ident (selected_object sel) ->
  selection_id (snd (update_selection objs sel))
  = option_map ident (selected_object (snd (update_selection objs sel))).
Proof.
  intros H. unfold update_selection.
  destruct (selected_object sel) eqn:Hs; [| simpl; rewrite H, Hs; reflexivity].
  destruct (sorted_by snd _) as [| [c dc] rest]; simpl;
    [rewrite H, Hs |]; reflexivity.
Qed.

End SelectorFactsMore.

(** X12. At the end of every pass of the main loop the stored identity
    is the identity of the stored object: [selection_id] is [None] when
    nothing is selected and the object's 'id' otherwise. *)
Theorem X12_selection_id_follows_object :
  forall st : Main.System,
    Main.reachable st ->
    ObjectTracker.selection_id (Main.object_selector st)
    = option_map ident (ObjectTracker.selected_object (Main.object_selector st)).
Proof.
  intros st Hr.
  apply (reachable_selector
           (fun sel => ObjectTracker.selection_id sel
                       = option_map ident (ObjectTracker.selected_object sel)));
    try reflexivity; try exact Hr.
  - intros objs sel H. apply update_selection_id. exact H.
  - intros sel H. exact H.
  - intros sel H. exact H.
Qed.

(** X13. At the end of every pass of the main loop the tolerance radius
    is a multiple of 5 from 10 to 100, whatever keys were pressed: the plus
    and minus keys move it by 5 and stop at the two bounds. *)
Theorem X13_tolerance_stays_clamped :
  forall st : Main.System,
    Main.reachable st ->
    10 <= ObjectTracker.tolerance_radius (Main.object_selector st) <= 100 /\
    exists k : Z,
      ObjectTracker.tolerance_radius (Main.object_selector st) = 5 * k.
Proof.
  intros st Hr.
  apply (reachable_selector
           (fun sel => 10 <= ObjectTracker.tolerance_radius sel <= 100 /\
                       exists k : Z, ObjectTracker.tolerance_radius sel = 5 * k));
    try exact Hr; simpl.
  - intros sel H. exact H.
  - intros obj sel H. exact H.
  - intros objs sel H. rewrite update_selection_tolerance. exact H.
  - intros sel [Hb [k Hk]]. split; [lia |].
    destruct (Z.min_spec 100 (ObjectTracker.tolerance_radius sel + 5))
      as [[_ ->] | [_ ->]]; [exists 20 | exists (k + 1)]; lia.
  - intros sel [Hb [k Hk]]. split; [lia |].
    destruct (Z.max_spec 10 (ObjectTracker.tolerance_radius sel - 5))
      as [[_ ->] | [_ ->]]; [exists (k - 1) | exists 2]; lia.
  - split; [lia | exists 8; reflexivity].
Qed.

Section Idempotence.
Import ObjectTracker.

Lemma dist2_self (p : Pixel) : dist2 p p = 0.
Proof. unfold dist2. rewrite !Z.sub_diag. reflexivity. Qed.

Lemma dist2_zero (p q : Pixel) : dist2 p q = 0 -> q = p.
Proof.
  destruct p as [x y], q as [x' y']. unfold dist2. simpl. intros H.
  assert (x' - x = 0) by nia. assert (y' - y = 0) by nia.
  f_equal; lia.
Qed.

(** The element in the middle of a split list, seen from another split. *)
Lemma split_compare {A : Type} (l1 l2 m1 m2 : list A) (x y : A) :
  l1 ++ x :: l2 = m1 ++ y :: m2 ->
  (In x m1 /\ In y l2) \/ (l1 = m1 /\ x = y /\ l2 = m2) \/ (In y l1 /\ In x m2).
Proof.
  revert m1. induction l1 as [| a l1 IH]; intros [| b m1]; simpl.
  - intros [= -> ->]. right. left. repeat split; reflexivity.
  - intros [= -> ->]. left. split; [left; reflexivity |].
    apply in_or_app. right. left. reflexivity.
  - intros [= -> <-]. right. right. split; [left; reflexivity |].
    apply in_or_app. right. left. reflexivity.
  - intros [= -> H]. destruct (IH m1 H) as [[H1 H2] | [(-> & -> & ->) | [H1 H2]]].
    + left. split; [right; exact H1 | exact H2].
    + right. left. repeat split; reflexivity.
    + right. right. split; [right; exact H1 | exact H2].
Qed.

(** Re-resolving from the object just chosen chooses it again. *)
Lemma closest_again (tolerance : Z) (s : Pixel) (objs before after : list DetectedObject)
    (c : DetectedObject) :
  objs = before ++ c :: after ->
  within_tolerance tolerance (dist2 s (pixel_pos c)) = true ->
  Forall (fun o => within_tolerance tolerance (dist2 s (pixel_pos o)) = true ->
                   dist2 s (pixel_pos c) < dist2 s (pixel_pos o)) before ->
  exists dc rest,
    sorted_by snd (matching_objects tolerance (pixel_pos c) objs)
    = (c, dc) :: rest.
Proof.
  intros Hobjs Hnear Hbefore.
  assert (Htol : 0 <= tolerance)
    by (apply within_tolerance_iff in Hnear; tauto).
  assert (Hself : within_tolerance tolerance
                    (dist2 (pixel_pos c) (pixel_pos c)) = true).
  { apply within_tolerance_iff. rewrite dist2_self. nia. }
  pose proof (closest_match tolerance (pixel_pos c) objs) as Hm.
  cbv zeta in Hm.
  destruct (sorted_by snd (matching_objects tolerance (pixel_pos c) objs))
    as [| [c2 d2] rest].
  - exfalso. rewrite List.Forall_forall in Hm. apply (Hm c); [| exact Hself].
    rewrite Hobjs. apply in_or_app. right. left. reflexivity.
  - destruct Hm as (b2 & a2 & Hobjs2 & Hnear2 & Hb2 & Ha2).
    rewrite Hobjs in Hobjs2.
    rewrite List.Forall_forall in Hb2, Ha2, Hbefore.
    destruct (split_compare before after b2 a2 c c2 Hobjs2)
      as [[Hc _] | [(_ & <- & _) | [Hc2 Hc]]].
    + exfalso. pose proof (Hb2 c Hc Hself) as Hlt. rewrite dist2_self in Hlt.
      pose proof (dist2_nonneg (pixel_pos c) (pixel_pos c2)). lia.
    + exists d2, rest. reflexivity.
    + exfalso. pose proof (Ha2 c Hc Hself) as Hle. rewrite dist2_self in Hle.
      pose proof (dist2_nonneg (pixel_pos c) (pixel_pos c2)) as Hnn.
      assert (Hsame : pixel_pos c2 = pixel_pos c) by (apply dist2_zero; lia).
      pose proof (Hbefore c2 Hc2) as Hlt. rewrite Hsame in Hlt.
      specialize (Hlt Hnear). lia.
Qed.

End Idempotence.

(** X14. [update_selection] is idempotent on a detection list:
    re-resolving a second time against the same detections returns the
    same object and leaves the selector as the first call left it. *)
Theorem X14_update_selection_idempotent :
  forall (objs : list DetectedObject) (sel : ObjectTracker.Selector),
    ObjectTracker.update_selection objs
      (snd (ObjectTracker.update_selection objs sel))
    = ObjectTracker.update_selection objs sel.
Proof.
  intros objs sel.
  destruct (ObjectTracker.selected_object sel) as [s |] eqn:Hs.
  - pose proof (closest_match (ObjectTracker.tolerance_radius sel)
                  (pixel_pos s) objs) as Hm. cbv zeta in Hm.
    unfold ObjectTracker.update_selection at 2 3. rewrite Hs.
    destruct (sorted_by snd
                (ObjectTracker.matching_objects
                   (ObjectTracker.tolerance_radius sel) (pixel_pos s) objs))
      as [| [c dc] rest] eqn:Hsort.
    + cbn [snd]. unfold ObjectTracker.update_selection. rewrite Hs, Hsort.
      reflexivity.
    + destruct Hm as (before & after & Hobjs & Hnear & Hbefore & _).
      destruct (closest_again (ObjectTracker.tolerance_radius sel) (pixel_pos s)
                  objs before after c Hobjs Hnear Hbefore) as (dc' & rest' & Hagain).
      cbn [snd]. unfold ObjectTracker.update_selection. simpl.
      rewrite Hagain. reflexivity.
  - unfold ObjectTracker.update_selection. rewrite Hs. simpl. rewrite Hs.
    reflexivity.
Qed.

(** X12, after a pass that selects the red detection with the key 1. *)
Lemma X12_selection_id_follows_object_witness :
  exists st : Main.System,
    Main.run [select_pass] Main.init = Ok st /\
    ObjectTracker.selection_id (Main.object_selector st)
    = Some "Red_100_300"%string.
Proof.
  eexists. split; [vm_compute; reflexivity |].
  match goal with
  | |- ObjectTracker.selection_id (Main.object_selector ?s) = _ =>
      rewrite (X12_selection_id_follows_object s)
  end.
  - reflexivity.
  - apply (run_reachable [select_pass] Main.init).
    + exact Main.reachable_init.
    + vm_compute. reflexivity.
Defined.

(** X13, after fourteen presses of the plus key (from 40) and after eight
    presses of the minus key. *)
Lemma X13_tolerance_stays_clamped_witness :
  exists st st' : Main.System,
    Main.run (repeat plus_pass 14) Main.init = Ok st /\
    Main.run (repeat minus_pass 8) Main.init = Ok st' /\
    ObjectTracker.tolerance_radius (Main.object_selector st) = 100 /\
    ObjectTracker.tolerance_radius (Main.object_selector st') = 10 /\
    10 <= ObjectTracker.tolerance_radius (Main.object_selector st) <= 100.
Proof.
  eexists. eexists. split; [vm_compute; reflexivity |].
  split; [vm_compute; reflexivity |].
  split; [reflexivity |]. split; [reflexivity |].
  match goal with
  | |- _ <= ObjectTracker.tolerance_radius (Main.object_selector ?s) <= _ =>
      apply (X13_tolerance_stays_clamped s)
  end.
  apply (run_reachable (repeat plus_pass 14) Main.init).
  - exact Main.reachable_init.
  - vm_compute. reflexivity.
Defined.

(** ** Keys *)

Section KeyFacts.
Import RobotArm ObjectTracker Main.

Lemma handle_keyboard_input_moving (now : Q) (key : Z)
    (objects : list DetectedObject) (st : System) :
  is_moving (robot_sim st) = true ->
  exists st',
    handle_keyboard_input now key objects st
    = Ok (negb (key =? ord "q"), st') /\
    robot_sim st' = robot_sim st /\
    position_stabilizer st' = position_stabilizer st /\
    call_log st' = call_log st /\
    (selected_object (object_selector st') = None \/
     selected_object (object_selector st')
     = selected_object (object_selector st)).
Proof.
  intros Hm. unfold handle_keyboard_input. cbv zeta. rewrite Hm.
  cbn [negb]. rewrite !andb_false_r.
  repeat match goal with
         | |- context [if ?b then _ else _] => destruct b eqn:?
         end;
    eexists; (split; [reflexivity |]); simpl; auto.
Qed.

End KeyFacts.

(** X15. While the robot is moving no key disturbs the mission: for
    every key [handle_keyboard_input] returns without raising, leaves the
    controller and the stabilizer exactly as they were, and only the key q
    ends the loop; the selection is kept or cleared, never set. *)
Theorem X15_keys_ignored_while_moving :
  forall (now : Q) (key : Z) (objects : list DetectedObject)
         (st : Main.System),
    RobotArm.is_moving (Main.robot_sim st) = true ->
    exists st' : Main.System,
      Main.handle_keyboard_input now key objects st
      = Ok (negb (key =? Main.ord "q"), st') /\
      Main.robot_sim st' = Main.robot_sim st /\
      Main.position_stabilizer st' = Main.position_stabilizer st /\
      (ObjectTracker.selected_object (Main.object_selector st') = None \/
       ObjectTracker.selected_object (Main.object_selector st')
       = ObjectTracker.selected_object (Main.object_selector st)).
Proof.
  intros now key objects st Hm.
  destruct (handle_keyboard_input_moving now key objects st Hm)
    as (st' & Hk & Hsim & Hstab & _ & Hsel).
  exists st'. repeat split; assumption.
Qed.

(** X15, at a system whose robot is executing a red mission, for the key
    f with a blue detection in view. *)
Lemma X15_keys_ignored_while_moving_witness :
  let st := Main.set_sim
              (started 0 (150, 120, 20) (100, 350, 50) "Red" RobotArm.init)
              Main.init in
  RobotArm.is_moving (Main.robot_sim st) = true /\
  exists st' : Main.System,
    Main.handle_keyboard_input 7 (Main.ord "f") [sample_object "Blue" 500 100] st
    = Ok (true, st') /\
    Main.robot_sim st' = Main.robot_sim st.
Proof.
  intros st. split; [reflexivity |].
  destruct (X15_keys_ignored_while_moving 7%Q (Main.ord "f")
              [sample_object "Blue" 500 100] st eq_refl)
    as (st' & Hk & Hsim & _).
  exists st'. split; [exact Hk | exact Hsim].
Defined.

(** X16. While the robot is idle, the digit key [1 + i] for [i] from 0 to
    5 selects detection number [i] of the frame, storing the object and its
    identity, when the frame has that many detections; otherwise it changes
    nothing.  Either way the loop goes on and the controller, the
    stabilizer and the tolerance are untouched. *)
Theorem X16_digit_selects_within_bounds :
  forall (now : Q) (i : Z) (objects : list DetectedObject)
         (st : Main.System),
    RobotArm.is_moving (Main.robot_sim st) = false ->
    0 <= i <= 5 ->
    exists st' : Main.System,
      Main.handle_keyboard_input now (Main.ord "1" + i) objects st
      = Ok (true, st') /\
      Main.robot_sim st' = Main.robot_sim st /\
      Main.position_stabilizer st' = Main.position_stabilizer st /\
      ObjectTracker.tolerance_radius (Main.object_selector st')
      = ObjectTracker.tolerance_radius (Main.object_selector st) /\
      match nth_error objects (Z.to_nat i) with
      | Some obj =>
          ObjectTracker.selected_object (Main.object_selector st') = Some obj /\
          ObjectTracker.selection_id (Main.object_selector st')
          = Some (ident obj)
      | None => st' = st
      end.
Proof.
  intros now i objects st Hidle Hi.
  assert (Hcases : i = 0 \/ i = 1 \/ i = 2 \/ i = 3 \/ i = 4 \/ i = 5) by lia.
  unfold Main.handle_keyboard_input. cbv zeta. rewrite Hidle.
  cbn [negb]. rewrite !andb_true_r.
  destruct Hcases as [-> | [-> | [-> | [-> | [-> | ->]]]]];
    match goal with
    | |- context [Z.to_nat (?a - ?b - 1)] =>
        let v := eval vm_compute in (Z.to_nat (a - b - 1)) in
        change (Z.to_nat (a - b - 1)) with v
    end;
    match goal with
    | |- context [Z.to_nat ?k] =>
        let v := eval vm_compute in (Z.to_nat k) in
        change (Z.to_nat k) with v
    end;
    match goal with
    | |- context [nth_error objects ?n] =>
        destruct (nth_error objects n) as [obj |]
    end;
    simpl; eexists; (split; [reflexivity |]); simpl; repeat split; reflexivity.
Qed.

(** X16, at the initial system with two detections: the key 2 selects
    the second, the key 3 changes nothing. *)
Lemma X16_digit_selects_within_bounds_witness :
  let objects := [sample_object "Red" 100 300; sample_object "Blue" 500 100] in
  RobotArm.is_moving (Main.robot_sim Main.init) = false /\
  (exists st' : Main.System,
      Main.handle_keyboard_input 0 (Main.ord "2") objects Main.init
      = Ok (true, st') /\
      ObjectTracker.selection_id (Main.object_selector st')
      = Some "Blue_500_100"%string) /\
  Main.handle_keyboard_input 0 (Main.ord "3") objects Main.init
  = Ok (true, Main.init).
Proof.
  intros objects. split; [reflexivity |]. split.
  - destruct (X16_digit_selects_within_bounds 0%Q 1 objects Main.init eq_refl)
      as (st' & Hk & _ & _ & _ & Hsel); [lia |].
    exists st'. split; [exact Hk |]. simpl in Hsel. exact (proj2 Hsel).
  - destruct (X16_digit_selects_within_bounds 0%Q 2 objects Main.init eq_refl)
      as (st' & Hk & _ & _ & _ & Hsel); [lia |].
    simpl in Hsel. rewrite Hsel in Hk. exact Hk.
Defined.

(** ** The loop on frames of the detector *)

Section LoopSafety.
Import RobotArm ObjectTracker Main.

Lemma stabilize_colors (detected : list DetectedObject) : forall st : System,
  known_colors detected -> known_colors (fst (fst (stabilize detected st))).
Proof.
  induction detected as [| obj rest IH]; intros st Hk.
  - constructor.
  - apply Forall_cons in Hk as [Ho Hrest]. cbn [stabilize].
    destruct (update (ident obj) (pixel_pos obj) _) as [stable_pos stab].
    specialize (IH (set_stabilizer stab (log (CallStabilizerUpdate (ident obj)) st))
                  Hrest).
    destruct (stabilize rest _) as [[objs ids] st2]. cbn [fst] in *.
    constructor; [exact Ho | exact IH].
Qed.

Lemma process_frame_colors (detected : list DetectedObject) (st : System) :
  known_colors detected -> known_colors (fst (process_frame detected st)).
Proof.
  intros Hk. unfold process_frame.
  pose proof (stabilize_colors detected (log CallDetectObjects st) Hk) as H.
  destruct (stabilize detected _) as [[objs ids] st1]. exact H.
Qed.

Lemma known_colors_drop (l : list DetectedObject) :
  known_colors l -> Forall (fun x => is_Some (drop_locations !! color x)) l.
Proof.
  intros Hk. eapply List.Forall_impl; [| exact Hk].
  intros o Ho. apply known_color_drop. exact Ho.
Qed.

Lemma even_below_100 (p : Z) :
  0 <= p < 100 -> Z.even p = true -> 100 <= p + 2 -> p = 98.
Proof.
  intros Hp He Hge. apply Z.even_spec in He as [k ->]. lia.
Qed.

(** On a controller of the right shape whose queue holds known colours,
    [update_mission] returns. *)
Lemma update_mission_safe (now now' : Q) (s : Sim) :
  controller_shape s -> known_colors (batch_queue s) ->
  exists s', update_mission now now' s = Ok s' /\
    controller_shape s' /\ known_colors (batch_queue s').
Proof.
  intros Hs Hq. pose proof Hs as (_ & Hp & He & _ & Hcase).
  assert (Hret : exists s', update_mission now now' s = Ok s').
  { unfold update_mission.
    destruct (is_moving s && bool_decide (is_Some (current_mission s))) eqn:Hc;
      [| eexists; reflexivity].
    apply andb_true_iff in Hc as [Hm _]. rewrite Hm in Hcase.
    destruct Hcase as (m & d & Hcur & Hd & _). cbv zeta.
    destruct (Z.leb_spec 100 (mission_progress (set_progress (mission_progress s + 2) s)))
      as [Hge | Hlt]; [| eexists; reflexivity].
    simpl in Hge. rewrite (even_below_100 _ Hp He Hge).
    change (set_progress (98 + 2) s) with (set_progress 100 (set_progress 0 s)).
    apply complete_mission_fresh_returns. unfold mission_fresh. simpl.
    repeat split; [exact Hm | | apply known_colors_drop; exact Hq].
    exists m. split; [exact Hcur | rewrite Hd; eauto]. }
  destruct Hret as [s' Hu]. exists s'. split; [exact Hu |].
  split; [exact (update_mission_shape now now' s s' Hs Hu) |].
  unfold update_mission in Hu.
  destruct (is_moving s && bool_decide (is_Some (current_mission s)));
    [| injection Hu as <-; exact Hq].
  cbv zeta in Hu.
  destruct (100 <=? mission_progress (set_progress (mission_progress s + 2) s));
    [| injection Hu as <-; exact Hq].
  apply complete_mission_ok in Hu as (_ & _ & _ & _ & _ & _ & _ & _ & Hqq & _).
  rewrite Hqq. simpl. destruct (batch_queue s) as [| o q]; [constructor |].
  apply Forall_cons in Hq as [_ Hq]. exact Hq.
Qed.

(** [start_batch_pick] on known colours returns, and queues known
    colours. *)
Lemma start_batch_pick_safe (now : Q) (l : list DetectedObject) (s : Sim) :
  is_moving s = false -> controller_shape s ->
  known_colors (batch_queue s) -> known_colors l ->
  exists s', start_batch_pick now l s = Ok s' /\
    controller_shape s' /\ known_colors (batch_queue s').
Proof.
  intros Hi Hs Hq Hl. destruct l as [| o rest].
  - exists s. split; [reflexivity | split; assumption].
  - destruct (start_batch_pick_idle now o rest s Hi (known_colors_drop _ Hl))
      as (s1 & Hstart & _ & _ & Hqueue & _).
    exists s1. split; [exact Hstart |].
    split; [exact (start_batch_pick_shape now (o :: rest) s s1 Hs Hstart) |].
    rewrite Hqueue. apply Forall_cons in Hl as [_ Hl]. exact Hl.
Qed.

Lemma known_colors_sorted (key : DetectedObject -> Z) (l : list DetectedObject) :
  known_colors l -> known_colors (sorted_by key l).
Proof.
  intros Hk. unfold known_colors.
  rewrite (sorted_by_perm key l). exact Hk.
Qed.

Lemma known_colors_filter (f : DetectedObject -> bool) (l : list DetectedObject) :
  known_colors l -> known_colors (List.filter f l).
Proof.
  intros Hk. apply List.Forall_forall. intros o Ho.
  apply filter_In in Ho as [Ho _].
  unfold known_colors in Hk. rewrite List.Forall_forall in Hk. exact (Hk o Ho).
Qed.

(** The object [update_selection] leaves selected is one of the frame,
    or the one selected before. *)
Lemma update_selection_member (objs : list DetectedObject) (sel : Selector)
    (o : DetectedObject) :
  selected_object (snd (update_selection objs sel)) = Some o ->
  In o objs \/ selected_object sel = Some o.
Proof.
  unfold update_selection.
  destruct (selected_object sel) as [selected |] eqn:Hsel;
    [| simpl; rewrite Hsel; discriminate].
  destruct (sorted_by snd _) as [| [c dc] rest] eqn:Hsorted; simpl.
  - rewrite Hsel. intros H. right. exact H.
  - intros [= <-]. left.
    assert (Hin : In (c, dc)
                    (matching_objects (tolerance_radius sel) (pixel_pos selected) objs)).
    { eapply Permutation_in; [apply sorted_by_perm |].
      rewrite Hsorted. left. reflexivity. }
    unfold matching_objects in Hin. apply filter_In in Hin as [Hin _].
    apply in_map_iff in Hin as (x & [= -> _] & Hx). exact Hx.
Qed.

Lemma selection_phase_safe (objects : list DetectedObject) (st : System) :
  loop_safe st -> known_colors objects ->
  loop_safe (selection_phase objects st).
Proof.
  intros (Hs & Hq & Hsel) Hk. unfold selection_phase, loop_safe.
  destruct (is_moving (robot_sim st)); simpl.
  - split; [exact Hs |]. split; [exact Hq |]. discriminate.
  - split; [exact Hs |]. split; [exact Hq |]. intros o Ho.
    apply update_selection_member in Ho as [Hin | Hold].
    + unfold known_colors in Hk. rewrite List.Forall_forall in Hk.
      exact (Hk o Hin).
    + exact (Hsel o Hold).
Qed.

Lemma handle_keyboard_input_safe (now : Q) (key : Z)
    (objects : list DetectedObject) (st : System) :
  loop_safe st -> known_colors objects ->
  exists continue st',
    handle_keyboard_input now key objects st = Ok (continue, st') /\
    loop_safe st'.
Proof.
  intros Hsafe Hk. pose proof Hsafe as (Hs & Hq & Hsel).
  unfold handle_keyboard_input. cbv zeta.
  destruct (key =? ord "q"); [eexists _, _; split; [reflexivity | exact Hsafe] |].
  destruct (key =? ord "c").
  { eexists _, _. split; [reflexivity |]. unfold loop_safe. simpl.
    split; [assumption |]. split; [assumption |]. discriminate. }
  destruct (key =? ord "+");
    [eexists _, _; split; [reflexivity | exact Hsafe] |].
  destruct (key =? ord "-");
    [eexists _, _; split; [reflexivity | exact Hsafe] |].
  destruct (is_moving (robot_sim st)) eqn:Hm; cbn [negb].
  { rewrite !andb_false_r. eexists _, _. split; [reflexivity | exact Hsafe]. }
  rewrite !andb_true_r.
  destruct (key =? ord " ").
  { destruct (selected_object (object_selector st)) as [obj |] eqn:Hobj;
      [| eexists _, _; split; [reflexivity | exact Hsafe]].
    destruct (drop_of_known (color obj) (Hsel obj eq_refl)) as (d & _ & Hd).
    rewrite (start_mission_idle now (robot_pos obj) d (color obj) _ Hm Hd).
    cbn [bind]. eexists _, _. split; [reflexivity |].
    unfold loop_safe. simpl.
    split; [| split; [exact Hq | discriminate]].
    apply (start_mission_shape now (robot_pos obj) (color obj) (robot_sim st));
      [exact Hs | apply start_mission_idle; assumption]. }
  destruct (key =? ord "f").
  { assert (Hret : exists s', start_all_objects_batch now objects (robot_sim st) = Ok s' /\
                     controller_shape s' /\ known_colors (batch_queue s')).
    { unfold start_all_objects_batch. destruct objects as [| a l].
      - exists (robot_sim st). split; [reflexivity | split; assumption].
      - apply start_batch_pick_safe; try assumption.
        apply known_colors_sorted. exact Hk. }
    destruct Hret as (s' & -> & Hs' & Hq'). cbn [bind].
    eexists _, _. split; [reflexivity |]. unfold loop_safe. simpl.
    split; [assumption |]. split; [assumption |]. discriminate. }
  destruct ((key =? ord "r") || (key =? ord "g") || (key =? ord "b")).
  { assert (Hret : exists s',
               start_color_batch_pick now objects (color_map key) (robot_sim st) = Ok s' /\
               controller_shape s' /\ known_colors (batch_queue s')).
    { unfold start_color_batch_pick.
      pose proof (known_colors_filter
                    (fun obj => String.eqb (color obj) (color_map key)) objects Hk)
        as Hf.
      destruct (List.filter _ objects) as [| a l].
      - exists (robot_sim st). split; [reflexivity | split; assumption].
      - apply start_batch_pick_safe; assumption. }
    destruct Hret as (s' & -> & Hs' & Hq'). cbn [bind].
    eexists _, _. split; [reflexivity |]. unfold loop_safe. simpl.
    split; [assumption |]. split; [assumption |]. discriminate. }
  destruct ((ord "1" <=? key) && (key <=? ord "6"));
    [| eexists _, _; split; [reflexivity | exact Hsafe]].
  destruct (nth_error objects _) as [obj |] eqn:Hnth;
    [| eexists _, _; split; [reflexivity | exact Hsafe]].
  eexists _, _. split; [reflexivity |]. unfold loop_safe. simpl.
  split; [exact Hs |]. split; [exact Hq |]. intros o [= <-].
  apply nth_error_In in Hnth.
  unfold known_colors in Hk. rewrite List.Forall_forall in Hk. exact (Hk obj Hnth).
Qed.

Lemma run_iteration_safe (inp : Input) (st : System) :
  loop_safe st -> known_frame inp ->
  exists continue st',
    run_iteration inp st = Ok (continue, st') /\ loop_safe st'.
Proof.
  intros Hsafe Hk. unfold run_iteration, known_frame in *.
  destruct (frame inp) as [detected |];
    [| eexists _, _; split; [reflexivity | exact Hsafe]].
  pose proof (process_frame_frame detected st) as (_ & Hsim & Hsel).
  pose proof (process_frame_colors detected st Hk) as Hobjs.
  destruct (process_frame detected st) as [objects st1].
  cbn [fst snd] in *. destruct Hsafe as (Hs & Hq & Ho).
  cbv zeta.
  destruct (update_mission_safe (time_completed inp) (time_next inp)
              (robot_sim (log CallUpdateMission st1)))
    as (sim & -> & Hs' & Hq').
  { simpl. rewrite Hsim. exact Hs. }
  { simpl. rewrite Hsim. exact Hq. }
  cbn [bind]. apply handle_keyboard_input_safe; [| exact Hobjs].
  assert (Hmid : loop_safe (set_sim sim (log CallUpdateMission st1))).
  { unfold loop_safe. simpl. rewrite Hsel.
    split; [exact Hs' |]. split; [exact Hq' | exact Ho]. }
  pose proof (selection_phase_safe objects _ Hmid Hobjs) as (H1 & H2 & H3).
  unfold loop_safe. simpl. split; [exact H1 |]. split; [exact H2 | exact H3].
Qed.

Lemma run_safe (inputs : list Input) : forall st : System,
  loop_safe st -> Forall known_frame inputs ->
  exists st', run inputs st = Ok st' /\ loop_safe st'.
Proof.
  induction inputs as [| inp rest IH]; intros st Hsafe Hk.
  - exists st. split; [reflexivity | exact Hsafe].
  - apply Forall_cons in Hk as [Hinp Hrest].
    destruct (run_iteration_safe inp st Hsafe Hinp)
      as (continue & st1 & Hpass & Hsafe1).
    cbn [run]. rewrite Hpass. cbn [bind fst snd]. destruct continue.
    + apply IH; assumption.
    + exists st1. split; [reflexivity | exact Hsafe1].
Qed.

Lemma init_safe : loop_safe Main.init.
Proof.
  unfold loop_safe. simpl. split; [| split; [constructor | discriminate]].
  unfold controller_shape. simpl. repeat split; try lia; try reflexivity.
  intros H. contradiction.
Qed.

End LoopSafety.

(** X17. Fed frames whose detections all have a colour among Red, Green
    and Blue, as those of the detector have, the loop never raises,
    whichever keys are pressed: [process_frame], [update_mission], the
    selection step and [handle_keyboard_input] return in every pass, and
    [run] ends with a state in which the controller has its shape. *)
Theorem X17_loop_never_raises_on_detector_frames :
  forall inputs : list Main.Input,
    Forall known_frame inputs ->
    exists st' : Main.System,
      Main.run inputs Main.init = Ok st' /\
      controller_shape (Main.robot_sim st').
Proof.
  intros inputs Hk.
  destruct (run_safe inputs Main.init init_safe Hk) as (st' & Hrun & Hs & _).
  exists st'. split; assumption.
Qed.

(** X17, on the passes that select a red detection, start its pick and
    then watch it. *)
Lemma X17_loop_never_raises_on_detector_frames_witness :
  exists st' : Main.System,
    Main.run [select_pass; pick_pass; quiet_pass] Main.init = Ok st' /\
    controller_shape (Main.robot_sim st').
Proof.
  apply (X17_loop_never_raises_on_detector_frames
           [select_pass; pick_pass; quiet_pass]).
  repeat constructor.
Defined.

(** ** Batches of one colour *)

Section ColourBatch.
Import RobotArm.

(** A batch that has just started runs to its end: 50 ticks for each
    pending pick, then the controller is idle, the picks are in the
    history in order and the batch is counted once. *)
Lemma batch_completes (clock : list (Q * Q)) (s1 : Sim) :
  mission_fresh s1 -> batch_mode s1 = true ->
  length clock = (50 * length (pending s1))%nat ->
  exists s', ticks clock s1 = Ok s' /\
    is_moving s' = false /\ current_mission s' = None /\
    batch_mode s' = false /\ batch_queue s' = [] /\
    batch_completions (metrics s') = batch_completions (metrics s1) + 1 /\
    List.map entry_key (pick_history s')
    = List.map entry_key (pick_history s1) ++ pending s1.
Proof.
  intros Hf Hbm Hclock. pose proof (pending_fresh s1 Hf) as Hlen.
  set (n := length (batch_queue s1)) in *.
  rewrite <- (firstn_skipn (50 * n) clock), ticks_app.
  destruct (batch_prefix n (firstn (50 * n) clock) s1 Hf)
    as (sk & -> & Hfk & Hbmk & Hbck & Hhk & Hpk).
  { unfold n. lia. }
  { rewrite length_firstn. lia. }
  cbn [bind].
  assert (Hqk : batch_queue sk = []).
  { apply pending_fresh in Hfk as Hl. rewrite Hpk, length_skipn in Hl.
    destruct (batch_queue sk); [reflexivity | simpl in Hl; lia]. }
  destruct (last_round (skipn (50 * n) clock) sk Hfk Hqk)
    as (s' & -> & Hmov & Hcur' & Hbm' & Hq' & Hbc' & Hh').
  { rewrite length_skipn. lia. }
  exists s'. split; [reflexivity |].
  repeat split; try assumption.
  - rewrite Hbc', Hbmk, Hbm, Hbck. reflexivity.
  - rewrite Hh', Hhk, Hpk, <- app_assoc, firstn_skipn. reflexivity.
Qed.

Lemma filter_color_known (c : string) (objects : list DetectedObject) :
  c ∈ ["Red"; "Green"; "Blue"]%string ->
  Forall (fun x => is_Some (drop_locations !! color x))
    (List.filter (fun obj => String.eqb (color obj) c) objects).
Proof.
  intros Hc. apply List.Forall_forall. intros o Ho.
  apply filter_In in Ho as [_ Ho]. apply String.eqb_eq in Ho. rewrite Ho.
  apply known_color_drop. exact Hc.
Qed.

Lemma filter_color_keys (c : string) (objects : list DetectedObject) :
  List.map object_key (List.filter (fun obj => String.eqb (color obj) c) objects)
  = List.map (fun obj => (c, robot_pos obj))
      (List.filter (fun obj => String.eqb (color obj) c) objects).
Proof.
  apply map_ext_in. intros o Ho. apply filter_In in Ho as [_ Ho].
  apply String.eqb_eq in Ho. unfold object_key. rewrite Ho. reflexivity.
Qed.

End ColourBatch.

(** X18. [start_color_batch_pick] picks the objects of the requested
    colour and no other.  It changes nothing when the robot is moving or
    when no object has the colour, whatever the other objects are.
    Otherwise, from an idle controller and a colour among Red, Green and
    Blue, it starts the first object of that colour and queues the others
    in the order of the list; 50 ticks per object later the controller is
    idle, the history has gained the positions of exactly these objects, in
    that order and all under the requested colour, and the batch is counted
    once. *)
Theorem X18_colour_batch_picks_that_colour :
  forall (objects_by_color : list DetectedObject) (c : string)
         (s : RobotArm.Sim) (now : Q),
    let color_objects :=
      List.filter (fun obj => String.eqb (color obj) c) objects_by_color in
    (RobotArm.is_moving s = true \/ color_objects = [] ->
     RobotArm.start_color_batch_pick now objects_by_color c s = Ok s) /\
    (RobotArm.is_moving s = false ->
     color_objects <> [] ->
     c ∈ ["Red"; "Green"; "Blue"]%string ->
     exists s1 : RobotArm.Sim,
       RobotArm.start_color_batch_pick now objects_by_color c s = Ok s1 /\
       RobotArm.is_moving s1 = true /\ RobotArm.batch_mode s1 = true /\
       pending s1 = List.map (fun obj => (c, robot_pos obj)) color_objects /\
       forall clock : list (Q * Q),
         length clock = (50 * length color_objects)%nat ->
         exists s' : RobotArm.Sim,
           RobotArm.ticks clock s1 = Ok s' /\
           RobotArm.is_moving s' = false /\ RobotArm.batch_mode s' = false /\
           RobotArm.batch_queue s' = [] /\
           RobotArm.batch_completions (RobotArm.metrics s')
           = RobotArm.batch_completions (RobotArm.metrics s) + 1 /\
           List.map entry_key (RobotArm.pick_history s')
           = List.map entry_key (RobotArm.pick_history s)
             ++ List.map (fun obj => (c, robot_pos obj)) color_objects).
Proof.
  intros objects c s now color_objects. split.
  - intros H. unfold RobotArm.start_color_batch_pick. fold color_objects.
    destruct color_objects as [| o rest]; [reflexivity |].
    destruct H as [Hm | Hnil]; [| discriminate].
    unfold RobotArm.start_batch_pick. rewrite Hm. reflexivity.
  - intros Hidle Hne Hc.
    pose proof (filter_color_known c objects Hc) as Hdrop.
    pose proof (filter_color_keys c objects) as Hkeys.
    fold color_objects in Hdrop, Hkeys.
    unfold RobotArm.start_color_batch_pick. fold color_objects.
    destruct color_objects as [| o rest]; [contradiction |].
    destruct (start_batch_pick_idle now o rest s Hidle Hdrop)
      as (s1 & Hstart & Hf & Hbm & Hq & Hcur & Hh & Hmet).
    assert (Hpend : pending s1 = List.map object_key (o :: rest)).
    { unfold pending. rewrite Hcur, Hq. reflexivity. }
    exists s1. split; [exact Hstart |]. split; [apply Hf |].
    split; [exact Hbm |]. split; [rewrite Hpend; exact Hkeys |].
    intros clock Hclock.
    destruct (batch_completes clock s1 Hf Hbm)
      as (s' & Hticks & Hmov & _ & Hbm' & Hq' & Hbc & Hhist).
    { rewrite Hpend, length_map. exact Hclock. }
    exists s'. split; [exact Hticks |]. split; [exact Hmov |].
    split; [exact Hbm' |]. split; [exact Hq' |].
    split; [rewrite Hbc, Hmet; reflexivity |].
    rewrite Hhist, Hh, Hpend, Hkeys. reflexivity.
Qed.

(** X18, on a frame with two green objects around a red one. *)
Lemma X18_colour_batch_picks_that_colour_witness :
  let objects := [sample_object "Green" 320 240; sample_object "Red" 100 300;
                  sample_object "Green" 500 100] in
  exists s1 s' : RobotArm.Sim,
    RobotArm.start_color_batch_pick 0 objects "Green" RobotArm.init = Ok s1 /\
    RobotArm.ticks (repeat (1%Q, 2%Q) 100) s1 = Ok s' /\
    RobotArm.batch_completions (RobotArm.metrics s') = 1 /\
    List.map entry_key (RobotArm.pick_history s')
    = [("Green"%string, (300, 200, 20)); ("Green"%string, (468, 83, 20))].
Proof.
  intros objects.
  destruct (proj2 (X18_colour_batch_picks_that_colour objects "Green"
                     RobotArm.init 0%Q) eq_refl)
    as (s1 & Hstart & _ & _ & _ & Hend).
  { discriminate. }
  { apply list_elem_of_further, list_elem_of_here. }
  destruct (Hend (repeat (1%Q, 2%Q) 100) eq_refl)
    as (s' & Hticks & _ & _ & _ & Hbc & Hh).
  exists s1, s'. split; [exact Hstart |]. split; [exact Hticks |].
  split; [exact Hbc | exact Hh].
Defined.

(** ** A mission through the loop *)

Section MissionInLoop.
Import RobotArm ObjectTracker Main.

Lemma handle_keyboard_input_history (now : Q) (key : Z)
    (objects : list DetectedObject) (st st' : System) (continue : bool) :
  handle_keyboard_input now key objects st = Ok (continue, st') ->
  pick_history (robot_sim st') = pick_history (robot_sim st) /\
  metrics (robot_sim st') = metrics (robot_sim st).
Proof.
  assert (Hstart : forall op s s',
             (forall now0 now1, op <> OpUpdateMission now0 now1) ->
             (forall now0 now1, op <> OpCompleteMission now0 now1) ->
             exec op s = Ok s' ->
             pick_history s' = pick_history s /\ metrics s' = metrics s).
  { intros op s s' H1 H2.
    destruct op as [t p c | t l | t l c | t l | t t' | t t' | t]; simpl.
    - apply start_mission_frame.
    - apply start_batch_pick_frame.
    - unfold start_color_batch_pick. destruct (List.filter _ l).
      + intros [= <-]. split; reflexivity.
      + apply start_batch_pick_frame.
    - unfold start_all_objects_batch. destruct l.
      + intros [= <-]. split; reflexivity.
      + apply start_batch_pick_frame.
    - destruct (H1 t t'). reflexivity.
    - destruct (H2 t t'). reflexivity.
    - apply start_next_mission_frame. }
  keyboard_branches; intros [= <- <-]; simpl;
    try (split; reflexivity);
    match goal with
    | H : start_mission ?t ?p ?c ?s = Ok _ |- _ =>
        apply (Hstart (OpStartMission t p c) s); [discriminate .. | exact H]
    | H : start_all_objects_batch ?t ?l ?s = Ok _ |- _ =>
        apply (Hstart (OpStartAllObjectsBatch t l) s); [discriminate .. | exact H]
    | H : start_color_batch_pick ?t ?l ?c ?s = Ok _ |- _ =>
        apply (Hstart (OpStartColorBatchPick t l c) s); [discriminate .. | exact H]
    end.
Qed.

(** A pass below progress 98 of a moving robot: the progress goes up by
    2 and nothing else of the controller changes, whatever the key. *)
Lemma pass_moving (inp : Input) (st : System) :
  loop_safe st -> working_pass inp ->
  is_moving (robot_sim st) = true ->
  mission_progress (robot_sim st) + 2 < 100 ->
  exists st',
    run_iteration inp st = Ok (true, st') /\
    robot_sim st'
    = set_progress (mission_progress (robot_sim st) + 2) (robot_sim st) /\
    selected_object (object_selector st') = None /\
    loop_safe st'.
Proof.
  intros Hsafe (Hk & [detected Hframe] & Hkey) Hm Hlt.
  destruct (run_iteration_safe inp st Hsafe Hk) as (c & st' & Hpass & Hsafe').
  exists st'. pose proof Hpass as Hpass0.
  unfold run_iteration in Hpass. rewrite Hframe in Hpass.
  pose proof (process_frame_frame detected st) as (_ & Hsim & _).
  destruct (process_frame detected st) as [objects st1]. cbn [snd] in Hsim.
  cbv zeta in Hpass. simpl robot_sim in Hpass. rewrite Hsim in Hpass.
  destruct Hsafe as ((_ & _ & _ & _ & Hcase) & _). rewrite Hm in Hcase.
  destruct Hcase as (m & d & Hcur & _).
  rewrite update_mission_below in Hpass
    by (rewrite ?Hcur; eauto). cbn [bind] in Hpass.
  match type of Hpass with
  | handle_keyboard_input ?t ?k ?o ?s = _ =>
      destruct (handle_keyboard_input_moving t k o s)
        as (st2 & Hkb & Hsim2 & _ & _ & Hsel2)
  end.
  { unfold selection_phase. simpl. rewrite Hm. simpl. exact Hm. }
  rewrite Hkb in Hpass. injection Hpass as <- <-.
  assert (Hq : (key_pressed inp =? ord "q") = false)
    by (apply Z.eqb_neq; exact Hkey).
  rewrite Hq in Hpass0. split; [exact Hpass0 |].
  split.
  { rewrite Hsim2. unfold selection_phase. simpl. rewrite Hm. reflexivity. }
  split; [| exact Hsafe'].
  unfold selection_phase in Hsel2. simpl in Hsel2. rewrite Hm in Hsel2.
  simpl in Hsel2. destruct Hsel2 as [H | H]; exact H.
Qed.

(** Successive such passes, as long as the progress stays below 100. *)
Lemma passes_moving (inputs : list Input) : forall st : System,
  loop_safe st -> Forall working_pass inputs ->
  is_moving (robot_sim st) = true ->
  mission_progress (robot_sim st) + 2 * Z.of_nat (length inputs) < 100 ->
  exists st',
    run inputs st = Ok st' /\
    robot_sim st'
    = set_progress
        (mission_progress (robot_sim st) + 2 * Z.of_nat (length inputs))
        (robot_sim st) /\
    (inputs <> [] -> selected_object (object_selector st') = None) /\
    loop_safe st'.
Proof.
  induction inputs as [| inp rest IH]; intros st Hsafe Hall Hm Hlt.
  - exists st. split; [reflexivity |]. simpl. rewrite Z.add_0_r.
    split; [symmetry; apply set_progress_same |].
    split; [intros H; contradiction | exact Hsafe].
  - apply Forall_cons in Hall as [Hinp Hrest].
    rewrite length_cons, Nat2Z.inj_succ in Hlt.
    destruct (pass_moving inp st Hsafe Hinp Hm) as (st1 & Hpass & Hsim & Hsel & Hsafe1);
      [lia |].
    destruct (IH st1 Hsafe1 Hrest) as (st' & Hrun & Hsim' & Hsel' & Hsafe').
    { rewrite Hsim. exact Hm. }
    { rewrite Hsim. simpl. lia. }
    exists st'. cbn [run]. rewrite Hpass. cbn [bind fst snd].
    split; [exact Hrun |]. split.
    { rewrite Hsim', Hsim, set_progress_twice. simpl mission_progress.
      rewrite length_cons, Nat2Z.inj_succ. f_equal. lia. }
    split; [| exact Hsafe'].
    intros _. destruct rest as [| inp' rest'].
    + injection Hrun as <-. exact Hsel.
    + apply Hsel'. discriminate.
Qed.

(** The pass at progress 98: the pick enters the history. *)
Lemma pass_completing (inp : Input) (st : System) (m : Mission) :
  loop_safe st -> working_pass inp ->
  is_moving (robot_sim st) = true ->
  current_mission (robot_sim st) = Some m ->
  mission_progress (robot_sim st) = 98 ->
  exists continue st',
    run_iteration inp st = Ok (continue, st') /\
    List.map entry_key (pick_history (robot_sim st'))
    = List.map entry_key (pick_history (robot_sim st))
      ++ [(object_color m, object_pos m)] /\
    total_picks (metrics (robot_sim st'))
    = total_picks (metrics (robot_sim st)) + 1.
Proof.
  intros Hsafe (Hk & [detected Hframe] & Hkey) Hm Hcur Hp.
  destruct (run_iteration_safe inp st Hsafe Hk) as (c & st' & Hpass & _).
  exists c, st'. split; [exact Hpass |].
  unfold run_iteration in Hpass. rewrite Hframe in Hpass.
  pose proof (process_frame_frame detected st) as (_ & Hsim & _).
  destruct (process_frame detected st) as [objects st1]. cbn [snd] in Hsim.
  cbv zeta in Hpass. simpl robot_sim in Hpass. rewrite Hsim in Hpass.
  rewrite update_mission_completes in Hpass
    by (rewrite ?Hcur; eauto).
  destruct (complete_mission _ _ _) as [sim |] eqn:Hdone; cbn [bind] in Hpass;
    [| discriminate].
  apply handle_keyboard_input_history in Hpass as [Hh Hmet].
  apply complete_mission_ok in Hdone
    as (m' & d & Hm' & _ & Hh' & Hmet' & _).
  simpl in Hm', Hh', Hmet'. rewrite Hcur in Hm'. injection Hm' as <-.
  unfold selection_phase in Hh, Hmet.
  destruct (is_moving _) in Hh, Hmet; simpl in Hh, Hmet;
    rewrite Hh, Hmet, Hh', Hmet', map_app;
    (split; [reflexivity |]);
    destruct (batch_mode (robot_sim st) && _); reflexivity.
Qed.

(** From a moving robot to the completion of its mission. *)
Lemma mission_passes (inputs : list Input) : forall (st : System) (m : Mission),
  loop_safe st -> Forall working_pass inputs ->
  is_moving (robot_sim st) = true ->
  current_mission (robot_sim st) = Some m ->
  2 * Z.of_nat (length inputs) = 100 - mission_progress (robot_sim st) ->
  exists st',
    run inputs st = Ok st' /\
    List.map entry_key (pick_history (robot_sim st'))
    = List.map entry_key (pick_history (robot_sim st))
      ++ [(object_color m, object_pos m)] /\
    total_picks (metrics (robot_sim st'))
    = total_picks (metrics (robot_sim st)) + 1.
Proof.
  induction inputs as [| inp rest IH]; intros st m Hsafe Hall Hm Hcur Hlen.
  - destruct Hsafe as ((_ & Hp & _) & _). simpl in Hlen. lia.
  - apply Forall_cons in Hall as [Hinp Hrest].
    rewrite length_cons, Nat2Z.inj_succ in Hlen.
    destruct rest as [| inp' rest'].
    + destruct (pass_completing inp st m Hsafe Hinp Hm Hcur)
        as (c & st' & Hpass & Hh & Ht); [simpl in Hlen; lia |].
      exists st'. cbn [run]. rewrite Hpass. cbn [bind fst snd].
      split; [destruct c; reflexivity |]. split; assumption.
    + destruct (pass_moving inp st Hsafe Hinp Hm)
        as (st1 & Hpass & Hsim & _ & Hsafe1).
      { rewrite length_cons, Nat2Z.inj_succ in Hlen. lia. }
      destruct (IH st1 m Hsafe1 Hrest) as (st' & Hrun & Hh & Ht).
      { rewrite Hsim. exact Hm. }
      { rewrite Hsim. exact Hcur. }
      { rewrite Hsim. simpl mission_progress. lia. }
      exists st'. split.
      { change (run (inp :: inp' :: rest') st)
          with (bind (run_iteration inp st)
                  (fun r => if fst r then run (inp' :: rest') (snd r)
                            else Ok (snd r))).
        rewrite Hpass. exact Hrun. }
      rewrite Hsim in Hh, Ht. split; assumption.
Qed.

End MissionInLoop.

(** X20. No key stops or delays a mission.  Let the loop have run on
    frames of known colours and be in a pass where the robot is moving
    with progress [p].  Then over the next [(100 - p) / 2] passes that
    grab such a frame and read a key other than q, whatever the keys and
    the detections are, [run] returns, and the history has gained the
    pick of the current mission and [total_picks] is one higher; after
    any smaller number [k] of these passes the robot is still moving with
    progress [p + 2 k], nothing is selected and the history is as it
    was. *)
Theorem X20_no_key_stops_a_mission :
  forall (before inputs : list Main.Input) (st : Main.System)
         (m : RobotArm.Mission),
    Forall known_frame before ->
    Main.run before Main.init = Ok st ->
    RobotArm.is_moving (Main.robot_sim st) = true ->
    RobotArm.current_mission (Main.robot_sim st) = Some m ->
    Forall working_pass inputs ->
    2 * Z.of_nat (length inputs)
    = 100 - RobotArm.mission_progress (Main.robot_sim st) ->
    (exists st' : Main.System,
        Main.run inputs st = Ok st' /\
        List.map entry_key (RobotArm.pick_history (Main.robot_sim st'))
        = List.map entry_key (RobotArm.pick_history (Main.robot_sim st))
          ++ [(RobotArm.object_color m, RobotArm.object_pos m)] /\
        RobotArm.total_picks (RobotArm.metrics (Main.robot_sim st'))
        = RobotArm.total_picks (RobotArm.metrics (Main.robot_sim st)) + 1) /\
    (forall k : nat,
        (0 < k < length inputs)%nat ->
        exists stk : Main.System,
          Main.run (firstn k inputs) st = Ok stk /\
          RobotArm.is_moving (Main.robot_sim stk) = true /\
          RobotArm.current_mission (Main.robot_sim stk) = Some m /\
          RobotArm.mission_progress (Main.robot_sim stk)
          = RobotArm.mission_progress (Main.robot_sim st) + 2 * Z.of_nat k /\
          RobotArm.pick_history (Main.robot_sim stk)
          = RobotArm.pick_history (Main.robot_sim st) /\
          ObjectTracker.selected_object (Main.object_selector stk) = None).
Proof.
  intros before inputs st m Hbefore Hrun Hm Hcur Hall Hlen.
  destruct (run_safe before Main.init init_safe Hbefore) as (st0 & Hrun0 & Hsafe).
  rewrite Hrun in Hrun0. injection Hrun0 as <-. split.
  - exact (mission_passes inputs st m Hsafe Hall Hm Hcur Hlen).
  - intros k Hk.
    destruct (passes_moving (firstn k inputs) st Hsafe)
      as (stk & Hrunk & Hsim & Hsel & _).
    { apply (Forall_take working_pass k inputs Hall). }
    { exact Hm. }
    { rewrite length_firstn. lia. }
    exists stk. split; [exact Hrunk |].
    rewrite Hsim, length_firstn, Nat.min_l by lia. simpl.
    repeat split; try assumption.
    apply Hsel. destruct inputs; [simpl in Hk; lia |].
    destruct k; [lia | discriminate].
Qed.

(** X20, on the red pick started by the key 1 and the space bar: 50
    passes later it is in the history. *)
Lemma X20_no_key_stops_a_mission_witness :
  exists st st' : Main.System,
    Main.run [select_pass; pick_pass] Main.init = Ok st /\
    Main.run (repeat quiet_pass 50) st = Ok st' /\
    List.map entry_key (RobotArm.pick_history (Main.robot_sim st'))
    = [("Red"%string, (93, 250, 20))].
Proof.
  assert (Hst : exists st : Main.System,
             Main.run [select_pass; pick_pass] Main.init = Ok st /\
             RobotArm.is_moving (Main.robot_sim st) = true /\
             RobotArm.current_mission (Main.robot_sim st)
             = Some (RobotArm.mkMission (93, 250, 20) "Red" 6) /\
             RobotArm.mission_progress (Main.robot_sim st) = 0 /\
             RobotArm.pick_history (Main.robot_sim st) = []).
  { eexists. split; [vm_compute; reflexivity |]. repeat split; reflexivity. }
  destruct Hst as (st & Hrun & Hm & Hcur & Hp & Hh).
  destruct (X20_no_key_stops_a_mission [select_pass; pick_pass]
              (repeat quiet_pass 50) st _ ltac:(repeat constructor)
              Hrun Hm Hcur) as [(st' & Hrun' & Hh' & _) _].
  - apply List.Forall_forall. intros inp Hin. apply repeat_spec in Hin.
    subst inp. split; [repeat constructor |].
    split; [eexists; reflexivity | discriminate].
  - rewrite Hp. reflexivity.
  - exists st, st'. split; [exact Hrun |]. split; [exact Hrun' |].
    rewrite Hh', Hh. reflexivity.
Defined.

(** ** A colour without a drop zone in a batch *)

Section LateKeyError.
Import RobotArm.

Lemma unknown_color_drop (c : string) :
  c ∉ ["Red"; "Green"; "Blue"]%string -> drop_locations !! c = None.
Proof.
  intros Hc. destruct (drop_locations !! c) as [d |] eqn:Hd; [| reflexivity].
  exfalso. apply Hc. unfold drop_locations in Hd.
  repeat (apply lookup_insert_Some in Hd as [[<- _] | [_ Hd]];
          [set_solver |]).
  rewrite lookup_empty in Hd. discriminate.
Qed.

Lemma fifty_ticks_begun (clock : list (Q * Q)) (s : Sim) :
  mission_begun s -> length clock = 50%nat ->
  exists t t', ticks clock s = complete_mission t t' (set_progress 100 s).
Proof.
  intros (Hm & Hp & (m & Hc & _)) Hlen.
  destruct (clock_last clock 49 Hlen) as (c & t & t' & -> & Hc49).
  exists t, t'. rewrite ticks_app.
  rewrite ticks_below by (rewrite ?Hc; eauto; lia).
  cbn [bind ticks]. rewrite update_mission_completes.
  - destruct (complete_mission _ _ _); reflexivity.
  - exact Hm.
  - simpl. rewrite Hc. eauto.
  - simpl. lia.
Qed.

(** The completion of a mission whose successor has a drop zone. *)
Lemma complete_mission_next_known (t t' : Q) (s : Sim) (o : DetectedObject)
    (q : list DetectedObject) :
  mission_begun s -> batch_queue s = o :: q ->
  is_Some (drop_locations !! color o) ->
  exists s', complete_mission t t' (set_progress 100 s) = Ok s' /\
    mission_begun s' /\ batch_queue s' = q /\
    pending s' = skipn 1 (pending s) /\
    List.map entry_key (pick_history s')
    = List.map entry_key (pick_history s) ++ firstn 1 (pending s).
Proof.
  intros (Hm & Hp & (m & Hc & [d Hd])) Hq [d' Hd'].
  assert (Hret : exists s', complete_mission t t' (set_progress 100 s) = Ok s').
  { unfold complete_mission. simpl. rewrite Hc. unfold drop_of at 1.
    rewrite Hd. simpl. rewrite Hq. unfold start_next_mission. simpl.
    rewrite Hq.
    erewrite calculate_pick_mission_known
      by (unfold drop_of; rewrite Hd'; reflexivity).
    simpl. eexists. reflexivity. }
  destruct Hret as [s' Hs']. exists s'. split; [exact Hs' |].
  apply complete_mission_ok in Hs'
    as (m' & d0 & Hm' & _ & Hh & _ & Hp' & _ & Hqq & Hcase).
  simpl in Hm', Hh, Hqq, Hcase. rewrite Hc in Hm'. injection Hm' as <-.
  rewrite Hq in Hqq, Hcase. destruct Hcase as (Hmov & _ & Hcur & _).
  split.
  { unfold mission_begun. rewrite Hmov, Hp', Hcur. repeat split; try assumption.
    eexists. split; [reflexivity |]. simpl. eauto. }
  split; [exact Hqq |]. unfold pending. rewrite Hcur, Hqq, Hc, Hq.
  split; [reflexivity |]. rewrite Hh, map_app. reflexivity.
Qed.

(** The completion of a mission whose successor has none. *)
Lemma complete_mission_next_unknown (t t' : Q) (s : Sim) (o : DetectedObject)
    (q : list DetectedObject) :
  mission_begun s -> batch_queue s = o :: q ->
  drop_locations !! color o = None ->
  complete_mission t t' (set_progress 100 s) = Raise (KeyError (color o)).
Proof.
  intros (_ & _ & (m & Hc & [d Hd])) Hq Hnone.
  unfold complete_mission. simpl. rewrite Hc. unfold drop_of at 1.
  rewrite Hd. simpl. rewrite Hq. unfold start_next_mission. simpl.
  rewrite Hq. unfold calculate_pick_mission, drop_of.
  destruct (robot_pos o) as [[x y] z]. rewrite Hnone. reflexivity.
Qed.

(** The picks before the object without a drop zone go through. *)
Lemma batch_known_prefix (k : nat) :
  forall (clock : list (Q * Q)) (s : Sim) (known tail : list DetectedObject),
    mission_begun s -> batch_queue s = known ++ tail ->
    Forall (fun o => is_Some (drop_locations !! color o)) known ->
    (k <= length known)%nat -> length clock = (50 * k)%nat ->
    exists s', ticks clock s = Ok s' /\ mission_begun s' /\
      batch_queue s' = skipn k known ++ tail /\
      List.map entry_key (pick_history s')
      = List.map entry_key (pick_history s) ++ firstn k (pending s).
Proof.
  induction k as [| k IH]; intros clock s known tail Hb Hq Hknown Hk Hlen.
  - destruct clock; [| discriminate]. exists s. simpl.
    rewrite app_nil_r. repeat split; try assumption; apply Hb.
  - destruct known as [| o known']; [simpl in Hk; lia |].
    apply Forall_cons in Hknown as [Ho Hknown].
    rewrite <- (firstn_skipn 50 clock), ticks_app.
    destruct (fifty_ticks_begun (firstn 50 clock) s Hb) as (t & t' & ->).
    { rewrite length_firstn. lia. }
    destruct (complete_mission_next_known t t' s o (known' ++ tail) Hb Hq Ho)
      as (s1 & -> & Hb1 & Hq1 & Hp1 & Hh1).
    cbn [bind].
    destruct (IH (skipn 50 clock) s1 known' tail Hb1 Hq1 Hknown)
      as (s' & -> & Hb' & Hq' & Hh').
    { simpl in Hk. lia. }
    { rewrite length_skipn. lia. }
    exists s'. split; [reflexivity |]. split; [exact Hb' |].
    split; [exact Hq' |]. rewrite Hh', Hh1, Hp1, <- app_assoc.
    f_equal. destruct (pending s) as [| e l]; [| reflexivity].
    simpl. destruct k; reflexivity.
Qed.

End LateKeyError.

(** X19. [start_batch_pick] looks up the drop zone of the first object
    only; the colour of a queued object is looked up when its turn comes.
    From an idle controller, a list that starts with an object whose
    colour is not Red, Green or Blue raises [KeyError] at once.  A list
    whose first objects have these colours and are followed by such an
    object is accepted; its leading picks are completed and recorded, 50
    ticks each, and the [update_mission] that completes the last of them
    raises [KeyError] with the unknown colour. *)
Theorem X19_batch_colours_checked_late :
  forall (first bad : DetectedObject) (known rest : list DetectedObject)
         (s : RobotArm.Sim) (now : Q),
    RobotArm.is_moving s = false ->
    Forall (fun o => color o ∈ ["Red"; "Green"; "Blue"]%string)
      (first :: known) ->
    color bad ∉ ["Red"; "Green"; "Blue"]%string ->
    RobotArm.start_batch_pick now (bad :: rest) s
    = Raise (KeyError (color bad)) /\
    exists s1 : RobotArm.Sim,
      RobotArm.start_batch_pick now (first :: known ++ bad :: rest) s = Ok s1 /\
      (forall (k : nat) (clock : list (Q * Q)),
          (k <= length known)%nat -> length clock = (50 * k)%nat ->
          exists sk : RobotArm.Sim,
            RobotArm.ticks clock s1 = Ok sk /\
            RobotArm.is_moving sk = true /\
            List.map entry_key (RobotArm.pick_history sk)
            = List.map entry_key (RobotArm.pick_history s)
              ++ firstn k (List.map object_key (first :: known))) /\
      (forall clock : list (Q * Q),
          length clock = (50 * S (length known))%nat ->
          RobotArm.ticks clock s1 = Raise (KeyError (color bad))).
Proof.
  intros first bad known rest s now Hidle Hknown Hbad.
  apply unknown_color_drop in Hbad.
  split.
  { unfold RobotArm.start_batch_pick. rewrite Hidle. simpl.
    apply start_mission_unknown_color; [exact Hidle | exact Hbad]. }
  apply Forall_cons in Hknown as [Hfirst Hknown].
  destruct (drop_of_known (color first) Hfirst) as (d & Hd & Hdrop).
  assert (Hdrops : Forall (fun o => is_Some (RobotArm.drop_locations !! color o))
                     known).
  { eapply List.Forall_impl; [| exact Hknown].
    intros o Ho. apply known_color_drop. exact Ho. }
  set (s0 := RobotArm.set_queue (known ++ bad :: rest)
               (RobotArm.set_batch_mode true s)).
  exists (started now (robot_pos first) d (color first) s0).
  assert (Hb : mission_begun (started now (robot_pos first) d (color first) s0)).
  { unfold mission_begun. simpl. repeat split.
    eexists. split; [reflexivity |]. simpl. rewrite Hd. eauto. }
  assert (Hpend : pending (started now (robot_pos first) d (color first) s0)
                  = List.map object_key (first :: known ++ bad :: rest))
    by reflexivity.
  split.
  { unfold RobotArm.start_batch_pick. rewrite Hidle. simpl. fold s0.
    apply start_mission_idle; [exact Hidle | exact Hdrop]. }
  split.
  - intros k clock Hk Hclock.
    destruct (batch_known_prefix k clock _ known (bad :: rest) Hb eq_refl
                Hdrops Hk Hclock) as (sk & Hticks & Hbk & _ & Hh).
    exists sk. split; [exact Hticks |]. split; [apply Hbk |].
    rewrite Hh, Hpend. simpl RobotArm.pick_history. f_equal.
    simpl List.map. destruct k as [| k]; [reflexivity |].
    simpl. f_equal. rewrite map_app, firstn_app, length_map.
    replace (k - length known)%nat with 0%nat by lia.
    simpl. rewrite app_nil_r. reflexivity.
  - intros clock Hclock.
    rewrite <- (firstn_skipn (50 * length known) clock), ticks_app.
    destruct (batch_known_prefix (length known)
                (firstn (50 * length known) clock) _ known (bad :: rest)
                Hb eq_refl Hdrops (Nat.le_refl _))
      as (sk & -> & Hbk & Hqk & _).
    { rewrite length_firstn. lia. }
    cbn [bind]. rewrite skipn_all in Hqk. simpl in Hqk.
    destruct (fifty_ticks_begun (skipn (50 * length known) clock) sk Hbk)
      as (t & t' & ->).
    { rewrite length_skipn. lia. }
    exact (complete_mission_next_unknown t t' sk bad rest Hbk Hqk Hbad).
Qed.

(** X19, on a red object followed by a yellow one. *)
Lemma X19_batch_colours_checked_late_witness :
  let red := sample_object "Red" 100 300 in
  let yellow := sample_object "Yellow" 320 240 in
  RobotArm.start_batch_pick 0 [yellow] RobotArm.init
  = Raise (KeyError "Yellow") /\
  exists s1 : RobotArm.Sim,
    RobotArm.start_batch_pick 0 [red; yellow] RobotArm.init = Ok s1 /\
    RobotArm.ticks (repeat (1%Q, 2%Q) 50) s1 = Raise (KeyError "Yellow").
Proof.
  intros red yellow.
  destruct (X19_batch_colours_checked_late red yellow [] [] RobotArm.init 0%Q
              eq_refl) as (Hnow & s1 & Hstart & _ & Hlate).
  - repeat constructor.
  - intros H. repeat (apply elem_of_cons in H as [H | H]; [discriminate |]).
    inversion H.
  - split; [exact Hnow |]. exists s1. split; [exact Hstart |].
    exact (Hlate (repeat (1%Q, 2%Q) 50) eq_refl).
Defined.

(** ** The space bar *)

Section SpaceBar.
Import RobotArm ObjectTracker Main.

Lemma handle_keyboard_input_space (now : Q) (objects : list DetectedObject)
    (st : System) (obj : DetectedObject) :
  is_moving (robot_sim st) = false ->
  selected_object (object_selector st) = Some obj ->
  handle_keyboard_input now (ord " ") objects st
  = bind (start_mission now (robot_pos obj) (color obj) (robot_sim st))
      (fun sim => Ok (true, set_selector (clear_selection (object_selector st))
                              (set_sim sim st))).
Proof.
  intros Hm Hsel. unfold handle_keyboard_input. cbv zeta.
  rewrite Hm, Hsel. reflexivity.
Qed.

End SpaceBar.

(** X21. The space bar picks what the selection step of the same pass
    left selected, which need not be the object the user selected.  In a
    pass of an idle robot with a selected object, a grabbed frame and the
    space bar, colours being among Red, Green and Blue: if some object of
    the processed frame lies within the tolerance radius of the selected
    one, the mission goes to the position and colour of the nearest of
    them (the first in the list among equally near ones), whatever its
    colour; if none does, the selection has stayed and the mission goes
    to the position where the selected object was last seen.  Either way
    the selection is cleared. *)
Theorem X21_space_picks_nearest_or_last_seen :
  forall (st : Main.System) (inp : Main.Input)
         (detected : list DetectedObject) (obj : DetectedObject),
    RobotArm.is_moving (Main.robot_sim st) = false ->
    ObjectTracker.selected_object (Main.object_selector st) = Some obj ->
    Main.frame inp = Some detected ->
    Main.key_pressed inp = Main.ord " " ->
    color obj ∈ detector_colors ->
    known_colors detected ->
    let objects := fst (Main.process_frame detected st) in
    let near := near_selected (Main.object_selector st) obj in
    let d := fun o => ObjectTracker.dist2 (pixel_pos obj) (pixel_pos o) in
    exists (target : DetectedObject) (drop : Position) (st' : Main.System),
      Main.run_iteration inp st = Ok (true, st') /\
      RobotArm.drop_locations !! color target = Some drop /\
      Main.robot_sim st'
      = started (Main.time_started inp) (robot_pos target) drop (color target)
          (Main.robot_sim st) /\
      ObjectTracker.selected_object (Main.object_selector st') = None /\
      ((Forall (fun o => ~ near o) objects /\ target = obj) \/
       (exists before after,
           objects = before ++ target :: after /\ near target /\
           Forall (fun o => near o -> d target < d o) before /\
           Forall (fun o => near o -> d target <= d o) after)).
Proof.
  intros st inp detected obj Hidle Hsel Hframe Hkey Hobj Hknown objects near d.
  pose proof (process_frame_frame detected st) as (_ & Hsim & Hselector).
  pose proof (process_frame_colors detected st Hknown) as Hcolors.
  unfold Main.run_iteration. rewrite Hframe, Hkey. subst objects.
  destruct (Main.process_frame detected st) as [objects st1].
  cbn [fst snd] in *. cbv zeta. simpl Main.robot_sim.
  unfold RobotArm.update_mission. rewrite Hsim, Hidle. cbn [andb bind].
  set (st2 := Main.selection_phase objects _).
  assert (Hsim2 : Main.robot_sim st2 = Main.robot_sim st).
  { unfold st2, Main.selection_phase. simpl. rewrite Hidle. reflexivity. }
  assert (Hsel2 : Main.object_selector st2
                  = snd (ObjectTracker.update_selection objects
                           (Main.object_selector st))).
  { unfold st2, Main.selection_phase. simpl. rewrite Hidle, Hselector.
    reflexivity. }
  pose proof (closest_match (ObjectTracker.tolerance_radius (Main.object_selector st))
                (pixel_pos obj) objects) as Hmatch.
  cbv zeta in Hmatch.
  unfold ObjectTracker.update_selection in Hsel2. rewrite Hsel in Hsel2.
  assert (Hpick : forall target,
             ObjectTracker.selected_object (Main.object_selector st2) = Some target ->
             color target ∈ detector_colors ->
             exists drop st',
               Main.handle_keyboard_input (Main.time_started inp) (Main.ord " ")
                 objects (Main.log (Main.CallHandleKeyboard (Main.ord " ")) st2)
               = Ok (true, st') /\
               RobotArm.drop_locations !! color target = Some drop /\
               Main.robot_sim st'
               = started (Main.time_started inp) (robot_pos target) drop
                   (color target) (Main.robot_sim st) /\
               ObjectTracker.selected_object (Main.object_selector st') = None).
  { intros target Htarget Hcol.
    destruct (drop_of_known (color target) Hcol) as (drop & Hlook & Hdrop).
    rewrite (handle_keyboard_input_space _ _ _ target)
      by (simpl; rewrite ?Hsim2; assumption).
    simpl Main.robot_sim. rewrite Hsim2.
    rewrite (start_mission_idle _ (robot_pos target) drop (color target) _
               Hidle Hdrop).
    cbn [bind]. eexists drop, _. split; [reflexivity |].
    split; [exact Hlook |]. split; reflexivity. }
  destruct (sorted_by snd _) as [| [closest dc] rest].
  - destruct (Hpick obj) as (drop & st' & Hk & Hlook & Hs' & Hnone).
    { rewrite Hsel2. exact Hsel. }
    { exact Hobj. }
    exists obj, drop, st'. repeat split; try assumption.
    left. split; [exact Hmatch | reflexivity].
  - destruct Hmatch as (before & after & -> & Hnear & Hb & Ha).
    destruct (Hpick closest) as (drop & st' & Hk & Hlook & Hs' & Hnone).
    { rewrite Hsel2. reflexivity. }
    { unfold known_colors in Hcolors. rewrite List.Forall_forall in Hcolors.
      apply Hcolors, in_or_app. right. left. reflexivity. }
    exists closest, drop, st'. repeat split; try assumption.
    right. exists before, after. repeat split; assumption.
Qed.

(** X21, on an object selected with the key 1 that is gone from the
    next frame: the space bar sends the arm to where it was. *)
Lemma X21_space_picks_nearest_or_last_seen_witness :
  exists st st' : Main.System,
    Main.run [select_pass] Main.init = Ok st /\
    Main.run_iteration blind_pick_pass st = Ok (true, st') /\
    RobotArm.current_mission (Main.robot_sim st')
    = Some (RobotArm.mkMission (93, 250, 20) "Red" 6).
Proof.
  assert (Hst : exists st : Main.System,
             Main.run [select_pass] Main.init = Ok st /\
             RobotArm.is_moving (Main.robot_sim st) = false /\
             ObjectTracker.selected_object (Main.object_selector st)
             = Some (sample_object "Red" 100 300)).
  { eexists. split; [vm_compute; reflexivity |]. split; reflexivity. }
  destruct Hst as (st & Hrun & Hidle & Hsel).
  destruct (X21_space_picks_nearest_or_last_seen st blind_pick_pass []
              (sample_object "Red" 100 300) Hidle Hsel eq_refl eq_refl)
    as (target & drop & st' & Hpass & Hlook & Hsim & _ & Hcase).
  - apply list_elem_of_here.
  - constructor.
  - exists st, st'. split; [exact Hrun |]. split; [exact Hpass |].
    destruct Hcase as [[_ ->] | (before & after & Hsplit & _)].
    + rewrite Hsim. reflexivity.
    + destruct before; discriminate Hsplit.
Defined.

(** ** The area threshold of the detector *)

Section MinArea.
Import ColorDetection.
Context {Frame HSVFrame Mask Contour : Type}.
Context (frame_shape : Frame -> Z * Z)
        (zeros : HSVFrame -> Mask)
        (inRange : HSVFrame -> HSV -> HSV -> Mask)
        (bitwise_or : Mask -> Mask -> Mask)
        (morph_open morph_close dilate : Mask -> Mask)
        (findContours : Mask -> list Contour)
        (contourArea : Contour -> Q)
        (convexHull : Contour -> Contour)
        (boundingRect : Contour -> Z * Z * Z * Z).

Lemma contour_accepted_raise (cnt_area hull_area a a' : Q) :
  (a <= a')%Q ->
  contour_accepted cnt_area hull_area a'
  = contour_accepted cnt_area hull_area a && Qlt_bool a' cnt_area.
Proof.
  intros Hle. unfold contour_accepted.
  destruct (Qlt_bool a' cnt_area) eqn:H'.
  - apply Qlt_bool_iff in H'.
    assert (H : Qlt_bool a cnt_area = true)
      by (apply Qlt_bool_iff; exact (Qle_lt_trans _ _ _ Hle H')).
    rewrite H, andb_true_r. reflexivity.
  - rewrite andb_false_r. reflexivity.
Qed.

Lemma find_contours_raise (mask : Mask) (a a' : Q) :
  (a <= a')%Q ->
  find_contours findContours contourArea convexHull mask a'
  = List.filter (fun cnt => Qlt_bool a' (contourArea cnt))
      (find_contours findContours contourArea convexHull mask a).
Proof.
  intros Hle. unfold find_contours.
  induction (findContours mask) as [| cnt l IH]; [reflexivity |].
  simpl. rewrite (contour_accepted_raise _ _ a a' Hle).
  destruct (contour_accepted _ _ a); simpl.
  - destruct (Qlt_bool a' (contourArea cnt)); rewrite IH; reflexivity.
  - exact IH.
Qed.

Lemma find_contours_area (mask : Mask) (a : Q) :
  Forall (fun cnt => (a < contourArea cnt)%Q)
    (find_contours findContours contourArea convexHull mask a).
Proof.
  apply List.Forall_forall. intros cnt Hin. unfold find_contours in Hin.
  apply filter_In in Hin as [_ Hacc]. unfold contour_accepted in Hacc.
  destruct (Qlt_bool a (contourArea cnt)) eqn:H; [| discriminate].
  apply Qlt_bool_iff. exact H.
Qed.

Lemma contour_object_area (cnt : Contour) (c : string) (height width : Z)
    (obj : DetectedObject) :
  contour_object contourArea boundingRect cnt c height width = Ok obj ->
  area obj = contourArea cnt.
Proof.
  unfold contour_object. destruct (boundingRect cnt) as [[[x y] w] h].
  destruct (width =? 0); [discriminate |].
  destruct (height =? 0); [discriminate |].
  intros [= <-]. reflexivity.
Qed.

(** Dropping contours by their area drops the objects of that area. *)
Lemma process_contours_filter (p : Q -> bool) (c : string) (shape : Z * Z)
    (contours : list Contour) : forall objs : list DetectedObject,
  process_contours contourArea boundingRect contours c shape = Ok objs ->
  process_contours contourArea boundingRect
    (List.filter (fun cnt => p (contourArea cnt)) contours) c shape
  = Ok (List.filter (fun o => p (area o)) objs) /\
  List.map area objs = List.map contourArea contours.
Proof.
  induction contours as [| cnt rest IH]; intros objs; simpl.
  - intros [= <-]. split; reflexivity.
  - destruct (contour_object _ _ cnt c _ _) as [obj |] eqn:Hobj;
      cbn [bind]; [| discriminate].
    destruct (process_contours _ _ rest c shape) as [objs' |];
      cbn [bind]; [| discriminate].
    intros [= <-]. destruct (IH objs' eq_refl) as [Hf Hm].
    pose proof (contour_object_area _ _ _ _ _ Hobj) as Harea.
    simpl. rewrite Harea, Hm. split; [| reflexivity].
    destruct (p (contourArea cnt)); [| exact Hf].
    simpl. rewrite Hobj. cbn [bind]. rewrite Hf. reflexivity.
Qed.

Lemma detect_colors_raise (d : Detector) (frame : Frame)
    (hsv_frame : HSVFrame) (a a' : Q) (keys : list string) :
  (a <= a')%Q ->
  forall detected objs : list DetectedObject,
    detect_colors frame_shape zeros inRange bitwise_or morph_open morph_close
      dilate findContours contourArea convexHull boundingRect
      d frame hsv_frame a keys detected = Ok objs ->
    (Forall (fun o => (a < area o)%Q) detected ->
     Forall (fun o => (a < area o)%Q) objs) /\
    detect_colors frame_shape zeros inRange bitwise_or morph_open morph_close
      dilate findContours contourArea convexHull boundingRect
      d frame hsv_frame a' keys
      (List.filter (fun o => Qlt_bool a' (area o)) detected)
    = Ok (List.filter (fun o => Qlt_bool a' (area o)) objs).
Proof.
  intros Hle. induction keys as [| k keys IH]; intros detected objs; simpl.
  - intros [= <-]. split; [intros H; exact H | reflexivity].
  - destruct (create_color_mask _ _ _ _ _ _ d hsv_frame k) as [mask |];
      [| apply IH].
    destruct (process_contours _ _ (find_contours _ _ _ mask a) k _)
      as [objects |] eqn:Hobjects; cbn [bind]; [| discriminate].
    intros H. apply IH in H as [Hareas Hraise].
    destruct (process_contours_filter (Qlt_bool a') k (frame_shape frame) _ _
                Hobjects) as [Hf Hm].
    split.
    + intros Hdet. apply Hareas. apply Forall_app. split; [exact Hdet |].
      pose proof (find_contours_area mask a) as Hc.
      apply List.Forall_forall. intros o Ho.
      apply (in_map area) in Ho. rewrite Hm in Ho.
      apply in_map_iff in Ho as (cnt & <- & Hcnt).
      rewrite List.Forall_forall in Hc. exact (Hc cnt Hcnt).
    + rewrite (find_contours_raise mask a a' Hle), Hf. cbn [bind].
      rewrite <- List.filter_app. exact Hraise.
Qed.

End MinArea.

(** X22. The area threshold of [detect_objects] is strict and monotone:
    every returned object has an 'area' above [min_area], and with a
    higher threshold the call returns the same objects, in the same order,
    less those whose area is not above the new threshold. *)
Theorem X22_min_area_monotone :
  forall (Frame HSVFrame Mask Contour : Type)
         (GaussianBlur : Frame -> Frame)
         (cvtColor_BGR2HSV : Frame -> HSVFrame)
         (frame_shape : Frame -> Z * Z)
         (zeros : HSVFrame -> Mask)
         (inRange : HSVFrame -> ColorDetection.HSV -> ColorDetection.HSV -> Mask)
         (bitwise_or : Mask -> Mask -> Mask)
         (morph_open morph_close dilate : Mask -> Mask)
         (findContours : Mask -> list Contour)
         (contourArea : Contour -> Q)
         (convexHull : Contour -> Contour)
         (boundingRect : Contour -> Z * Z * Z * Z)
         (d : ColorDetection.Detector)
         (frame : Frame) (min_area min_area' : Q) (objs : list DetectedObject),
    (min_area <= min_area')%Q ->
    ColorDetection.detect_objects GaussianBlur cvtColor_BGR2HSV frame_shape
      zeros inRange bitwise_or morph_open morph_close dilate findContours
      contourArea convexHull boundingRect d frame min_area = Ok objs ->
    Forall (fun o => (min_area < area o)%Q) objs /\
    ColorDetection.detect_objects GaussianBlur cvtColor_BGR2HSV frame_shape
      zeros inRange bitwise_or morph_open morph_close dilate findContours
      contourArea convexHull boundingRect d frame min_area'
    = Ok (List.filter (fun o => ColorDetection.Qlt_bool min_area' (area o)) objs).
Proof.
  intros until objs. intros Hle H. unfold ColorDetection.detect_objects in *.
  apply (detect_colors_raise _ _ _ _ _ _ _ _ _ _ _ _ _ _ min_area min_area' _ Hle)
    in H as [Hareas Hraise].
  split; [apply Hareas; constructor | exact Hraise].
Qed.

(** X22, on the stand-in frame: both boxes have area 1600, above 1000
    and not above 1600. *)
Lemma X22_min_area_monotone_witness :
  toy_detect None (480, 640) 1000
  = Ok [sample_object "Red" 100 300; sample_object "Blue" 500 100] /\
  toy_detect None (480, 640) 1600 = Ok [].
Proof.
  assert (H : toy_detect None (480, 640) 1000
              = Ok [sample_object "Red" 100 300; sample_object "Blue" 500 100])
    by (vm_compute; reflexivity).
  split; [exact H |].
  assert (Hle : (1000 <= 1600)%Q) by discriminate.
  exact (proj2 (X22_min_area_monotone _ _ _ _
                  (fun f : Z * Z => f) (fun _ : Z * Z => tt)
                  (fun f : Z * Z => f) (fun _ : unit => []) toy_inRange
                  (fun a b => a ++ b) (fun m => m) (fun m => m) (fun m => m)
                  (fun m => m) toy_area (fun c => c) (fun c => c)
                  (ColorDetection.new_detector None) (480, 640)
                  1000%Q 1600%Q _ Hle H)).
Defined.
